(** * CancelToken: a cancel token built on an observable

    A shallow embedding of [src/CancelToken.js] and the statements of its
    specification.  The token keeps a write-once reason and a set of pending
    observers; the trigger handed to the constructor's setup function stores
    the reason and dispatches it, and [subscribe] replays it to late
    observers.

    Observers are user code that can call back into any token while a
    dispatch is running, so callbacks are scripts of token operations and
    the functions of the class are written once over the runner of such
    scripts; the runner is obtained by iterating them a bounded number of
    times, and a call that needs more ends [OutOfFuel].

    The file has five parts: the model of the class, the vocabulary of the
    statements, general lemmas on what the calls of the class keep, the
    statements of the specification, C1 to C10, and further properties of
    the class, X1 to X12. *)

From stdpp Require Import base list strings pretty.
From Stdlib Require Import Lia.

(** ** Values *)

(** [class Cancel { constructor(msg) { this._msg = String(msg) } }] *)
Record Cancel := mkCancel { _msg : string }.

(** The JavaScript values that reach a token: the messages given to a
    trigger, the values thrown by callbacks, and the reason handed to
    observers.  The only objects are instances of [Cancel]; numbers,
    symbols and objects with a [toString] of their own are left out of
    this type, and [js_value] below has them. *)
Inductive value :=
| VUndefined
| VNull
| VBool (b : bool)
| VString (s : string)
| VCancel (c : Cancel).

(** [String(msg)].  [Cancel] defines no [toString], so an instance is
    rendered by [Object.prototype.toString]. *)
Definition js_String (msg : value) : string :=
  match msg with
  | VUndefined => "undefined"
  | VNull => "null"
  | VBool true => "true"
  | VBool false => "false"
  | VString s => s
  | VCancel _ => "[object Object]"
  end%string.

(** [new Cancel(msg)] *)
Definition new_Cancel (msg : value) : Cancel := mkCancel (js_String msg).




(** ** User code *)

(** Tokens and subscription handles are named by their allocation index. *)
Abbreviation token := nat (only parsing).
Abbreviation handle := nat (only parsing).

(** An argument of a call made by user code: a literal, or the value the
    running callback received ([undefined] when it received none). *)
Inductive expr :=
| Lit (v : value)
| Received.

(** An observer as [subscribe] receives it, over the type of callback
    bodies.  A callback is a list of bodies: each call runs the first one
    and drops it, the last one stays for all later calls, and an empty list
    is a callback that does nothing.  A missing method is [None].  When
    [subscribe] is given a function [f], the observer is [{ next: f }]. *)
Record ObserverOf (body : Type) := mkObserver {
  next : option (list body);
  complete : option (list body)
}.
Arguments mkObserver {body} _ _.
Arguments next {body} _.
Arguments complete {body} _.

(** The statements of user code.  Tokens and subscriptions are named by
    their allocation index.
    - [ASubscribe t o]: [t.subscribe(o)];
    - [AUnsubscribe h]: [h.unsubscribe()] on the subscription [h];
    - [ACancel t e]: call the trigger of [t] (the function its setup
      received) with [e];
    - [AThrowIfRequested t]: [t.throwIfRequested()];
    - [AThrow e]: [throw e]. *)
#[warnings="-register-all"]
Inductive action :=
| ASubscribe (t : token) (o : ObserverOf (list action))
| AUnsubscribe (h : handle)
| ACancel (t : token) (e : expr)
| AThrowIfRequested (t : token)
| AThrow (e : expr).

Definition script := list action.
Definition callback := list script.
Definition Observer := ObserverOf script.

(** The body a call of the callback runs, and the callback afterwards. *)
Definition call_of (cb : callback) : script * callback :=
  match cb with
  | [] => ([], [])
  | [s] => (s, [s])
  | s :: cb' => (s, cb')
  end.

Definition eval (received : value) (e : expr) : value :=
  match e with
  | Lit v => v
  | Received => received
  end.

(** ** State *)

(** The fields of a [CancelToken]; [_observers] is the insertion-ordered
    [Set] of the handles of the pending observers. *)
Record CancelToken := mkToken {
  _reason : option Cancel;
  _observers : list handle
}.

(** What the channel keeps for one call of [subscribe]: the token whose
    set the cleanup function deletes from, the observer, and whether the
    subscription is closed. *)
Record Subscription := mkSubscription {
  s_token : token;
  s_observer : Observer;
  s_closed : bool
}.

(** A call on an observer: [next(v)] or [complete()]. *)
Inductive notification :=
| NNext (v : value)
| NComplete.

(** What a run leaves behind.  [Notify d h n reached]: a dispatch running
    at nesting depth [d] called the method [n] of handle [h], and the call
    reached the observer ([reached]) or was dropped by the handle.  The
    depth is 0 for a dispatch started by a call from outside and one more
    than the dispatch that called the callback otherwise; it tells the
    deliveries of one pass from those of the passes started inside it.
    [ConsoleError e]: [console.error(e)]. *)
Inductive event :=
| Notify (depth : nat) (h : handle) (n : notification) (reached : bool)
| ConsoleError (e : value).

Record state := mkState {
  tokens : list CancelToken;
  subscriptions : list Subscription;
  trace : list event
}.

Definition empty_state : state := mkState [] [] [].

(** The state after the first lines of [constructor(fn)]: one more token,
    pending and without observers. *)
Definition allocated (st : state) : state :=
  mkState (tokens st ++ [mkToken None []]) (subscriptions st) (trace st).

(** How a call ends: it returns, it throws, or the bound on nested calls
    was reached before it ended. *)
Inductive completion :=
| Normal
| Throws (e : value)
| OutOfFuel.

Definition result := (state * completion)%type.

(** Sequencing: the rest runs only after a normal return. *)
Definition bind (r : result) (k : state → result) : result :=
  match r with
  | (st, Normal) => k st
  | _ => r
  end.

Notation "'do' st <- r ; k" := (bind r (fun st => k))
  (at level 10, st name, r at level 100, k at level 200,
   format "'[v' 'do'  st  <-  r ; '/' k ']'").

(** [try { ... } catch (e) { handler(e) }] *)
Definition try_catch (r : result) (handler : value → state → state) : result :=
  match r with
  | (st, Throws e) => (handler e st, Normal)
  | _ => r
  end.

(** ** Field access *)

Definition log (evs : list event) (st : state) : state :=
  mkState (tokens st) (subscriptions st) (trace st ++ evs).

Definition set_token (t : token) (tok : CancelToken) (st : state) : state :=
  mkState (<[t := tok]> (tokens st)) (subscriptions st) (trace st).

Definition set_subscription (h : handle) (s : Subscription) (st : state) : state :=
  mkState (tokens st) (<[h := s]> (subscriptions st)) (trace st).

(** [this._reason] of token [t]. *)
Definition reason (t : token) (st : state) : option Cancel :=
  tok ← tokens st !! t; _reason tok.

(** [this._observers] of token [t], in insertion order. *)
Definition observers (t : token) (st : state) : list handle :=
  match tokens st !! t with
  | Some tok => _observers tok
  | None => []
  end.

(** The reason as a JavaScript value. *)
Definition reason_value (t : token) (st : state) : value :=
  match reason t st with
  | Some c => VCancel c
  | None => VUndefined
  end.

(** [Set.prototype.add], [delete] and [clear] on an insertion-ordered set. *)
Definition Set_add (h : handle) (s : list handle) : list handle :=
  if decide (h ∈ s) then s else s ++ [h].

Definition Set_delete (h : handle) (s : list handle) : list handle :=
  filter (λ x, x ≠ h) s.

Definition update_observers (f : list handle → list handle) (t : token)
    (st : state) : state :=
  match tokens st !! t with
  | Some tok => set_token t (mkToken (_reason tok) (f (_observers tok))) st
  | None => st
  end.

(** [function HostReportErrors(...errors)] *)
Definition HostReportErrors (errors : list value) (st : state) : state :=
  log (ConsoleError <$> errors) st.

(** ** The channel *)

(** Modelled from the spec: the subscribable channel, [zen-observable],
    which the file requires and which is not among the sources.  The spec
    asks of it a registration that hands the observer to the subscriber
    function and returns a disposer that deregisters idempotently.  What a
    handle does with a notification after its observer completed or was
    unsubscribed is left open there, so both answers are kept:
    - [Forwarding]: a handle forwards every call to its observer;
    - [Closing]: a handle is closed by [unsubscribe] and by its first
      [complete], which also runs the cleanup function, and a closed handle
      drops every call (the behaviour of [zen-observable]'s
      [SubscriptionObserver]). *)
Inductive channel := Forwarding | Closing.

Definition drops (ch : channel) (s : Subscription) : bool :=
  match ch with
  | Forwarding => false
  | Closing => s_closed s
  end.

(** What only a [Closing] channel does. *)
Definition closing (ch : channel) (f : state → state) (st : state) : state :=
  match ch with
  | Forwarding => st
  | Closing => f st
  end.

Definition close (h : handle) (st : state) : state :=
  match subscriptions st !! h with
  | Some s => set_subscription h (mkSubscription (s_token s) (s_observer s) true) st
  | None => st
  end.

(** The observer of a handle after one of its callbacks was called. *)
Definition set_observer (h : handle) (o : Observer) (st : state) : state :=
  match subscriptions st !! h with
  | Some s => set_subscription h (mkSubscription (s_token s) o (s_closed s)) st
  | None => st
  end.

(** The cleanup function [() => this._observers.delete(observer)]. *)
Definition cleanup (h : handle) (st : state) : state :=
  match subscriptions st !! h with
  | Some s => update_observers (Set_delete h) (s_token s) st
  | None => st
  end.

(** Modelled from the spec: [this._observable.subscribe(...args)].  The
    channel makes a handle for the observer and calls the subscriber
    function of the constructor with it, [observer => {
    this._observers.add(observer); return () =>
    this._observers.delete(observer) }]. *)
Definition Observable_subscribe (t : token) (o : Observer) (st : state)
    : handle * state :=
  let h := length (subscriptions st) in
  let st1 := mkState (tokens st) (subscriptions st ++ [mkSubscription t o false])
                     (trace st) in
  (h, update_observers (Set_add h) t st1).

(** Modelled from the spec: [subscription.unsubscribe()], the disposer. *)
Definition unsubscribe (h : handle) (st : state) : state :=
  match subscriptions st !! h with
  | Some s => if s_closed s then st else cleanup h (close h st)
  | None => st
  end.

(** ** The class *)

Section Class.

Variable ch : channel.

(** The runner of callback bodies: nesting depth, received value, body. *)
Variable run : nat → value → script → state → result.

(** Modelled from the spec: [observer.next(v)] on a handle, called by a
    dispatch at depth [d].  The handle calls the [next] method of its
    observer, if it has one, and lets through what it throws.  (A handle
    that names no subscription does not occur in a set; the call then does
    nothing.) *)
Definition call_next (d : nat) (h : handle) (v : value) (st : state) : result :=
  match subscriptions st !! h with
  | None => (st, Normal)
  | Some s =>
      if drops ch s then (log [Notify d h (NNext v) false] st, Normal)
      else
        let st1 := log [Notify d h (NNext v) true] st in
        match next (s_observer s) with
        | None => (st1, Normal)
        | Some cb =>
            run (S d) v (fst (call_of cb))
                (set_observer h
                   (mkObserver (Some (snd (call_of cb))) (complete (s_observer s)))
                   st1)
        end
  end.

(** Modelled from the spec: [observer.complete()] on a handle.  A
    [Closing] handle closes before it calls the observer and runs the
    cleanup function afterwards, also when the observer throws. *)
Definition call_complete (d : nat) (h : handle) (st : state) : result :=
  match subscriptions st !! h with
  | None => (st, Normal)
  | Some s =>
      if drops ch s then (log [Notify d h NComplete false] st, Normal)
      else
        let st1 := closing ch (close h) (log [Notify d h NComplete true] st) in
        match complete (s_observer s) with
        | None => (closing ch (cleanup h) st1, Normal)
        | Some cb =>
            match run (S d) VUndefined (fst (call_of cb))
                    (set_observer h
                       (mkObserver (next (s_observer s)) (Some (snd (call_of cb))))
                       st1) with
            | (st2, OutOfFuel) => (st2, OutOfFuel)
            | (st2, c) => (closing ch (cleanup h) st2, c)
            end
        end
  end.

(** The loop of [_dispatch] over the snapshot
    [Array.from(this._observers.values())]. *)
Fixpoint dispatch_loop (d : nat) (t : token) (snapshot : list handle)
    (st : state) : result :=
  match snapshot with
  | [] => (st, Normal)
  | observer :: rest =>
      do st1 <- try_catch (call_next d observer (reason_value t st) st)
                          (λ e, HostReportErrors [e]);
      do st2 <- try_catch (call_complete d observer st1)
                          (λ e, HostReportErrors [e]);
      dispatch_loop d t rest st2
  end.

(** [_dispatch()] *)
Definition _dispatch (d : nat) (t : token) (st : state) : result :=
  do st1 <- dispatch_loop d t (observers t st) st;
  (update_observers (λ _, []) t st1, Normal).

(** The trigger the constructor hands to [fn]:
    [msg => { if (this._reason === undefined) { this._reason = new
    Cancel(msg); this._dispatch() } }] *)
Definition trigger (d : nat) (t : token) (msg : value) (st : state) : result :=
  match tokens st !! t with
  | None => (st, Normal)
  | Some tok =>
      match _reason tok with
      | None =>
          _dispatch d t
            (set_token t (mkToken (Some (new_Cancel msg)) (_observers tok)) st)
      | Some _ => (st, Normal)
      end
  end.


(** [subscribe(...args)]; the subscription it returns is the handle. *)
Definition subscribe (d : nat) (t : token) (o : Observer) (st : state)
    : handle * result :=
  let subscription := Observable_subscribe t o st in
  (fst subscription,
   match reason t (snd subscription) with
   | Some _ => _dispatch d t (snd subscription)
   | None => (snd subscription, Normal)
   end).

(** [throwIfRequested()] *)
Definition throwIfRequested (t : token) (st : state) : result :=
  match reason t st with
  | Some c => (st, Throws (VCancel c))
  | None => (st, Normal)
  end.

(** One statement of user code, running at depth [d]. *)
Definition exec_action (d : nat) (received : value) (a : action)
    (st : state) : result :=
  match a with
  | ASubscribe t o => snd (subscribe d t o st)
  | AUnsubscribe h => (unsubscribe h st, Normal)
  | ACancel t e => trigger d t (eval received e) st
  | AThrowIfRequested t => throwIfRequested t st
  | AThrow e => (st, Throws (eval received e))
  end.

Fixpoint exec_script (d : nat) (received : value) (s : script)
    (st : state) : result :=
  match s with
  | [] => (st, Normal)
  | a :: s' =>
      do st1 <- exec_action d received a st;
      exec_script d received s' st1
  end.

(** [constructor(fn)]: the new token, then [fn] runs with the trigger of
    the token, which is named by the token. *)
Definition new_CancelToken (d : nat) (fn : token → script) (st : state)
    : token * result :=
  let this := length (tokens st) in
  (this, exec_script d VUndefined (fn this) (allocated st)).

(** [static race(list)]: the setup subscribes the trigger, as a [next]
    function, to every token of the list. *)
Definition race (d : nat) (list : list token) (st : state) : token * result :=
  new_CancelToken d
    (λ cancel,
       (λ token, ASubscribe token
                   (mkObserver (Some [[ACancel cancel Received]]) None)) <$> list)
    st.

(** [static source()]: the pair of the token and its trigger. *)
Definition source (d : nat) (st : state) : (token * token) * result :=
  let r := new_CancelToken d (λ cancel, []) st in
  ((fst r, fst r), snd r).

End Class.

(** The runner: user code nests calls into the class at most [fuel] deep. *)
Fixpoint run (ch : channel) (fuel : nat) (d : nat) (received : value)
    (s : script) (st : state) : result :=
  match fuel with
  | 0 => (st, OutOfFuel)
  | S fuel' => exec_script ch (run ch fuel') d received s st
  end.

(** * The vocabulary of the statements *)

(** ** What a call may change *)

(** The events of a call at depth [d] come from dispatches at depth [d] or
    deeper, and a [Forwarding] handle drops nothing. *)
Definition event_ok (ch : channel) (d : nat) (ev : event) : Prop :=
  match ev with
  | Notify d' _ _ reached => d ≤ d' ∧ (ch = Forwarding → reached = true)
  | ConsoleError _ => True
  end.

(** [extends ch d st st']: [st'] can follow [st] in a call at depth [d].
    Tokens and subscriptions are never freed, a reason that is set stays as
    it is, and the trace only grows. *)
Record extends (ch : channel) (d : nat) (st st' : state) : Prop := {
  ext_tokens : length (tokens st) ≤ length (tokens st');
  ext_reason : ∀ t c, reason t st = Some c → reason t st' = Some c;
  ext_subscriptions : length (subscriptions st) ≤ length (subscriptions st');
  ext_trace : ∃ new, trace st' = trace st ++ new ∧ Forall (event_ok ch d) new
}.

(** [drained P st]: the tokens of [P] that are cancelled have an empty
    observer set. *)
Definition drained (P : token → Prop) (st : state) : Prop :=
  ∀ t, P t → is_Some (reason t st) → observers t st = [].

(** ** The calls of a pass *)

(** The events a call added to the trace. *)
Definition since (st st' : state) : list event :=
  drop (length (trace st)) (trace st').

(** The calls made by the dispatches running at depth [d]. *)
Definition pass_call (d : nat) (ev : event) : option (handle * notification) :=
  match ev with
  | Notify d' h n _ => if decide (d' = d) then Some (h, n) else None
  | ConsoleError _ => None
  end.

Definition pass_calls (d : nat) (evs : list event) : list (handle * notification) :=
  omap (pass_call d) evs.

(** What a pass over [snapshot] owes: [next] with the reason and then
    [complete], observer by observer. *)
Definition deliveries (v : value) (snapshot : list handle)
    : list (handle * notification) :=
  snapshot ≫= λ h, [(h, NNext v); (h, NComplete)].

(** ** Quiet observers *)

(** A body is quiet when it makes no call: it throws or does nothing. *)
Definition quiet_action (a : action) : bool :=
  match a with
  | AThrow _ => true
  | _ => false
  end.

Definition quiet (s : script) : bool := forallb quiet_action s.

Definition quiet_callback (cb : option callback) : bool :=
  match cb with
  | Some bodies => forallb quiet bodies
  | None => true
  end.

Definition quiet_observer (o : Observer) : bool :=
  quiet_callback (next o) && quiet_callback (complete o).

(** How a quiet body ends. *)
Definition thrown (received : value) (s : script) : completion :=
  match s with
  | AThrow e :: _ => Throws (eval received e)
  | _ => Normal
  end.

(** The body the next call of a callback runs. *)
Definition body_of (cb : option callback) : script :=
  match cb with
  | Some bodies => fst (call_of bodies)
  | None => []
  end.

(** What a [try]/[catch] of [_dispatch] prints for a call that ended so. *)
Definition report (c : completion) : list event :=
  match c with
  | Throws e => [ConsoleError e]
  | _ => []
  end.

(** The events of the delivery to a quiet observer whose handle is open. *)
Definition delivery (d : nat) (v : value) (h : handle) (o : Observer) : list event :=
  [Notify d h (NNext v) true] ++ report (thrown v (body_of (next o))) ++
  [Notify d h NComplete true] ++ report (thrown VUndefined (body_of (complete o))).

(** The subscriptions of two states agree everywhere but at [h]. *)
Definition same_but (h : handle) (st st' : state) : Prop :=
  ∀ h', h' ≠ h → subscriptions st' !! h' = subscriptions st !! h'.

(** ** What an observer receives *)

(** The notifications that reached the observer of [h], in order. *)
Definition received (h : handle) (evs : list event) : list notification :=
  omap (λ ev, match ev with
              | Notify _ h' n true => if decide (h' = h) then Some n else None
              | _ => None
              end) evs.

(** ** Well-formed observer sets *)

(** [keeps_tokens st st']: the subscriptions of [st] are still there in
    [st'], each on the token it was made on. *)
Definition keeps_tokens (st st' : state) : Prop :=
  ∀ h s, subscriptions st !! h = Some s →
         ∃ s', subscriptions st' !! h = Some s' ∧ s_token s' = s_token s.

(** [well_formed st]: an observer set holds a handle once, and only
    handles of subscriptions made on its token. *)
Definition well_formed (st : state) : Prop :=
  ∀ t, NoDup (observers t st) ∧
       ∀ h, h ∈ observers t st →
            ∃ s, subscriptions st !! h = Some s ∧ s_token s = t.

(** ** The calls on a handle *)

(** The calls made on a handle by the passes of any depth, reaching or
    dropped. *)
Definition calls_on (h : handle) (evs : list event) : list notification :=
  omap (λ ev, match ev with
              | Notify _ h' n _ => if decide (h' = h) then Some n else None
              | ConsoleError _ => None
              end) evs.

(** [absent h st]: the handle is allocated and in no observer set. *)
Definition absent (h : handle) (st : state) : Prop :=
  h < length (subscriptions st) ∧ ∀ t, h ∉ observers t st.

(** [silent h st st']: from [st] to [st'] no call was made on the handle,
    and it is in no set of [st']. *)
Definition silent (h : handle) (st st' : state) : Prop :=
  absent h st' ∧ ∃ new, trace st' = trace st ++ new ∧ calls_on h new = [].

(** ** The observers of a race *)

(** The observer that [race] subscribes to its inputs: the trigger of the
    race token, as [next]. *)
Definition race_observer (cancel : token) : Observer :=
  mkObserver (Some [[ACancel cancel Received]]) None.

(** The handles that token [t] gets when the tokens of [inputs] are
    subscribed to in order and the first handle is [n]. *)
Fixpoint handles_on (t : token) (n : handle) (inputs : list token)
    : list handle :=
  match inputs with
  | [] => []
  | t' :: rest => (if decide (t' = t) then [n] else []) ++ handles_on t (S n) rest
  end.

(** ** Observers that do not subscribe *)

Definition subscribes (a : action) : bool :=
  match a with
  | ASubscribe _ _ => true
  | _ => false
  end.

(** A body is subscribe-free when it makes no call of [subscribe]. *)
Definition subscribe_free (s : script) : bool :=
  forallb (λ a, negb (subscribes a)) s.

Definition subscribe_free_callback (cb : option callback) : bool :=
  match cb with
  | Some bodies => forallb subscribe_free bodies
  | None => true
  end.

Definition subscribe_free_observer (o : Observer) : bool :=
  subscribe_free_callback (next o) && subscribe_free_callback (complete o).

(** Every observer that was subscribed is subscribe-free. *)
Definition subscribe_free_state (st : state) : Prop :=
  Forall (λ s, subscribe_free_observer (s_observer s)) (subscriptions st).

(** The calls of a program whose observers are subscribe-free: it may
    subscribe, but the observers it subscribes do not. *)
Definition outer_action (a : action) : bool :=
  match a with
  | ASubscribe _ o => subscribe_free_observer o
  | _ => true
  end.

Definition outer (s : script) : bool := forallb outer_action s.

(** [cancelled_handle h st]: the handle is allocated and its token is
    cancelled. *)
Definition cancelled_handle (h : handle) (st : state) : Prop :=
  ∃ s, subscriptions st !! h = Some s ∧ is_Some (reason (s_token s) st).

(** [called_once st st' h]: from [st] to [st'] the handle was not called,
    or it was called with [next] and then [complete], once each at most,
    and then its token was cancelled meanwhile: the token is cancelled in
    [st'], and in [st] the handle was not allocated yet or it was in the
    set of its token, which was pending. *)
Definition called_once (st st' : state) (h : handle) : Prop :=
  calls_on h (since st st') = [] ∨
  ((∃ v, calls_on h (since st st') `prefix_of` [NNext v; NComplete]) ∧
   ∃ s, subscriptions st' !! h = Some s ∧ is_Some (reason (s_token s) st') ∧
        (length (subscriptions st) ≤ h ∨
         (h ∈ observers (s_token s) st ∧ reason (s_token s) st = None))).

(** [follows S st st']: what a call keeps when no observer subscribes.
    The handles of [S] are those the call is notifying itself. *)
Record follows (S : list handle) (st st' : state) : Prop := {
  fol_keeps : keeps_tokens st st';
  fol_reason : ∀ t c, reason t st = Some c → reason t st' = Some c;
  fol_sets : ∀ t h, h ∈ observers t st' → h < length (subscriptions st) →
                    h ∈ observers t st;
  fol_trace : trace st' = trace st ++ since st st';
  fol_calls : ∀ h, h ∉ S → called_once st st' h;
  fol_well_formed : well_formed st';
  fol_subscribe_free : subscribe_free_state st'
}.

(** The number of tokens that are pending. *)
Definition pending_tokens (st : state) : nat :=
  sum_list_with (λ tok, match _reason tok with None => 1 | Some _ => 0 end)
                (tokens st).

(** ** Scenarios *)

(** An observer whose callbacks do nothing. *)
Definition plain : Observer := mkObserver (Some []) (Some []).

(** The state in which the trigger of a pending token starts [_dispatch]:
    the reason is stored. *)
Definition fired (t : token) (msg : value) (st : state) : state :=
  match tokens st !! t with
  | Some tok => set_token t (mkToken (Some (new_Cancel msg)) (_observers tok)) st
  | None => st
  end.

(** Three tokens from [source()], numbered 0, 1 and 2, and then
    [race([A, B, C])], the token 3. *)
Definition race_of_three (ch : channel) (fuel : nat) : result :=
  do st <- snd (source ch (run ch fuel) 0 empty_state);
  do st <- snd (source ch (run ch fuel) 0 st);
  do st <- snd (source ch (run ch fuel) 0 st);
  snd (race ch (run ch fuel) 0 [0; 1; 2] st).

(** An observer whose [next], the first time it is called, subscribes
    another observer to token 0. *)
Definition resubscribing : Observer :=
  mkObserver (Some [[ASubscribe 0 plain]; []]) None.

(** [source()], [token.subscribe(resubscribing)], [cancel("x")]. *)
Definition resubscribing_run (ch : channel) : result :=
  do st <- snd (source ch (run ch 2) 0 empty_state);
  do st <- snd (subscribe ch (run ch 2) 0 0 resubscribing st);
  trigger ch (run ch 2) 0 0 (VString "x") st.

(** An observer whose [next] subscribes another observer to token 0 every
    time it is called. *)
Definition always_resubscribing : Observer :=
  mkObserver (Some [[ASubscribe 0 plain]]) None.

(** Token 0 from [source()] with that observer. *)
Definition always_resubscribing_state (ch : channel) : state :=
  fst (do st <- snd (source ch (run ch 0) 0 empty_state);
       snd (subscribe ch (run ch 0) 0 0 always_resubscribing st)).

(** [hooked st]: token 0 is cancelled and the first observer of its set is
    handle 0, open, whose [next] subscribes to token 0 at every call. *)
Definition hooked (st : state) : Prop :=
  ∃ s rest,
    observers 0 st = 0 :: rest ∧
    subscriptions st !! 0 = Some s ∧
    next (s_observer s) = Some [[ASubscribe 0 plain]] ∧
    s_closed s = false ∧
    is_Some (reason 0 st).

(** Token 0 after [source()] and [cancel("x")]. *)
Definition cancelled_x : state :=
  fst (do st <- snd (source Closing (run Closing 1) 0 empty_state);
       trigger Closing (run Closing 1) 0 0 (VString "x") st).

(** Token 0 with two observers.  The first one, when it is notified,
    subscribes a third observer and unsubscribes the second. *)
Definition meddling_state (ch : channel) : state :=
  fst (do st <- snd (source ch (run ch 2) 0 empty_state);
       do st <- snd (subscribe ch (run ch 2) 0 0
                       (mkObserver (Some [[ASubscribe 0 plain; AUnsubscribe 1]; []])
                                   (Some [])) st);
       snd (subscribe ch (run ch 2) 0 0 plain st)).

(** The scenario of the specification: [source()], a first observer,
    [cancel("shutdown")]. *)
Definition shutdown : state :=
  fst (do st <- snd (source Closing (run Closing 1) 0 empty_state);
       do st <- snd (subscribe Closing (run Closing 1) 0 0 plain st);
       trigger Closing (run Closing 1) 0 0 (VString "shutdown") st).

(** An observer that throws from both callbacks. *)
Definition throwing : Observer :=
  mkObserver (Some [[AThrow (Lit (VString "boom"))]])
             (Some [[AThrow (Lit (VString "bang"))]]).

(** Token 0 with the throwing observer and, after it, a plain one. *)
Definition throwing_state : state :=
  fst (do st <- snd (source Closing (run Closing 1) 0 empty_state);
       do st <- snd (subscribe Closing (run Closing 1) 0 0 throwing st);
       snd (subscribe Closing (run Closing 1) 0 0 plain st)).

(** Token 0 after [source()], [cancel("x")] and then
    [token[Symbol.observable]().subscribe(plain)], which makes handle 0. *)
Definition late_observable_state : state :=
  snd (Observable_subscribe 0 plain cancelled_x).

(** Token 0 with two observers.  The first one, when it is notified,
    unsubscribes the second. *)
Definition unsubscribing_state (ch : channel) : state :=
  fst (do st <- snd (source ch (run ch 2) 0 empty_state);
       do st <- snd (subscribe ch (run ch 2) 0 0
                       (mkObserver (Some [[AUnsubscribe 1]]) (Some [])) st);
       snd (subscribe ch (run ch 2) 0 0 plain st)).

(** Token 0 from [source()] with one plain observer, handle 0. *)
Definition subscribed_state : state :=
  fst (do st <- snd (source Closing (run Closing 1) 0 empty_state);
       snd (subscribe Closing (run Closing 1) 0 0 plain st)).

(** Token 0 from [source()] with a plain observer, handle 0, and then
    [race([token])], the token 1, whose observer on token 0 is handle 1. *)
Definition raced_state : state :=
  fst (do st <- snd (source Closing (run Closing 1) 0 empty_state);
       do st <- snd (subscribe Closing (run Closing 1) 0 0 plain st);
       snd (race Closing (run Closing 1) 0 [0] st)).

(** * Properties *)

(** ** What the field updates keep *)

Lemma reason_update_observers f t t' st :
  reason t' (update_observers f t st) = reason t' st.
Proof.
  unfold update_observers, reason.
  destruct (tokens st !! t) as [tok|] eqn:E; [|done].
  simpl. destruct (decide (t = t')) as [->|Hne].
  - rewrite list_lookup_insert_eq by eauto using lookup_lt_Some.
    by rewrite E.
  - by rewrite list_lookup_insert_ne.
Qed.

Lemma observers_update_observers f t t' st :
  observers t' (update_observers f t st) =
  if decide (t = t') then
    match tokens st !! t with Some _ => f (observers t st) | None => [] end
  else observers t' st.
Proof.
  unfold update_observers, observers.
  destruct (tokens st !! t) as [tok|] eqn:E.
  - simpl. destruct (decide (t = t')) as [->|Hne].
    + by rewrite list_lookup_insert_eq by eauto using lookup_lt_Some.
    + by rewrite list_lookup_insert_ne.
  - destruct (decide (t = t')) as [->|Hne]; [by rewrite E|done].
Qed.

Lemma tokens_length_update_observers f t st :
  length (tokens (update_observers f t st)) = length (tokens st).
Proof.
  unfold update_observers. destruct (tokens st !! t); [|done].
  simpl. by rewrite length_insert.
Qed.

Lemma subscriptions_update_observers f t st :
  subscriptions (update_observers f t st) = subscriptions st.
Proof. unfold update_observers. by destruct (tokens st !! t). Qed.

Lemma trace_update_observers f t st :
  trace (update_observers f t st) = trace st.
Proof. unfold update_observers. by destruct (tokens st !! t). Qed.

Lemma tokens_close h st : tokens (close h st) = tokens st.
Proof. unfold close. by destruct (subscriptions st !! h). Qed.

Lemma trace_close h st : trace (close h st) = trace st.
Proof. unfold close. by destruct (subscriptions st !! h). Qed.

Lemma subscriptions_length_close h st :
  length (subscriptions (close h st)) = length (subscriptions st).
Proof.
  unfold close. destruct (subscriptions st !! h); [|done].
  simpl. by rewrite length_insert.
Qed.

Lemma tokens_set_observer h o st : tokens (set_observer h o st) = tokens st.
Proof. unfold set_observer. by destruct (subscriptions st !! h). Qed.

Lemma trace_set_observer h o st : trace (set_observer h o st) = trace st.
Proof. unfold set_observer. by destruct (subscriptions st !! h). Qed.

Lemma subscriptions_length_set_observer h o st :
  length (subscriptions (set_observer h o st)) = length (subscriptions st).
Proof.
  unfold set_observer. destruct (subscriptions st !! h); [|done].
  simpl. by rewrite length_insert.
Qed.

Lemma reason_cleanup h t st : reason t (cleanup h st) = reason t st.
Proof.
  unfold cleanup. destruct (subscriptions st !! h); [|done].
  apply reason_update_observers.
Qed.

Lemma tokens_length_cleanup h st :
  length (tokens (cleanup h st)) = length (tokens st).
Proof.
  unfold cleanup. destruct (subscriptions st !! h); [|done].
  apply tokens_length_update_observers.
Qed.

Lemma subscriptions_cleanup h st : subscriptions (cleanup h st) = subscriptions st.
Proof.
  unfold cleanup. destruct (subscriptions st !! h); [|done].
  apply subscriptions_update_observers.
Qed.

Lemma trace_cleanup h st : trace (cleanup h st) = trace st.
Proof.
  unfold cleanup. destruct (subscriptions st !! h); [|done].
  apply trace_update_observers.
Qed.

(** ** What every call keeps *)

Lemma extends_refl ch d st : extends ch d st st.
Proof.
  split; try done. exists []. by rewrite app_nil_r.
Qed.

Lemma extends_trans ch d st1 st2 st3 :
  extends ch d st1 st2 → extends ch d st2 st3 → extends ch d st1 st3.
Proof.
  intros [T1 R1 S1 (n1 & E1 & F1)] [T2 R2 S2 (n2 & E2 & F2)].
  split; [lia|eauto|lia|].
  exists (n1 ++ n2). split.
  - by rewrite E2, E1, app_assoc.
  - by apply Forall_app.
Qed.

Lemma event_ok_S ch d ev : event_ok ch (S d) ev → event_ok ch d ev.
Proof. destruct ev; simpl; [|done]. intros [? ?]. split; [lia|done]. Qed.

Lemma extends_S ch d st st' : extends ch (S d) st st' → extends ch d st st'.
Proof.
  intros [T R S (n & E & F)]. split; try done.
  exists n. split; [done|]. eapply Forall_impl; [done|]. apply event_ok_S.
Qed.

Lemma extends_same ch d st st' :
  length (tokens st) = length (tokens st') →
  (∀ t, reason t st' = reason t st) →
  length (subscriptions st) = length (subscriptions st') →
  trace st' = trace st →
  extends ch d st st'.
Proof.
  intros T R S E. split; [lia| |lia|].
  - intros t c. by rewrite R.
  - exists []. by rewrite app_nil_r.
Qed.

Lemma extends_log ch d evs st :
  Forall (event_ok ch d) evs → extends ch d st (log evs st).
Proof. intros F. split; try done. by exists evs. Qed.

Lemma extends_HostReportErrors ch d errors st :
  extends ch d st (HostReportErrors errors st).
Proof.
  apply extends_log. unfold fmap. induction errors; by constructor.
Qed.

Lemma extends_update_observers ch d f t st :
  extends ch d st (update_observers f t st).
Proof.
  apply extends_same.
  - by rewrite tokens_length_update_observers.
  - intros. apply reason_update_observers.
  - by rewrite subscriptions_update_observers.
  - apply trace_update_observers.
Qed.

Lemma extends_close ch d h st : extends ch d st (close h st).
Proof.
  apply extends_same.
  - by rewrite tokens_close.
  - intros. unfold reason. by rewrite tokens_close.
  - by rewrite subscriptions_length_close.
  - apply trace_close.
Qed.

Lemma extends_set_observer ch d h o st : extends ch d st (set_observer h o st).
Proof.
  apply extends_same.
  - by rewrite tokens_set_observer.
  - intros. unfold reason. by rewrite tokens_set_observer.
  - by rewrite subscriptions_length_set_observer.
  - apply trace_set_observer.
Qed.

Lemma extends_cleanup ch d h st : extends ch d st (cleanup h st).
Proof.
  apply extends_same.
  - by rewrite tokens_length_cleanup.
  - intros. apply reason_cleanup.
  - by rewrite subscriptions_cleanup.
  - apply trace_cleanup.
Qed.

Lemma extends_closing ch d f st :
  (∀ st, extends ch d st (f st)) → extends ch d st (closing ch f st).
Proof. intros Hf. destruct ch; simpl; [apply extends_refl|apply Hf]. Qed.

Lemma extends_unsubscribe ch d h st : extends ch d st (unsubscribe h st).
Proof.
  unfold unsubscribe. destruct (subscriptions st !! h) as [s|]; [|apply extends_refl].
  destruct (s_closed s); [apply extends_refl|].
  eapply extends_trans; [apply extends_close|apply extends_cleanup].
Qed.

Lemma extends_Observable_subscribe ch d t o st :
  extends ch d st (snd (Observable_subscribe t o st)).
Proof.
  unfold Observable_subscribe. simpl.
  eapply extends_trans; [|apply extends_update_observers].
  split; simpl; try done.
  - rewrite length_app. lia.
  - exists []. by rewrite app_nil_r.
Qed.

(** Storing the reason of a pending token. *)
Lemma extends_set_reason ch d t tok c st :
  tokens st !! t = Some tok → _reason tok = None →
  extends ch d st (set_token t (mkToken (Some c) (_observers tok)) st).
Proof.
  intros E N. split; simpl.
  - by rewrite length_insert.
  - intros t' c'. unfold reason. simpl.
    destruct (decide (t = t')) as [->|Hne].
    + rewrite E. simpl. by rewrite N.
    + by rewrite list_lookup_insert_ne.
  - done.
  - exists []. by rewrite app_nil_r.
Qed.

Section Extends.

Variable ch : channel.
Variable run : nat → value → script → state → result.

Hypothesis run_extends :
  ∀ d v s st, extends ch d st (fst (run d v s st)).

Lemma call_next_extends d h v st :
  extends ch d st (fst (call_next ch run d h v st)).
Proof.
  unfold call_next.
  destruct (subscriptions st !! h) as [s|] eqn:E; [|apply extends_refl].
  assert (∀ b, drops ch s = b →
               extends ch d st (log [Notify d h (NNext v) (negb b)] st)) as L.
  { intros b Hb. apply extends_log. constructor; [|done]. split; [done|].
    intros ->. simpl in Hb. by subst b. }
  destruct (drops ch s) eqn:D; [by apply (L true)|].
  eapply extends_trans; [by apply (L false)|].
  destruct (next (s_observer s)) as [cb|]; [|apply extends_refl].
  eapply extends_trans; [apply extends_set_observer|].
  apply extends_S, run_extends.
Qed.

Lemma call_complete_extends d h st :
  extends ch d st (fst (call_complete ch run d h st)).
Proof.
  unfold call_complete.
  destruct (subscriptions st !! h) as [s|] eqn:E; [|apply extends_refl].
  assert (∀ b, drops ch s = b →
               extends ch d st (log [Notify d h NComplete (negb b)] st)) as L.
  { intros b Hb. apply extends_log. constructor; [|done]. split; [done|].
    intros ->. simpl in Hb. by subst b. }
  destruct (drops ch s) eqn:D; [by apply (L true)|].
  eapply extends_trans; [by apply (L false)|].
  eapply extends_trans; [apply extends_closing, extends_close|].
  destruct (complete (s_observer s)) as [cb|];
    [|apply extends_closing, extends_cleanup].
  eapply extends_trans; [apply extends_set_observer|].
  match goal with |- context [run ?a ?b ?c ?x] =>
    pose proof (run_extends a b c x) as R; destruct (run a b c x) as [st2 c2] end.
  simpl in R. apply extends_S in R.
  eapply extends_trans; [exact R|].
  destruct c2; simpl; try apply extends_closing, extends_cleanup.
  apply extends_refl.
Qed.

Lemma try_catch_extends d r st :
  extends ch d st (fst r) →
  extends ch d st (fst (try_catch r (λ e, HostReportErrors [e]))).
Proof.
  destruct r as [st' [|e|]]; simpl; try done.
  intros H. eapply extends_trans; [exact H|apply extends_HostReportErrors].
Qed.

Lemma bind_extends d r k st :
  extends ch d st (fst r) →
  (∀ st', extends ch d st' (fst (k st'))) →
  extends ch d st (fst (bind r k)).
Proof.
  destruct r as [st' [|e|]]; simpl; try done.
  intros H K. eapply extends_trans; [exact H|apply K].
Qed.

Lemma dispatch_loop_extends d t snapshot st :
  extends ch d st (fst (dispatch_loop ch run d t snapshot st)).
Proof.
  revert st. induction snapshot as [|h rest IH]; intros st; simpl.
  - apply extends_refl.
  - apply bind_extends; [apply try_catch_extends, call_next_extends|].
    intros st1. apply bind_extends; [apply try_catch_extends, call_complete_extends|].
    apply IH.
Qed.

Lemma _dispatch_extends d t st :
  extends ch d st (fst (_dispatch ch run d t st)).
Proof.
  unfold _dispatch. apply bind_extends; [apply dispatch_loop_extends|].
  intros st'. apply extends_update_observers.
Qed.

Lemma trigger_extends d t msg st :
  extends ch d st (fst (trigger ch run d t msg st)).
Proof.
  unfold trigger. destruct (tokens st !! t) as [tok|] eqn:E; [|apply extends_refl].
  destruct (_reason tok) eqn:N; [apply extends_refl|].
  eapply extends_trans; [by apply extends_set_reason|apply _dispatch_extends].
Qed.

Lemma subscribe_extends d t o st :
  extends ch d st (fst (snd (subscribe ch run d t o st))).
Proof.
  unfold subscribe. simpl.
  eapply extends_trans; [apply extends_Observable_subscribe|].
  destruct (reason t _); [apply _dispatch_extends|apply extends_refl].
Qed.

Lemma exec_action_extends d v a st :
  extends ch d st (fst (exec_action ch run d v a st)).
Proof.
  destruct a; simpl.
  - apply subscribe_extends.
  - apply extends_unsubscribe.
  - apply trigger_extends.
  - unfold throwIfRequested. destruct (reason t st); apply extends_refl.
  - apply extends_refl.
Qed.

Lemma exec_script_extends d v s st :
  extends ch d st (fst (exec_script ch run d v s st)).
Proof.
  revert st. induction s as [|a s IH]; intros st; simpl.
  - apply extends_refl.
  - apply bind_extends; [apply exec_action_extends|apply IH].
Qed.

End Extends.

Lemma run_extends ch fuel d v s st : extends ch d st (fst (run ch fuel d v s st)).
Proof.
  revert d v s st. induction fuel as [|fuel IH]; intros d v s st; simpl.
  - apply extends_refl.
  - by apply exec_script_extends.
Qed.

(** ** Dispatch catches what observers throw *)

Lemma try_catch_not_Throws r handler e : snd (try_catch r handler) ≠ Throws e.
Proof. by destruct r as [st [| |]]. Qed.

Lemma bind_not_Throws r k e :
  snd r ≠ Throws e → (∀ st, snd (k st) ≠ Throws e) → snd (bind r k) ≠ Throws e.
Proof. destruct r as [st [| |]]; simpl; auto. Qed.

Section NotThrows.

Variable ch : channel.
Variable run : nat → value → script → state → result.

Lemma dispatch_loop_not_Throws d t snapshot st e :
  snd (dispatch_loop ch run d t snapshot st) ≠ Throws e.
Proof.
  revert st. induction snapshot as [|h rest IH]; intros st; simpl; [done|].
  apply bind_not_Throws; [apply try_catch_not_Throws|]. intros st1.
  apply bind_not_Throws; [apply try_catch_not_Throws|]. intros st2. apply IH.
Qed.

Lemma _dispatch_not_Throws d t st e : snd (_dispatch ch run d t st) ≠ Throws e.
Proof.
  unfold _dispatch. apply bind_not_Throws; [apply dispatch_loop_not_Throws|done].
Qed.

Lemma trigger_not_Throws d t msg st e : snd (trigger ch run d t msg st) ≠ Throws e.
Proof.
  unfold trigger. destruct (tokens st !! t) as [tok|]; [|done].
  destruct (_reason tok); [done|]. apply _dispatch_not_Throws.
Qed.

Lemma subscribe_not_Throws d t o st e :
  snd (snd (subscribe ch run d t o st)) ≠ Throws e.
Proof.
  unfold subscribe. simpl. destruct (reason t _); [|done].
  apply _dispatch_not_Throws.
Qed.

End NotThrows.

(** ** A cancelled token keeps no observer *)

Lemma drained_tokens P st st' :
  tokens st' = tokens st → drained P st → drained P st'.
Proof.
  intros E D t Pt. unfold reason, observers. rewrite E. by apply D.
Qed.

Lemma drained_update_observers P f t st :
  f [] = [] → drained P st → drained P (update_observers f t st).
Proof.
  intros Hf D t' Pt'. rewrite reason_update_observers. intros R.
  rewrite observers_update_observers, decide_bool_decide.
  destruct (bool_decide_reflect (t = t')) as [->|Hne]; [|by apply D].
  destruct (tokens st !! t'); [|done]. by rewrite (D t').
Qed.

Lemma drained_log P evs st : drained P st → drained P (log evs st).
Proof. by apply drained_tokens. Qed.

Lemma drained_close P h st : drained P st → drained P (close h st).
Proof. apply drained_tokens, tokens_close. Qed.

Lemma drained_set_observer P h o st : drained P st → drained P (set_observer h o st).
Proof. apply drained_tokens, tokens_set_observer. Qed.

Lemma drained_cleanup P h st : drained P st → drained P (cleanup h st).
Proof.
  unfold cleanup. destruct (subscriptions st !! h); [|done].
  by apply drained_update_observers.
Qed.

Lemma drained_closing P ch f st :
  (∀ st, drained P st → drained P (f st)) →
  drained P st → drained P (closing ch f st).
Proof. intros Hf. destruct ch; simpl; auto. Qed.

Lemma drained_unsubscribe P h st : drained P st → drained P (unsubscribe h st).
Proof.
  intros D. unfold unsubscribe. destruct (subscriptions st !! h) as [s|]; [|done].
  destruct (s_closed s); [done|]. by apply drained_cleanup, drained_close.
Qed.

(** Clearing the set of [t] drains it. *)
Lemma drained_clear (P : token → Prop) t st :
  drained (λ x, P x ∧ x ≠ t) st → drained P (update_observers (λ _, []) t st).
Proof.
  intros D t' Pt'. rewrite reason_update_observers. intros R.
  rewrite observers_update_observers, decide_bool_decide.
  destruct (bool_decide_reflect (t = t')) as [->|Hne].
  - by destruct (tokens st !! t').
  - apply D; [split|]; done.
Qed.

Lemma drained_set_reason (P : token → Prop) t tok c st :
  tokens st !! t = Some tok →
  drained P st →
  drained (λ x, P x ∧ x ≠ t) (set_token t (mkToken (Some c) (_observers tok)) st).
Proof.
  intros E D t' [Pt' Hne]. unfold reason, observers. simpl.
  rewrite list_lookup_insert_ne by done. by apply D.
Qed.

Lemma reason_Observable_subscribe t t' o st :
  reason t' (snd (Observable_subscribe t o st)) = reason t' st.
Proof. unfold Observable_subscribe. simpl. by rewrite reason_update_observers. Qed.

Lemma observers_Observable_subscribe t t' o st :
  observers t' (snd (Observable_subscribe t o st)) =
  if decide (t = t') then
    match tokens st !! t with
    | Some _ => Set_add (length (subscriptions st)) (observers t st)
    | None => []
    end
  else observers t' st.
Proof.
  unfold Observable_subscribe. simpl. by rewrite observers_update_observers.
Qed.

Lemma drained_Observable_subscribe (P : token → Prop) t o st :
  drained P st →
  drained (λ x, P x ∧ x ≠ t) (snd (Observable_subscribe t o st)).
Proof.
  intros D t' [Pt' Hne]. rewrite reason_Observable_subscribe.
  rewrite observers_Observable_subscribe, decide_bool_decide.
  destruct (bool_decide_reflect (t = t')); [done|]. by apply D.
Qed.

Lemma bind_drained P r k :
  (snd r ≠ OutOfFuel → drained P (fst r)) →
  (∀ st, drained P st → snd (k st) ≠ OutOfFuel → drained P (fst (k st))) →
  snd (bind r k) ≠ OutOfFuel → drained P (fst (bind r k)).
Proof. destruct r as [st [|e|]]; simpl; auto. Qed.

Lemma try_catch_drained P r :
  (snd r ≠ OutOfFuel → drained P (fst r)) →
  snd (try_catch r (λ e, HostReportErrors [e])) ≠ OutOfFuel →
  drained P (fst (try_catch r (λ e, HostReportErrors [e]))).
Proof.
  destruct r as [st [|e|]]; simpl; auto;
    intros D _; by apply drained_log, D.
Qed.

Section Drained.

Variable ch : channel.
Variable run : nat → value → script → state → result.

Hypothesis run_drained :
  ∀ P d v s st,
    drained P st → snd (run d v s st) ≠ OutOfFuel → drained P (fst (run d v s st)).

Lemma call_next_drained P d h v st :
  drained P st →
  snd (call_next ch run d h v st) ≠ OutOfFuel →
  drained P (fst (call_next ch run d h v st)).
Proof.
  intros D. unfold call_next.
  destruct (subscriptions st !! h) as [s|]; [|done].
  destruct (drops ch s); [intros _; by apply drained_log|].
  destruct (next (s_observer s)) as [cb|]; [|intros _; by apply drained_log].
  by apply run_drained, drained_set_observer, drained_log.
Qed.

Lemma call_complete_drained P d h st :
  drained P st →
  snd (call_complete ch run d h st) ≠ OutOfFuel →
  drained P (fst (call_complete ch run d h st)).
Proof.
  intros D. unfold call_complete.
  destruct (subscriptions st !! h) as [s|]; [|done].
  destruct (drops ch s); [intros _; by apply drained_log|].
  assert (drained P (closing ch (close h) (log [Notify d h NComplete true] st)))
    as D1.
  { apply drained_closing; [intros ?; apply drained_close|by apply drained_log]. }
  destruct (complete (s_observer s)) as [cb|].
  - match goal with |- context [run ?a ?b ?c ?x] =>
      pose proof (run_drained P a b c x) as R; destruct (run a b c x) as [st2 c2] end.
    simpl in R. destruct c2; simpl; intros N; try done;
      (apply drained_closing; [intros ?; apply drained_cleanup|]);
      apply R; try done; by apply drained_set_observer.
  - intros _. apply drained_closing; [intros ?; apply drained_cleanup|done].
Qed.

Lemma dispatch_loop_drained P d t snapshot st :
  drained P st →
  snd (dispatch_loop ch run d t snapshot st) ≠ OutOfFuel →
  drained P (fst (dispatch_loop ch run d t snapshot st)).
Proof.
  revert st. induction snapshot as [|h rest IH]; intros st D; simpl; [done|].
  apply bind_drained.
  { apply try_catch_drained. by apply call_next_drained. }
  intros st1 D1. apply bind_drained.
  { apply try_catch_drained. by apply call_complete_drained. }
  intros st2 D2. by apply IH.
Qed.

Lemma _dispatch_drained (P : token → Prop) d t st :
  drained (λ x, P x ∧ x ≠ t) st →
  snd (_dispatch ch run d t st) ≠ OutOfFuel →
  drained P (fst (_dispatch ch run d t st)).
Proof.
  intros D. unfold _dispatch.
  pose proof (dispatch_loop_drained _ d t (observers t st) st D) as L.
  pose proof (dispatch_loop_not_Throws ch run d t (observers t st) st) as T.
  destruct (dispatch_loop ch run d t (observers t st) st) as [st1 [|e|]];
    simpl in *; try done.
  - intros _. by apply drained_clear, L.
  - by destruct (T e).
Qed.

Lemma trigger_drained P d t msg st :
  drained P st →
  snd (trigger ch run d t msg st) ≠ OutOfFuel →
  drained P (fst (trigger ch run d t msg st)).
Proof.
  intros D. unfold trigger.
  destruct (tokens st !! t) as [tok|] eqn:E; [|done].
  destruct (_reason tok); [done|].
  by apply _dispatch_drained, drained_set_reason.
Qed.

Lemma subscribe_drained P d t o st :
  drained P st →
  snd (snd (subscribe ch run d t o st)) ≠ OutOfFuel →
  drained P (fst (snd (subscribe ch run d t o st))).
Proof.
  intros D. unfold subscribe. cbn [fst snd].
  pose proof (drained_Observable_subscribe P t o st D) as D1.
  set (st1 := snd (Observable_subscribe t o st)) in *.
  destruct (reason t st1) eqn:R.
  - by apply _dispatch_drained.
  - intros _ t' Pt'. cbn [fst snd]. destruct (decide (t = t')) as [<-|Hne].
    + rewrite R. by intros [? ?].
    + intros R'. by apply D1.
Qed.

Lemma exec_action_drained P d v a st :
  drained P st →
  snd (exec_action ch run d v a st) ≠ OutOfFuel →
  drained P (fst (exec_action ch run d v a st)).
Proof.
  intros D. destruct a; simpl.
  - by apply subscribe_drained.
  - intros _. by apply drained_unsubscribe.
  - by apply trigger_drained.
  - unfold throwIfRequested. by destruct (reason t st).
  - done.
Qed.

Lemma exec_script_drained P d v s st :
  drained P st →
  snd (exec_script ch run d v s st) ≠ OutOfFuel →
  drained P (fst (exec_script ch run d v s st)).
Proof.
  revert st. induction s as [|a s IH]; intros st D; simpl; [done|].
  apply bind_drained; [by apply exec_action_drained|].
  intros st1 D1. by apply IH.
Qed.

End Drained.

Lemma run_drained ch fuel P d v s st :
  drained P st →
  snd (run ch fuel d v s st) ≠ OutOfFuel →
  drained P (fst (run ch fuel d v s st)).
Proof.
  revert P d v s st. induction fuel as [|fuel IH]; intros P d v s st D; simpl.
  - done.
  - by apply exec_script_drained.
Qed.

(** ** The calls of one dispatch pass *)

Lemma since_new st st' new : trace st' = trace st ++ new → since st st' = new.
Proof. intros E. unfold since. by rewrite E, drop_app_length. Qed.

Lemma extends_since ch d st st' :
  extends ch d st st' →
  trace st' = trace st ++ since st st' ∧ Forall (event_ok ch d) (since st st').
Proof.
  intros [_ _ _ (new & E & F)]. by rewrite (since_new _ _ _ E).
Qed.

Lemma since_refl st : since st st = [].
Proof. apply since_new. by rewrite app_nil_r. Qed.

Lemma since_trans ch d st1 st2 st3 :
  extends ch d st1 st2 → extends ch d st2 st3 →
  since st1 st3 = since st1 st2 ++ since st2 st3.
Proof.
  intros [E1 _]%extends_since [E2 _]%extends_since.
  apply since_new. by rewrite E2, E1 at 1; rewrite app_assoc.
Qed.

Lemma since_log st evs : since st (log evs st) = evs.
Proof. by apply since_new. Qed.

Lemma pass_calls_app d evs1 evs2 :
  pass_calls d (evs1 ++ evs2) = pass_calls d evs1 ++ pass_calls d evs2.
Proof. apply omap_app. Qed.

Lemma pass_calls_deeper ch d evs :
  Forall (event_ok ch (S d)) evs → pass_calls d evs = [].
Proof.
  induction 1 as [|ev evs Hev _ IH]; [done|].
  change (ev :: evs) with ([ev] ++ evs).
  rewrite pass_calls_app, IH, app_nil_r.
  destruct ev as [d' h n b|e]; unfold pass_calls; simpl in *; [|done].
  destruct Hev as [Hd _]. case_decide; [lia|done].
Qed.

Lemma pass_calls_Notify d h n b : pass_calls d [Notify d h n b] = [(h, n)].
Proof. unfold pass_calls. simpl. by rewrite decide_True. Qed.

Section Calls.

Variable ch : channel.
Variable run : nat → value → script → state → result.

Hypothesis run_extends :
  ∀ d v s st, extends ch d st (fst (run d v s st)).

Lemma call_next_calls d h v st :
  h < length (subscriptions st) →
  pass_calls d (since st (fst (call_next ch run d h v st))) = [(h, NNext v)].
Proof.
  intros [s E]%lookup_lt_is_Some. unfold call_next. rewrite E.
  destruct (drops ch s).
  { simpl. by rewrite since_log, pass_calls_Notify. }
  destruct (next (s_observer s)) as [cb|].
  2:{ simpl. by rewrite since_log, pass_calls_Notify. }
  match goal with |- context [run ?a ?b ?c ?x] =>
    pose proof (run_extends a b c x) as R; destruct (run a b c x) as [st2 c2] end.
  simpl in *. apply extends_since in R as [R F].
  rewrite trace_set_observer in R. simpl in R.
  rewrite (since_new st st2 ([Notify d h (NNext v) true] ++ since _ st2))
    by (by rewrite R at 1; rewrite <-app_assoc).
  by rewrite pass_calls_app, pass_calls_Notify, (pass_calls_deeper ch).
Qed.

Lemma call_complete_calls d h st :
  h < length (subscriptions st) →
  pass_calls d (since st (fst (call_complete ch run d h st))) = [(h, NComplete)].
Proof.
  intros [s E]%lookup_lt_is_Some. unfold call_complete. rewrite E.
  destruct (drops ch s).
  { simpl. by rewrite since_log, pass_calls_Notify. }
  assert (∀ st', trace (closing ch (cleanup h) st') = trace st') as Tc.
  { intros st'. destruct ch; simpl; [done|apply trace_cleanup]. }
  assert (trace (closing ch (close h) (log [Notify d h NComplete true] st)) =
          trace st ++ [Notify d h NComplete true]) as Tl.
  { destruct ch; simpl; [done|by rewrite trace_close]. }
  destruct (complete (s_observer s)) as [cb|].
  2:{ simpl. rewrite (since_new st _ [Notify d h NComplete true])
        by (by rewrite Tc, Tl).
      apply pass_calls_Notify. }
  match goal with |- context [run ?a ?b ?c ?x] =>
    pose proof (run_extends a b c x) as R; destruct (run a b c x) as [st2 c2] end.
  simpl in R. apply extends_since in R as [R F].
  rewrite trace_set_observer, Tl in R.
  assert (pass_calls d (since st st2) = [(h, NComplete)]) as Hc.
  { rewrite (since_new st st2 ([Notify d h NComplete true] ++ since _ st2))
      by (by rewrite R at 1; rewrite <-app_assoc).
    by rewrite pass_calls_app, pass_calls_Notify, (pass_calls_deeper ch). }
  assert (since st (closing ch (cleanup h) st2) = since st st2) as Hs.
  { unfold since. by rewrite Tc. }
  destruct c2; simpl; by rewrite ?Hs.
Qed.

Lemma try_catch_calls d r st :
  extends ch d st (fst r) →
  pass_calls d (since st (fst (try_catch r (λ e, HostReportErrors [e])))) =
  pass_calls d (since st (fst r)).
Proof.
  destruct r as [st' [|e|]]; simpl; try done.
  intros [E _]%extends_since.
  rewrite (since_new st _ (since st st' ++ [ConsoleError e]))
    by (simpl; rewrite E at 1; by rewrite <-app_assoc).
  by rewrite pass_calls_app, app_nil_r.
Qed.

(** A pass calls the observers of its snapshot in order, [next] with the
    reason and then [complete], whatever the callbacks do; it stops early
    only when a callback does not return. *)
Lemma dispatch_loop_calls d t c snapshot st :
  Forall (λ h, h < length (subscriptions st)) snapshot →
  reason t st = Some c →
  let r := dispatch_loop ch run d t snapshot st in
  pass_calls d (since st (fst r)) `prefix_of` deliveries (VCancel c) snapshot ∧
  (snd r = Normal →
   pass_calls d (since st (fst r)) = deliveries (VCancel c) snapshot).
Proof.
  revert st. induction snapshot as [|h rest IH]; intros st W R; simpl.
  { by rewrite since_refl. }
  apply Forall_cons in W as [Wh W].
  unfold reason_value. rewrite R.
  pose proof (call_next_extends ch run run_extends d h (VCancel c) st) as X1.
  pose proof (try_catch_extends ch d _ st X1) as Y1.
  pose proof (try_catch_calls d _ st X1) as C1.
  rewrite (call_next_calls d h (VCancel c) st Wh) in C1.
  destruct (try_catch (call_next ch run d h (VCancel c) st) _) as [st1 c1].
  simpl in Y1, C1.
  destruct c1; simpl; rewrite ?C1;
    try (split; [by apply prefix_cons, prefix_nil|done]).
  assert (h < length (subscriptions st1)) as Wh1.
  { pose proof (ext_subscriptions _ _ _ _ Y1). lia. }
  pose proof (call_complete_extends ch run run_extends d h st1) as X2.
  pose proof (try_catch_extends ch d _ st1 X2) as Y2.
  pose proof (try_catch_calls d _ st1 X2) as C2.
  rewrite (call_complete_calls d h st1 Wh1) in C2.
  destruct (try_catch (call_complete ch run d h st1) _) as [st2 c2].
  simpl in Y2, C2.
  destruct c2; simpl; rewrite ?(since_trans ch d st st1 st2 Y1 Y2),
    ?pass_calls_app, ?C1, ?C2;
    try (split; [by apply prefix_cons, prefix_cons, prefix_nil|done]).
  destruct (IH st2) as [P E].
  { eapply Forall_impl; [exact W|]. simpl. intros x Hx.
    pose proof (ext_subscriptions _ _ _ _ Y1).
    pose proof (ext_subscriptions _ _ _ _ Y2). lia. }
  { eapply ext_reason; [exact Y2|]. eapply ext_reason; [exact Y1|done]. }
  pose proof (dispatch_loop_extends ch run run_extends d t rest st2) as X3.
  rewrite (since_trans ch d st st2 _ (extends_trans _ _ _ _ _ Y1 Y2) X3).
  rewrite (since_trans ch d st st1 st2 Y1 Y2).
  rewrite !pass_calls_app, C1, C2. simpl. split.
  - by apply prefix_cons, prefix_cons.
  - intros N. by rewrite E.
Qed.

End Calls.

(** ** Observers that call into no token *)

Lemma exec_script_quiet ch run d v s st :
  quiet s → exec_script ch run d v s st = (st, thrown v s).
Proof.
  destruct s as [|a s]; [done|]. simpl.
  intros [Ha _]%andb_prop_elim. by destruct a.
Qed.

Lemma run_quiet ch fuel d v s st :
  quiet s → run ch (S fuel) d v s st = (st, thrown v s).
Proof. apply exec_script_quiet. Qed.

Lemma call_of_quiet cb :
  forallb quiet cb → quiet (fst (call_of cb)) ∧ forallb quiet (snd (call_of cb)).
Proof.
  destruct cb as [|s [|s' cb]]; simpl; [done| |].
  - intros [? _]%andb_prop_elim. split; [done|]. by apply andb_prop_intro.
  - intros [? ?]%andb_prop_elim. done.
Qed.

Lemma body_of_quiet cb : quiet_callback cb → quiet (body_of cb).
Proof. destruct cb as [cb|]; [|done]. simpl. by intros [? _]%call_of_quiet. Qed.

Lemma same_but_set_subscription h s st : same_but h st (set_subscription h s st).
Proof. intros h' Hne. simpl. by rewrite list_lookup_insert_ne. Qed.

Lemma same_but_trans h st1 st2 st3 :
  same_but h st1 st2 → same_but h st2 st3 → same_but h st1 st3.
Proof. intros H1 H2 h' Hne. by rewrite H2, H1. Qed.

Lemma same_but_subscriptions h st st' :
  subscriptions st' = subscriptions st → same_but h st st'.
Proof. intros E h' _. by rewrite E. Qed.

Lemma same_but_close h st : same_but h st (close h st).
Proof.
  unfold close. destruct (subscriptions st !! h); [|done].
  apply same_but_set_subscription.
Qed.

Lemma same_but_set_observer h o st : same_but h st (set_observer h o st).
Proof.
  unfold set_observer. destruct (subscriptions st !! h); [|done].
  apply same_but_set_subscription.
Qed.

Section Quiet.

Variable ch : channel.
Variable fuel : nat.

(** The delivery to one open handle with a quiet observer: what the two
    guarded calls of the loop do. *)
Lemma deliver_quiet d h v s st :
  subscriptions st !! h = Some s →
  drops ch s = false →
  quiet_observer (s_observer s) →
  ∃ st2,
    (do st1 <- try_catch (call_next ch (run ch (S fuel)) d h v st)
                         (λ e, HostReportErrors [e]);
     try_catch (call_complete ch (run ch (S fuel)) d h st1)
               (λ e, HostReportErrors [e])) = (st2, Normal) ∧
    trace st2 = trace st ++ delivery d v h (s_observer s) ∧
    same_but h st st2 ∧
    (∀ t, reason t st2 = reason t st) ∧
    length (subscriptions st2) = length (subscriptions st).
Proof.
  intros E D [Qn Qc]%andb_prop_elim.
  assert (h < length (subscriptions st)) as Hlt by eauto using lookup_lt_Some.
  (* the call of [next] *)
  set (st1 := match next (s_observer s) with
              | Some cb =>
                  set_observer h
                    (mkObserver (Some (snd (call_of cb))) (complete (s_observer s)))
                    (log [Notify d h (NNext v) true] st)
              | None => log [Notify d h (NNext v) true] st
              end).
  assert (call_next ch (run ch (S fuel)) d h v st
          = (st1, thrown v (body_of (next (s_observer s))))) as C1.
  { unfold call_next, st1. rewrite E, D.
    destruct (next (s_observer s)) as [cb|]; [|done].
    apply run_quiet. by apply (body_of_quiet (Some cb)). }
  assert (tokens st1 = tokens st) as T1.
  { unfold st1. destruct (next (s_observer s)); [|done].
    by rewrite tokens_set_observer. }
  assert (trace st1 = trace st ++ [Notify d h (NNext v) true]) as L1.
  { unfold st1. destruct (next (s_observer s)); [|done].
    by rewrite trace_set_observer. }
  assert (same_but h st st1) as S1.
  { unfold st1. destruct (next (s_observer s)); [|done].
    eapply same_but_trans; [|apply same_but_set_observer]. done. }
  assert (∃ s1, subscriptions st1 !! h = Some s1 ∧ s_closed s1 = s_closed s ∧
                s_token s1 = s_token s ∧
                complete (s_observer s1) = complete (s_observer s)) as (s1 & E1 & K1 & O1 & M1).
  { unfold st1. destruct (next (s_observer s)) as [cb|]; [|by exists s].
    unfold set_observer. simpl. rewrite E. simpl.
    rewrite list_lookup_insert_eq by done. by eexists. }
  assert (length (subscriptions st1) = length (subscriptions st)) as N1.
  { unfold st1. destruct (next (s_observer s)); [|done].
    by rewrite subscriptions_length_set_observer. }
  rewrite C1.
  set (st1' := fst (try_catch (st1, thrown v (body_of (next (s_observer s))))
                              (λ e, HostReportErrors [e]))).
  assert (try_catch (st1, thrown v (body_of (next (s_observer s))))
                    (λ e, HostReportErrors [e]) = (st1', Normal)) as ->.
  { unfold st1'. destruct (body_of (next (s_observer s))) as [|[] ?]; done. }
  assert (tokens st1' = tokens st1 ∧ subscriptions st1' = subscriptions st1 ∧
          trace st1' = trace st1 ++ report (thrown v (body_of (next (s_observer s)))))
    as (T1' & U1' & L1').
  { unfold st1'. destruct (body_of (next (s_observer s))) as [|[] ?]; simpl;
      by rewrite ?app_nil_r. }
  unfold bind. cbn beta iota.
  (* the call of [complete] *)
  assert (drops ch s1 = false) as D1.
  { destruct ch; [done|]. simpl in *. by rewrite K1. }
  set (sta := closing ch (close h) (log [Notify d h NComplete true] st1')).
  set (stb := match complete (s_observer s1) with
              | Some cb =>
                  set_observer h
                    (mkObserver (next (s_observer s1)) (Some (snd (call_of cb)))) sta
              | None => sta
              end).
  assert (call_complete ch (run ch (S fuel)) d h st1'
          = (closing ch (cleanup h) stb,
             thrown VUndefined (body_of (complete (s_observer s))))) as C2.
  { unfold call_complete, stb, sta. rewrite U1', E1, D1, <-M1.
    revert Qc. rewrite <-M1.
    destruct (complete (s_observer s1)) as [cb|]; [|done]. intros Qc.
    rewrite run_quiet by (by apply (body_of_quiet (Some cb))).
    simpl. by destruct (call_of cb).1 as [|[] ?]. }
  assert (trace sta = trace st1' ++ [Notify d h NComplete true]) as La.
  { unfold sta. destruct ch; simpl; [done|by rewrite trace_close]. }
  assert (∀ t, reason t sta = reason t st) as Ra.
  { intros t. unfold reason, sta. destruct ch; simpl;
      by rewrite ?tokens_close; simpl; rewrite T1', T1. }
  assert (same_but h st1 sta) as Sa.
  { unfold sta. destruct ch; simpl.
    - by apply same_but_subscriptions.
    - eapply same_but_trans; [|apply same_but_close]. by apply same_but_subscriptions. }
  assert (length (subscriptions sta) = length (subscriptions st)) as Na.
  { unfold sta. destruct ch; simpl; rewrite ?subscriptions_length_close; simpl;
      by rewrite U1'. }
  assert (trace stb = trace sta ∧ (∀ t, reason t stb = reason t sta) ∧
          same_but h sta stb ∧
          length (subscriptions stb) = length (subscriptions sta)) as (Lb & Rb & Sb & Nb).
  { unfold stb. destruct (complete (s_observer s1)); [|done].
    rewrite trace_set_observer, subscriptions_length_set_observer.
    split_and!; try done.
    - intros t. unfold reason. by rewrite tokens_set_observer.
    - apply same_but_set_observer. }
  rewrite C2.
  set (stc := closing ch (cleanup h) stb).
  assert (trace stc = trace stb ∧ (∀ t, reason t stc = reason t stb) ∧
          subscriptions stc = subscriptions stb) as (Lc & Rc & Uc).
  { unfold stc. destruct ch; simpl; [done|].
    rewrite trace_cleanup, subscriptions_cleanup. split_and!; try done.
    intros t. apply reason_cleanup. }
  set (st2 := fst (try_catch (stc, thrown VUndefined (body_of (complete (s_observer s))))
                             (λ e, HostReportErrors [e]))).
  assert (try_catch (stc, thrown VUndefined (body_of (complete (s_observer s))))
                    (λ e, HostReportErrors [e]) = (st2, Normal)) as ->.
  { unfold st2. destruct (body_of (complete (s_observer s))) as [|[] ?]; done. }
  assert (tokens st2 = tokens stc ∧ subscriptions st2 = subscriptions stc ∧
          trace st2 = trace stc ++
                      report (thrown VUndefined (body_of (complete (s_observer s)))))
    as (T2 & U2 & L2).
  { unfold st2. destruct (body_of (complete (s_observer s))) as [|[] ?]; simpl;
      by rewrite ?app_nil_r. }
  exists st2. split_and!; [done| | | |].
  - unfold delivery. rewrite L2, Lc, Lb, La, L1', L1. by rewrite <-!app_assoc.
  - eapply same_but_trans; [exact S1|]. eapply same_but_trans; [exact Sa|].
    eapply same_but_trans; [exact Sb|]. apply same_but_subscriptions.
    by rewrite U2, Uc.
  - intros t. unfold reason at 1. rewrite T2. fold (reason t stc).
    by rewrite Rc, Rb, Ra.
  - by rewrite U2, Uc, Nb, Na.
Qed.

(** A pass over open handles with quiet observers returns, and its trace
    is the deliveries to its snapshot, in order. *)
Lemma dispatch_loop_quiet d t snapshot st :
  NoDup snapshot →
  (∀ h, h ∈ snapshot →
        ∃ s, subscriptions st !! h = Some s ∧ drops ch s = false ∧
             quiet_observer (s_observer s)) →
  ∃ st',
    dispatch_loop ch (run ch (S fuel)) d t snapshot st = (st', Normal) ∧
    trace st' = trace st ++
      (snapshot ≫= λ h,
         match subscriptions st !! h with
         | Some s => delivery d (reason_value t st) h (s_observer s)
         | None => []
         end) ∧
    (∀ t', reason t' st' = reason t' st) ∧
    length (subscriptions st') = length (subscriptions st).
Proof.
  revert st. induction snapshot as [|h rest IH]; intros st ND Q.
  { exists st. simpl. by rewrite app_nil_r. }
  apply NoDup_cons in ND as [Hh ND].
  destruct (Q h) as (s & E & D & Qs); [by left|].
  destruct (deliver_quiet d h (reason_value t st) s st E D Qs)
    as (st2 & B & L2 & S2 & R2 & N2).
  destruct (IH st2 ND) as (st' & B' & L' & R' & N').
  { intros h' Hh'. assert (h' ≠ h) as Hne by (by intros ->).
    rewrite (S2 h' Hne). apply Q. by right. }
  exists st'. split_and!.
  - cbn [dispatch_loop]. revert B.
    destruct (try_catch (call_next ch (run ch (S fuel)) d h (reason_value t st) st) _)
      as [st1 [|e|]]; unfold bind; cbn beta iota; try done.
    by intros ->.
  - rewrite L', L2. simpl. rewrite E, <-app_assoc. do 2 f_equal.
    unfold reason_value. rewrite (R2 t).
    apply Forall_bind_ext, Forall_forall. intros h' Hh'.
    assert (h' ≠ h) as Hne by (by intros ->). by rewrite (S2 h' Hne).
  - intros t'. by rewrite R', R2.
  - by rewrite N', N2.
Qed.

End Quiet.

(** * Lemmas on the calls of the class *)

(** ** Pending and cancelled tokens *)

Lemma pending_token t st :
  is_Some (tokens st !! t) → reason t st = None →
  ∃ tok, tokens st !! t = Some tok ∧ _reason tok = None.
Proof.
  intros [tok E]. unfold reason. rewrite E. simpl. intros N. by exists tok.
Qed.

Lemma cancelled_token t c st :
  reason t st = Some c → ∃ tok, tokens st !! t = Some tok ∧ _reason tok = Some c.
Proof.
  unfold reason. destruct (tokens st !! t) as [tok|]; [|done]. simpl. by exists tok.
Qed.

Lemma trigger_pending ch run d t msg st :
  is_Some (tokens st !! t) → reason t st = None →
  trigger ch run d t msg st = _dispatch ch run d t (fired t msg st).
Proof.
  intros I N. destruct (pending_token t st I N) as (tok & E & R).
  unfold trigger, fired. by rewrite E, R.
Qed.

Lemma trigger_cancelled ch run d t msg c st :
  reason t st = Some c → trigger ch run d t msg st = (st, Normal).
Proof.
  intros (tok & E & R)%cancelled_token. unfold trigger. by rewrite E, R.
Qed.

Lemma reason_fired t msg st :
  is_Some (tokens st !! t) → reason t (fired t msg st) = Some (new_Cancel msg).
Proof.
  intros [tok E]. unfold fired, reason. rewrite E. simpl.
  by rewrite list_lookup_insert_eq by eauto using lookup_lt_Some.
Qed.

Lemma observers_fired t msg st : observers t (fired t msg st) = observers t st.
Proof.
  unfold fired, observers. destruct (tokens st !! t) as [tok|] eqn:E.
  - simpl. by rewrite list_lookup_insert_eq by eauto using lookup_lt_Some.
  - by rewrite E.
Qed.

Lemma subscriptions_fired t msg st :
  subscriptions (fired t msg st) = subscriptions st.
Proof. unfold fired. by destruct (tokens st !! t). Qed.

Lemma trace_fired t msg st : trace (fired t msg st) = trace st.
Proof. unfold fired. by destruct (tokens st !! t). Qed.


Lemma drained_allocated P st : drained P st → drained P (allocated st).
Proof.
  intros D t Pt. unfold reason, observers, allocated. simpl.
  destruct (decide (t < length (tokens st))) as [Hlt|Hge].
  - rewrite lookup_app_l by done. by apply D.
  - destruct (decide (t = length (tokens st))) as [->|Hne].
    + by rewrite list_lookup_middle.
    + rewrite lookup_ge_None_2; [done|]. rewrite length_app. simpl. lia.
Qed.

Lemma reason_allocated st : reason (length (tokens st)) (allocated st) = None.
Proof.
  unfold reason, allocated. simpl. by rewrite list_lookup_middle.
Qed.

Lemma allocated_token st : is_Some (tokens (allocated st) !! length (tokens st)).
Proof. unfold allocated. simpl. rewrite list_lookup_middle by done. by eexists. Qed.

Lemma fired_allocated msg st :
  fired (length (tokens st)) msg (allocated st)
  = mkState (tokens st ++ [mkToken (Some (new_Cancel msg)) []])
            (subscriptions st) (trace st).
Proof.
  unfold fired, allocated, set_token. simpl.
  rewrite list_lookup_middle by done. simpl. f_equal.
  rewrite insert_app_r_alt by done. by rewrite Nat.sub_diag.
Qed.

(** A dispatch over an empty observer set changes nothing. *)
Lemma _dispatch_no_observer ch run d t st :
  observers t st = [] → _dispatch ch run d t st = (st, Normal).
Proof.
  intros O. unfold _dispatch. rewrite O. simpl. f_equal.
  unfold update_observers, observers in *.
  destruct (tokens st !! t) as [tok|] eqn:E; [|done].
  destruct st as [ts ss tr]. unfold set_token. simpl in *. f_equal.
  apply list_insert_id. rewrite E. f_equal. destruct tok. simpl in *. by subst.
Qed.

(** The reason of a pending token after its trigger was called, however
    the call ends. *)
Lemma reason_trigger ch fuel d t msg st :
  is_Some (tokens st !! t) → reason t st = None →
  reason t (fst (trigger ch (run ch fuel) d t msg st)) = Some (new_Cancel msg).
Proof.
  intros I N. rewrite trigger_pending by done.
  eapply ext_reason; [|by apply reason_fired].
  apply _dispatch_extends. intros. apply run_extends.
Qed.

Lemma reason_unsubscribe h t st : reason t (unsubscribe h st) = reason t st.
Proof.
  unfold unsubscribe. destruct (subscriptions st !! h) as [s|]; [|done].
  destruct (s_closed s); [done|].
  rewrite reason_cleanup. unfold reason. by rewrite tokens_close.
Qed.

Lemma exec_script_reason ch fuel d v s t c st :
  reason t st = Some c →
  reason t (fst (exec_script ch (run ch fuel) d v s st)) = Some c.
Proof.
  intros R. eapply ext_reason; [|exact R].
  apply (exec_script_extends ch _ (run_extends ch fuel)).
Qed.

(** Registration puts the new handle last in the set. *)
Lemma observers_registered t o st :
  is_Some (tokens st !! t) →
  Forall (λ h, h < length (subscriptions st)) (observers t st) →
  observers t (snd (Observable_subscribe t o st))
  = observers t st ++ [length (subscriptions st)].
Proof.
  intros [tok E] W. rewrite observers_Observable_subscribe, decide_True by done.
  rewrite E. unfold Set_add. rewrite decide_False; [done|].
  intros Hin. rewrite Forall_forall in W. specialize (W _ Hin). lia.
Qed.

(** ** The first event of a replay *)

Lemma since_same_trace st1 st2 st' :
  trace st1 = trace st2 → since st1 st' = since st2 st'.
Proof. unfold since. by intros ->. Qed.

Lemma since_head ch d st st1 st2 ev rest :
  extends ch d st st1 → extends ch d st1 st2 →
  since st st1 = ev :: rest → ∃ rest', since st st2 = ev :: rest'.
Proof.
  intros X1 X2 E. rewrite (since_trans ch d st st1 st2 X1 X2), E. by eexists.
Qed.

Lemma call_next_head ch fuel d h v s st :
  subscriptions st !! h = Some s → drops ch s = false →
  ∃ rest, since st (fst (call_next ch (run ch fuel) d h v st))
          = Notify d h (NNext v) true :: rest.
Proof.
  intros E D. unfold call_next. rewrite E, D.
  destruct (next (s_observer s)) as [cb|].
  2:{ exists []. simpl. by rewrite since_log. }
  match goal with |- context [run ?a ?b ?c ?e ?f ?g] =>
    pose proof (run_extends a b c e f g) as R; destruct (run a b c e f g) as [st2 c2] end.
  simpl in *. apply extends_since in R as [R _].
  rewrite trace_set_observer in R. simpl in R.
  exists (since (set_observer h
                   (mkObserver (Some (snd (call_of cb))) (complete (s_observer s)))
                   (log [Notify d h (NNext v) true] st)) st2).
  apply since_new. by rewrite R at 1; rewrite <-app_assoc.
Qed.

Lemma head_bind ch d st r k ev :
  extends ch d st (fst r) →
  (∃ rest, since st (fst r) = ev :: rest) →
  (∀ st', extends ch d st' (fst (k st'))) →
  ∃ rest, since st (fst (bind r k)) = ev :: rest.
Proof.
  destruct r as [st1 [|e|]]; simpl; intros X [rest E] K; eauto.
  eapply since_head; [exact X|apply K|exact E].
Qed.

Lemma head_try_catch ch d st r ev :
  extends ch d st (fst r) →
  (∃ rest, since st (fst r) = ev :: rest) →
  ∃ rest, since st (fst (try_catch r (λ e, HostReportErrors [e]))) = ev :: rest.
Proof.
  destruct r as [st1 [|e|]]; simpl; intros X [rest E]; eauto.
  eapply since_head; [exact X|apply extends_HostReportErrors|exact E].
Qed.

(** The state in which a [subscribe] on a cancelled, drained token starts
    its replay. *)
Lemma registered_for_replay t o c st :
  reason t st = Some c → observers t st = [] →
  let st0 := snd (Observable_subscribe t o st) in
  observers t st0 = [length (subscriptions st)] ∧
  trace st0 = trace st ∧
  subscriptions st0 !! length (subscriptions st) = Some (mkSubscription t o false) ∧
  reason t st0 = Some c.
Proof.
  intros R O. split_and!.
  - rewrite observers_Observable_subscribe, decide_True by done.
    apply cancelled_token in R as (tok & -> & _). by rewrite O.
  - unfold Observable_subscribe. simpl. by rewrite trace_update_observers.
  - unfold Observable_subscribe. simpl.
    rewrite subscriptions_update_observers. simpl. by rewrite list_lookup_middle.
  - by rewrite reason_Observable_subscribe.
Qed.

(** The first event of a replay: [next] with the reason, to the new
    handle. *)
Lemma subscribe_head ch fuel d t o c st :
  reason t st = Some c → observers t st = [] →
  ∃ rest, since st (fst (snd (subscribe ch (run ch fuel) d t o st)))
          = Notify d (length (subscriptions st)) (NNext (VCancel c)) true :: rest.
Proof.
  intros R O. destruct (registered_for_replay t o c st R O) as (O' & T0 & E0 & R0).
  unfold subscribe. cbn [fst snd]. rewrite R0.
  set (st0 := snd (Observable_subscribe t o st)) in *.
  rewrite <-(since_same_trace st0 st) by done.
  pose proof (run_extends ch fuel) as RX.
  unfold _dispatch. rewrite O'.
  eapply head_bind; [by apply dispatch_loop_extends| |intros; apply extends_update_observers].
  cbn [dispatch_loop]. unfold reason_value. rewrite R0.
  eapply head_bind.
  - by apply try_catch_extends, call_next_extends.
  - eapply head_try_catch; [by apply call_next_extends|].
    eapply call_next_head; [exact E0|by destruct ch].
  - intros st'. apply bind_extends; [|intros; apply extends_refl].
    by apply try_catch_extends, call_complete_extends.
Qed.

(** ** Trigger and subscribe as passes *)

(** On a channel that forwards every call, every call reaches. *)
Lemma reached_when_forwarding ch d st st' :
  extends ch d st st' → ch = Forwarding →
  ∀ d' h n b, Notify d' h n b ∈ since st st' → b = true.
Proof.
  intros [_ F]%extends_since Hch d' h n b Hin.
  rewrite Forall_forall in F. by destruct (F _ Hin) as [_ ->].
Qed.

(** The calls of the pass a trigger call starts. *)
Lemma trigger_calls ch fuel d t msg st :
  is_Some (tokens st !! t) → reason t st = None →
  Forall (λ h, h < length (subscriptions st)) (observers t st) →
  let r := trigger ch (run ch fuel) d t msg st in
  let v := VCancel (new_Cancel msg) in
  pass_calls d (since st (fst r)) `prefix_of` deliveries v (observers t st) ∧
  (snd r = Normal →
   pass_calls d (since st (fst r)) = deliveries v (observers t st) ∧
   observers t (fst r) = []).
Proof.
  intros I N W. cbn zeta. rewrite trigger_pending by done.
  unfold _dispatch. rewrite observers_fired.
  destruct (dispatch_loop_calls ch _ (run_extends ch fuel) d t (new_Cancel msg)
              (observers t st) (fired t msg st)) as [P E].
  { by rewrite subscriptions_fired. }
  { by apply reason_fired. }
  rewrite (since_same_trace (fired t msg st) st) in P, E by apply trace_fired.
  destruct (dispatch_loop ch (run ch fuel) d t (observers t st) (fired t msg st))
    as [st2 c2].
  assert (since st (update_observers (λ _, []) t st2) = since st st2) as Hs.
  { unfold since. by rewrite trace_update_observers. }
  destruct c2; simpl in *; rewrite ?Hs; split; try done.
  intros _. split; [by apply E|].
  rewrite observers_update_observers, decide_True by done.
  by destruct (tokens st2 !! t).
Qed.

(** A trigger call on a token whose observers are quiet and open. *)
Lemma trigger_quiet ch fuel d t msg st :
  is_Some (tokens st !! t) → reason t st = None →
  NoDup (observers t st) →
  (∀ h, h ∈ observers t st →
        ∃ s, subscriptions st !! h = Some s ∧ drops ch s = false ∧
             quiet_observer (s_observer s)) →
  ∃ st',
    trigger ch (run ch (S fuel)) d t msg st = (st', Normal) ∧
    since st st' =
      (observers t st ≫= λ h,
         match subscriptions st !! h with
         | Some s => delivery d (VCancel (new_Cancel msg)) h (s_observer s)
         | None => []
         end) ∧
    observers t st' = [].
Proof.
  intros I N ND Q. rewrite trigger_pending by done.
  unfold _dispatch. rewrite observers_fired.
  destruct (dispatch_loop_quiet ch fuel d t (observers t st) (fired t msg st) ND)
    as (st2 & -> & L & _).
  { by rewrite subscriptions_fired. }
  exists (update_observers (λ _, []) t st2). split_and!.
  - done.
  - apply since_new. rewrite trace_update_observers, L, trace_fired.
    rewrite subscriptions_fired. unfold reason_value.
    by rewrite reason_fired.
  - rewrite observers_update_observers, decide_True by done.
    by destruct (tokens st2 !! t).
Qed.

(** A [subscribe] with a quiet observer on a cancelled, drained token. *)
Lemma subscribe_quiet ch fuel d t o c st :
  reason t st = Some c → observers t st = [] → quiet_observer o →
  ∃ st',
    snd (subscribe ch (run ch (S fuel)) d t o st) = (st', Normal) ∧
    since st st' = delivery d (VCancel c) (length (subscriptions st)) o ∧
    observers t st' = [].
Proof.
  intros R O Q. destruct (registered_for_replay t o c st R O) as (O' & T0 & E0 & R0).
  unfold subscribe. cbn [fst snd]. rewrite R0. unfold _dispatch. rewrite O'.
  set (st0 := snd (Observable_subscribe t o st)) in *.
  destruct (dispatch_loop_quiet ch fuel d t [length (subscriptions st)] st0)
    as (st2 & -> & L & _).
  { apply NoDup_singleton. }
  { intros h ->%list_elem_of_singleton. eexists. split_and!; [exact E0| |done].
    by destruct ch. }
  exists (update_observers (λ _, []) t st2). split_and!.
  - done.
  - apply since_new. rewrite trace_update_observers, L, T0. simpl.
    rewrite E0, app_nil_r. unfold reason_value. by rewrite R0.
  - rewrite observers_update_observers, decide_True by done.
    by destruct (tokens st2 !! t).
Qed.

Lemma received_app h evs1 evs2 :
  received h (evs1 ++ evs2) = received h evs1 ++ received h evs2.
Proof. apply omap_app. Qed.

Lemma received_report h c : received h (report c) = [].
Proof. by destruct c. Qed.

Lemma received_delivery h d v h' o :
  received h (delivery d v h' o)
  = if decide (h' = h) then [NNext v; NComplete] else [].
Proof.
  unfold delivery. rewrite !received_app, !received_report.
  unfold received. simpl. by case_decide.
Qed.

(** In the deliveries to a snapshot, each observer receives [next] and
    then [complete], once. *)
Lemma received_deliveries h d v (o : handle → option Observer) snapshot :
  NoDup snapshot → h ∈ snapshot → is_Some (o h) →
  received h (snapshot ≫= λ h', match o h' with
                                | Some x => delivery d v h' x
                                | None => []
                                end)
  = [NNext v; NComplete].
Proof.
  intros ND Hin [x Hx].
  assert (∀ l, h ∉ l →
               received h (l ≫= λ h', match o h' with
                                      | Some x => delivery d v h' x
                                      | None => []
                                      end) = []) as Out.
  { induction l as [|a l IH]; [done|]. intros Hn.
    apply not_elem_of_cons in Hn as [Hne Hn].
    rewrite bind_cons, received_app, IH, app_nil_r by done.
    destruct (o a); [|done]. by rewrite received_delivery, decide_False. }
  induction snapshot as [|a l IH]; [by apply elem_of_nil in Hin|].
  apply NoDup_cons in ND as [Ha ND]. rewrite bind_cons, received_app.
  apply elem_of_cons in Hin as [->|Hin].
  - rewrite Hx, received_delivery, decide_True, Out by done. done.
  - assert (a ≠ h) as Hne by (by intros ->).
    rewrite IH by done.
    destruct (o a); [|done]. by rewrite received_delivery, decide_False.
Qed.

(** * The statements of the specification *)

(** ** C1: race *)

(** C1, on the code: the race token fires when the first of its inputs
    does, and a later firing leaves its reason alone, but the reason it
    stores does not carry the message of the input.  The observer of the
    race is the trigger itself, so it is called with the input's [Cancel]
    reason, and [new Cancel] coerces that object to a string: whatever the
    message [m] of the first input, the message of the race token is
    ["[object Object]"]. *)
Theorem race_reason_is_the_coerced_reason (ch : channel) (m m' : value) :
  let T := race_of_three ch 2 in
  let B_fired := trigger ch (run ch 2) 0 1 m (fst T) in
  let A_fired := trigger ch (run ch 2) 0 0 m' (fst B_fired) in
  (snd T = Normal ∧ reason 3 (fst T) = None) ∧
  (snd B_fired = Normal ∧
   reason 1 (fst B_fired) = Some (mkCancel (js_String m)) ∧
   reason 3 (fst B_fired) = Some (mkCancel "[object Object]")) ∧
  (snd A_fired = Normal ∧
   reason 0 (fst A_fired) = Some (mkCancel (js_String m')) ∧
   reason 3 (fst A_fired) = Some (mkCancel "[object Object]")).
Proof. by destruct ch; vm_compute. Qed.

(** ** C2: no observer is notified twice *)

(** A dispatch on a hooked token does not return: its first call is the
    [next] of handle 0, whose [subscribe] starts a dispatch on a token that
    is hooked again. *)
Lemma _dispatch_hooked ch fuel d st :
  hooked st → snd (_dispatch ch (run ch fuel) d 0 st) = OutOfFuel.
Proof.
  revert d st. induction fuel as [|fuel IH];
    intros d st (s & rest & O & E & Nx & K & R);
    unfold _dispatch; rewrite O; cbn [dispatch_loop];
    unfold call_next; rewrite E;
    (replace (drops ch s) with false by (by destruct ch; simpl; rewrite ?K));
    rewrite Nx; cbn [call_of fst snd].
  { done. }
  cbn [run exec_script exec_action].
  match goal with |- context [subscribe ch (run ch fuel) (S d) 0 plain ?x] =>
    set (st1 := x) end.
  assert (hooked (snd (Observable_subscribe 0 plain st1))) as H.
  { assert (tokens st1 = tokens st) as T1.
    { unfold st1. by rewrite tokens_set_observer. }
    assert (∃ s1, subscriptions st1 !! 0 = Some s1 ∧
                  next (s_observer s1) = Some [[ASubscribe 0 plain]] ∧
                  s_closed s1 = false) as (s1 & E1 & N1 & K1).
    { unfold st1, set_observer. simpl. rewrite E. simpl.
      rewrite list_lookup_insert_eq by eauto using lookup_lt_Some. by eexists. }
    destruct R as [c R]. apply cancelled_token in R as (tok & Et & Rt).
    exists s1, (if decide (length (subscriptions st1) ∈ 0 :: rest)
                then rest else rest ++ [length (subscriptions st1)]).
    split_and!; try done.
    - rewrite observers_Observable_subscribe, decide_True by done.
      unfold observers. rewrite T1, Et. unfold observers in O. rewrite Et in O.
      rewrite O. unfold Set_add. by case_decide.
    - unfold Observable_subscribe. simpl. rewrite subscriptions_update_observers.
      simpl. by rewrite lookup_app_l by eauto using lookup_lt_Some.
    - rewrite reason_Observable_subscribe. unfold reason. rewrite T1, Et. simpl.
      by rewrite Rt. }
  unfold subscribe. cbn [fst snd].
  destruct H as (s' & rest' & O' & E' & N' & K' & [c' R']).
  rewrite R'.
  pose proof (IH (S d) (snd (Observable_subscribe 0 plain st1))) as D.
  destruct (_dispatch ch (run ch fuel) (S d) 0 (snd (Observable_subscribe 0 plain st1)))
    as [st2 c2].
  simpl in D. rewrite D; [done|]. by exists s', rest'.
Qed.

(** C2, on the code: an observer that subscribes from its [next] callback
    is notified again.  The [subscribe] it makes finds the reason set and
    runs [_dispatch] over the whole observer set, which still holds the
    observer being notified; it receives [next] twice, and on a channel
    that forwards every call [complete] twice as well.  When it subscribes
    at every call, each [subscribe] notifies it once more and the trigger
    call does not return, however many nested calls are allowed. *)
Theorem resubscribing_observer_is_notified_twice :
  let v := VCancel (mkCancel "x") in
  (snd (resubscribing_run Forwarding) = Normal ∧
   received 0 (trace (fst (resubscribing_run Forwarding)))
   = [NNext v; NNext v; NComplete; NComplete]) ∧
  (snd (resubscribing_run Closing) = Normal ∧
   received 0 (trace (fst (resubscribing_run Closing)))
   = [NNext v; NNext v; NComplete]) ∧
  (∀ ch fuel,
     snd (trigger ch (run ch fuel) 0 0 (VString "x") (always_resubscribing_state ch))
     = OutOfFuel).
Proof.
  split_and!; [by vm_compute..|].
  intros ch fuel. rewrite trigger_pending; [|by destruct ch; eexists|by destruct ch].
  apply _dispatch_hooked.
  destruct ch; by exists (mkSubscription 0 always_resubscribing false), [].
Qed.

(** ** C3: a cancelled token keeps no observer *)

(** C3, on the code: a cancelled token can keep an observer.  Token 0 is
    cancelled and its set is empty.  [token[Symbol.observable]()] hands out
    the observable itself, and a [subscribe] on it runs the subscriber
    function only: the observer is added to the set, nothing is called, and
    the observer stays in the set of the cancelled token through later
    trigger calls and [throwIfRequested].  It is notified, and the set
    emptied, by the [_dispatch] of whoever calls [token.subscribe] next.
    [token.subscribe] itself registers the same way before it dispatches:
    while its replay runs the new observer is in the set, and a [subscribe]
    made from the [next] callback of the observer finds it there and
    notifies it in its own pass, at depth 1.

    What holds on the code: the set of a token is empty when the trigger
    call that cancels it returns and when a [token.subscribe] on the
    cancelled token returns, and a sequence of [subscribe], [unsubscribe],
    trigger and [throwIfRequested] calls, or the construction of a token,
    that starts with the cancelled tokens drained and returns ends so. *)
Theorem cancelled_token_can_keep_an_observer :
  let v := VCancel (mkCancel "x") in
  let st := late_observable_state in
  (reason 0 cancelled_x = Some (mkCancel "x") ∧ observers 0 cancelled_x = []) ∧
  (reason 0 st = Some (mkCancel "x") ∧ observers 0 st = [0] ∧
   trace st = trace cancelled_x) ∧
  (∀ ch fuel d msg, trigger ch (run ch fuel) d 0 msg st = (st, Normal)) ∧
  throwIfRequested 0 st = (st, Throws v) ∧
  (∀ ch,
     let r := subscribe ch (run ch 1) 0 0 plain st in
     snd (snd r) = Normal ∧
     since st (fst (snd r))
     = [Notify 0 0 (NNext v) true; Notify 0 0 NComplete true;
        Notify 0 1 (NNext v) true; Notify 0 1 NComplete true] ∧
     observers 0 (fst (snd r)) = []) ∧
  (observers 0 (snd (Observable_subscribe 0 resubscribing cancelled_x)) = [0] ∧
   ∀ ch,
     pass_calls 1 (trace (fst (snd (subscribe ch (run ch 2) 0 0 resubscribing
                                              cancelled_x))))
     = [(0, NNext v); (0, NComplete); (1, NNext v); (1, NComplete)]) ∧
  (∀ ch fuel d,
     (∀ t msg st,
        reason t st = None →
        snd (trigger ch (run ch fuel) d t msg st) ≠ OutOfFuel →
        observers t (fst (trigger ch (run ch fuel) d t msg st)) = []) ∧
     (∀ t o c st,
        reason t st = Some c →
        snd (snd (subscribe ch (run ch fuel) d t o st)) = Normal →
        observers t (fst (snd (subscribe ch (run ch fuel) d t o st))) = []) ∧
     (∀ w s st,
        drained (λ _, True) st →
        snd (exec_script ch (run ch fuel) d w s st) ≠ OutOfFuel →
        drained (λ _, True) (fst (exec_script ch (run ch fuel) d w s st))) ∧
     (∀ fn st,
        drained (λ _, True) st →
        snd (snd (new_CancelToken ch (run ch fuel) d fn st)) ≠ OutOfFuel →
        drained (λ _, True)
                (fst (snd (new_CancelToken ch (run ch fuel) d fn st))))).
Proof.
  cbn zeta. split; [done|]. split; [done|]. split.
  { intros ch fuel d msg. by apply (trigger_cancelled _ _ _ _ _ (mkCancel "x")). }
  split; [done|]. split; [by intros []; vm_compute|].
  split; [split; [done|by intros []; vm_compute]|].
  intros ch fuel d. pose proof (run_drained ch fuel) as RD. split_and!.
  - intros t msg st N E.
    destruct (tokens st !! t) as [tok|] eqn:I.
    2:{ unfold trigger, observers. rewrite I. simpl. by rewrite I. }
    apply (trigger_drained ch _ RD (λ x, x = t) d t msg st); try done.
    + intros t' ->. rewrite N. by intros [? ?].
    + rewrite (reason_trigger ch fuel d t msg st); [by eexists|by eexists|done].
  - intros t o c st R. unfold subscribe. cbn [fst snd].
    rewrite reason_Observable_subscribe, R. unfold _dispatch.
    destruct (dispatch_loop _ _ _ _ _ _) as [st1 [|e|]]; cbn [bind fst snd]; try done.
    intros _. rewrite observers_update_observers, decide_True by done.
    by destruct (tokens st1 !! t).
  - intros w s st. by apply exec_script_drained.
  - intros fn st D. unfold new_CancelToken. cbn [fst snd].
    by apply exec_script_drained, drained_allocated.
Qed.

(** ** C4: the reason is written once *)



(** ** C5: what the first trigger call delivers *)

(** C5, on the code: an observer registered before the cancellation can
    receive [next] twice.  Token 0 has two observers, and the [next]
    callback of the first subscribes a third observer and unsubscribes the
    second.  The [subscribe] finds the reason set and runs [_dispatch] over
    the whole set, at depth 1, while the pass of the trigger call is still
    at its first observer: the three observers are notified there, the
    first one for the second time.  On a channel that forwards every call
    the pass of the trigger call then goes on and the two observers of its
    snapshot receive [complete], respectively [next] and [complete], once
    more; on a channel that closes a handle at its first [complete] these
    calls are dropped.  And when the first observer only unsubscribes the
    second, the pass still calls the second, which is in its snapshot, but
    on a channel that closes a handle at [unsubscribe] the calls are
    dropped and the second observer receives nothing.

    What holds on the code, for every pending token and whatever the
    observers do: the calls that the pass of the trigger call makes itself
    are [next] with the reason and then [complete] on each handle of the
    set as it was at the call, in the order of registration; the pass stops
    early only where a callback does not return; the set is empty when the
    call returns; and quiet observers with open handles receive [next] with
    the reason and then [complete], once each. *)
Theorem observer_of_the_snapshot_is_notified_twice :
  let v := VCancel (mkCancel "x") in
  let cancelled ch := trigger ch (run ch 2) 0 0 (VString "x") (meddling_state ch) in
  let news ch := since (meddling_state ch) (fst (cancelled ch)) in
  let unsubscribed ch :=
    since (unsubscribing_state ch)
          (fst (trigger ch (run ch 2) 0 0 (VString "x") (unsubscribing_state ch))) in
  (∀ ch, reason 0 (meddling_state ch) = None ∧
         observers 0 (meddling_state ch) = [0; 1] ∧
         snd (cancelled ch) = Normal ∧ observers 0 (fst (cancelled ch)) = []) ∧
  (news Forwarding
   = [Notify 0 0 (NNext v) true;
      Notify 1 0 (NNext v) true; Notify 1 0 NComplete true;
      Notify 1 1 (NNext v) true; Notify 1 1 NComplete true;
      Notify 1 2 (NNext v) true; Notify 1 2 NComplete true;
      Notify 0 0 NComplete true;
      Notify 0 1 (NNext v) true; Notify 0 1 NComplete true] ∧
   received 0 (news Forwarding) = [NNext v; NNext v; NComplete; NComplete] ∧
   received 1 (news Forwarding) = [NNext v; NComplete; NNext v; NComplete]) ∧
  (news Closing
   = [Notify 0 0 (NNext v) true;
      Notify 1 0 (NNext v) true; Notify 1 0 NComplete true;
      Notify 1 1 (NNext v) true; Notify 1 1 NComplete true;
      Notify 1 2 (NNext v) true; Notify 1 2 NComplete true;
      Notify 0 0 NComplete false;
      Notify 0 1 (NNext v) false; Notify 0 1 NComplete false] ∧
   received 0 (news Closing) = [NNext v; NNext v; NComplete] ∧
   received 1 (news Closing) = [NNext v; NComplete]) ∧
  (observers 0 (unsubscribing_state Closing) = [0; 1] ∧
   calls_on 1 (unsubscribed Closing) = [NNext v; NComplete] ∧
   received 1 (unsubscribed Closing) = [] ∧
   received 1 (unsubscribed Forwarding) = [NNext v; NComplete]) ∧
  (∀ ch fuel d t msg st,
     is_Some (tokens st !! t) → reason t st = None →
     Forall (λ h, h < length (subscriptions st)) (observers t st) →
     let r := trigger ch (run ch fuel) d t msg st in
     let w := VCancel (new_Cancel msg) in
     pass_calls d (since st (fst r)) `prefix_of` deliveries w (observers t st) ∧
     (snd r = Normal →
      pass_calls d (since st (fst r)) = deliveries w (observers t st) ∧
      observers t (fst r) = []) ∧
     (0 < fuel → NoDup (observers t st) →
      (∀ h, h ∈ observers t st →
            ∃ s, subscriptions st !! h = Some s ∧ drops ch s = false ∧
                 quiet_observer (s_observer s)) →
      snd r = Normal ∧
      ∀ h, h ∈ observers t st →
           received h (since st (fst r)) = [NNext w; NComplete])).
Proof.
  cbn zeta. split_and!; try done.
  - by intros []; vm_compute.
  - intros ch fuel d t msg st I N W.
    destruct (trigger_calls ch fuel d t msg st I N W) as [P E].
    split_and!; try done.
    intros Hf ND Q. destruct fuel as [|fuel']; [lia|].
    destruct (trigger_quiet ch fuel' d t msg st I N ND Q) as (st' & -> & L & _).
    split; [done|]. intros h Hin. cbn [fst]. rewrite L.
    rewrite <-(received_deliveries h d (VCancel (new_Cancel msg))
                 (λ h', s_observer <$> subscriptions st !! h')
                 (observers t st) ND Hin).
    + f_equal. apply Forall_bind_ext, Forall_forall. intros h' _.
      by destruct (subscriptions st !! h').
    + destruct (Q h Hin) as (s & -> & _). by eexists.
Qed.

(** ** C6: subscribing to a cancelled token *)

(** C6: a [subscribe] on a cancelled token notifies the new observer
    before it returns.  It never throws, and when it returns the calls of
    its pass end with [next] with the stored reason and then [complete] on
    the new handle, after the calls to what the set held.  Between calls
    the set of a cancelled token is empty: then the first thing the
    [subscribe] does is that call of [next], which reaches the observer,
    and with a quiet observer it returns and the trace it leaves is the
    delivery to that observer. *)
Theorem subscribe_after_cancel_replays (ch : channel) (fuel d : nat) (t : token)
    (o : Observer) (c : Cancel) (st : state) :
  reason t st = Some c →
  Forall (λ h, h < length (subscriptions st)) (observers t st) →
  let r := subscribe ch (run ch fuel) d t o st in
  let h := length (subscriptions st) in
  let v := VCancel c in
  fst r = h ∧
  (∀ e, snd (snd r) ≠ Throws e) ∧
  (snd (snd r) = Normal →
   pass_calls d (since st (fst (snd r)))
   = deliveries v (observers t st) ++ [(h, NNext v); (h, NComplete)]) ∧
  (ch = Forwarding →
   ∀ d' h' n b, Notify d' h' n b ∈ since st (fst (snd r)) → b = true) ∧
  (observers t st = [] →
   (∃ rest, since st (fst (snd r)) = Notify d h (NNext v) true :: rest) ∧
   (0 < fuel → quiet_observer o →
    snd (snd r) = Normal ∧ since st (fst (snd r)) = delivery d v h o)).
Proof.
  intros R W. cbn zeta. split_and!.
  - done.
  - intros e. apply subscribe_not_Throws.
  - assert (is_Some (tokens st !! t)) as I.
    { apply cancelled_token in R as (tok & -> & _). by eexists. }
    pose proof (observers_registered t o st I W) as O'.
    unfold subscribe. cbn [fst snd]. rewrite reason_Observable_subscribe, R.
    unfold _dispatch. rewrite O'.
    set (st0 := snd (Observable_subscribe t o st)) in *.
    assert (trace st0 = trace st) as T0.
    { unfold st0, Observable_subscribe. simpl. by rewrite trace_update_observers. }
    assert (length (subscriptions st0) = S (length (subscriptions st))) as L0.
    { unfold st0, Observable_subscribe. simpl.
      rewrite subscriptions_update_observers. simpl. rewrite length_app. simpl. lia. }
    destruct (dispatch_loop_calls ch _ (run_extends ch fuel) d t c
                (observers t st ++ [length (subscriptions st)]) st0) as [_ E].
    { rewrite L0. apply Forall_app. split.
      - eapply Forall_impl; [exact W|]. simpl. lia.
      - constructor; [lia|done]. }
    { unfold st0. by rewrite reason_Observable_subscribe. }
    rewrite (since_same_trace st0 st) in E by done.
    destruct (dispatch_loop ch (run ch fuel) d t
                (observers t st ++ [length (subscriptions st)]) st0) as [st2 c2].
    destruct c2; simpl in *; try done. intros _.
    assert (since st (update_observers (λ _, []) t st2) = since st st2) as ->.
    { unfold since. by rewrite trace_update_observers. }
    rewrite E by done. unfold deliveries. by rewrite bind_app.
  - apply (reached_when_forwarding ch d). apply subscribe_extends. apply run_extends.
  - intros O. split; [by apply subscribe_head|].
    intros Hf Q. destruct fuel as [|fuel']; [lia|].
    destruct (subscribe_quiet ch fuel' d t o c st R O Q) as (st' & -> & L & _).
    done.
Qed.

(** A second observer, subscribed afterwards, is notified at once. *)
Lemma subscribe_after_cancel_replays_witness :
  reason 0 shutdown = Some (mkCancel "shutdown") ∧
  Forall (λ h, h < length (subscriptions shutdown)) (observers 0 shutdown) ∧
  since shutdown (fst (snd (subscribe Closing (run Closing 1) 0 0 plain shutdown)))
  = [Notify 0 1 (NNext (VCancel (mkCancel "shutdown"))) true;
     Notify 0 1 NComplete true].
Proof.
  split_and!; [done|by constructor|].
  destruct (subscribe_after_cancel_replays Closing 1 0 0 plain
              (mkCancel "shutdown") shutdown eq_refl (Forall_nil_2 _))
    as (_ & _ & _ & _ & H).
  destruct (H eq_refl) as [_ H'].
  by destruct H' as [_ ->]; [lia|done|].
Defined.

(** ** C7: observers that throw *)

(** C7: neither a trigger call nor a [subscribe] throws, whatever the
    observers do.  A call of [next] or [complete] that throws, whatever
    the callback did before, ends normally under the [try] of the loop
    with the thrown value printed by [HostReportErrors].  A pass that
    returns has called [next] and [complete] on every observer of its
    snapshot, whatever they threw.  When the observers of a pending token
    are quiet and their handles open, the trigger call returns and its
    trace is the deliveries to them in order: each thrown value is printed
    right after the call that threw it, and the pass goes on with the next
    call. *)
Theorem observer_errors_are_reported (ch : channel) (fuel d : nat) (t : token) :
  (∀ msg st e, snd (trigger ch (run ch fuel) d t msg st) ≠ Throws e) ∧
  (∀ o st e, snd (snd (subscribe ch (run ch fuel) d t o st)) ≠ Throws e) ∧
  (∀ h v st st1 e,
     call_next ch (run ch fuel) d h v st = (st1, Throws e) →
     try_catch (call_next ch (run ch fuel) d h v st) (λ e, HostReportErrors [e])
     = (log [ConsoleError e] st1, Normal)) ∧
  (∀ h st st1 e,
     call_complete ch (run ch fuel) d h st = (st1, Throws e) →
     try_catch (call_complete ch (run ch fuel) d h st) (λ e, HostReportErrors [e])
     = (log [ConsoleError e] st1, Normal)) ∧
  (∀ c snapshot st,
     Forall (λ h, h < length (subscriptions st)) snapshot →
     reason t st = Some c →
     snd (dispatch_loop ch (run ch fuel) d t snapshot st) = Normal →
     pass_calls d (since st (fst (dispatch_loop ch (run ch fuel) d t snapshot st)))
     = deliveries (VCancel c) snapshot) ∧
  (∀ msg st,
     0 < fuel → is_Some (tokens st !! t) → reason t st = None →
     NoDup (observers t st) →
     (∀ h, h ∈ observers t st →
           ∃ s, subscriptions st !! h = Some s ∧ drops ch s = false ∧
                quiet_observer (s_observer s)) →
     let r := trigger ch (run ch fuel) d t msg st in
     snd r = Normal ∧
     since st (fst r) =
       (observers t st ≫= λ h,
          match subscriptions st !! h with
          | Some s => delivery d (VCancel (new_Cancel msg)) h (s_observer s)
          | None => []
          end)).
Proof.
  split_and!.
  - intros msg st e. apply trigger_not_Throws.
  - intros o st e. apply subscribe_not_Throws.
  - by intros h v st st1 e ->.
  - by intros h st st1 e ->.
  - intros c snapshot st W R.
    by apply (dispatch_loop_calls ch _ (run_extends ch fuel) d t c snapshot st).
  - intros msg st Hf I N ND Q. destruct fuel as [|fuel']; [lia|].
    by destruct (trigger_quiet ch fuel' d t msg st I N ND Q) as (st' & -> & L & _).
Qed.

(** Both errors are printed, and the plain observer is notified. *)
Lemma observer_errors_are_reported_witness :
  since throwing_state
        (fst (trigger Closing (run Closing 1) 0 0 (VString "x") throwing_state))
  = [Notify 0 0 (NNext (VCancel (mkCancel "x"))) true;
     ConsoleError (VString "boom");
     Notify 0 0 NComplete true;
     ConsoleError (VString "bang");
     Notify 0 1 (NNext (VCancel (mkCancel "x"))) true;
     Notify 0 1 NComplete true].
Proof.
  destruct (observer_errors_are_reported Closing 1 0 0) as (_ & _ & _ & _ & _ & H).
  destruct (H (VString "x") throwing_state) as [_ ->];
    [lia|by eexists|done| | |done].
  - change (observers 0 throwing_state) with [0; 1].
    apply NoDup_cons_2; [by intros ?%list_elem_of_singleton|].
    apply NoDup_singleton.
  - change (observers 0 throwing_state) with [0; 1].
    intros h [->|[->|[]%elem_of_nil]%elem_of_cons]%elem_of_cons;
      eexists; split_and!; try reflexivity; done.
Defined.

(** ** C8: throwIfRequested *)

(** C8: [throwIfRequested()] returns and changes nothing while the reason
    is undefined, and throws the stored reason, changing nothing, once it
    is set. *)
Theorem throwIfRequested_throws_the_reason (t : token) (st : state) :
  (reason t st = None → throwIfRequested t st = (st, Normal)) ∧
  (∀ c, reason t st = Some c → throwIfRequested t st = (st, Throws (VCancel c))).
Proof.
  unfold throwIfRequested. split.
  - by intros ->.
  - by intros c ->.
Qed.

(** ** C9: the message of the reason *)






(** ** C10: a setup function that throws *)

Lemma exec_script_app ch run d v s1 s2 st :
  exec_script ch run d v (s1 ++ s2) st
  = (do st1 <- exec_script ch run d v s1 st; exec_script ch run d v s2 st1).
Proof.
  revert st. induction s1 as [|a s1 IH]; intros st; simpl; [done|].
  destruct (exec_action ch run d v a st) as [st1 [|e|]]; simpl; auto.
Qed.

(** C10: the constructor does not catch what [fn] throws.  Whatever [fn]
    throws ends the constructor, and once [fn] has called the trigger the
    token holds the reason of that call, whatever [fn] does afterwards and
    however it ends. *)
Theorem constructor_propagates_what_fn_throws (ch : channel) (fuel d : nat)
    (st : state) :
  let this := length (tokens st) in
  (∀ fn st' e,
     exec_script ch (run ch fuel) d VUndefined (fn this) (allocated st)
     = (st', Throws e) →
     new_CancelToken ch (run ch fuel) d fn st = (this, (st', Throws e))) ∧
  (∀ e rest,
     new_CancelToken ch (run ch fuel) d (λ cancel, AThrow (Lit e) :: rest cancel) st
     = (this, (allocated st, Throws e))) ∧
  (∀ msg rest,
     let r := new_CancelToken ch (run ch fuel) d
                (λ cancel, ACancel cancel (Lit msg) :: rest cancel) st in
     fst r = this ∧ reason this (fst (snd r)) = Some (new_Cancel msg)) ∧
  (∀ pre msg rest st1,
     exec_script ch (run ch fuel) d VUndefined (pre this) (allocated st)
     = (st1, Normal) →
     reason this st1 = None →
     reason this
       (fst (snd (new_CancelToken ch (run ch fuel) d
                    (λ cancel, pre cancel ++ ACancel cancel (Lit msg) :: rest cancel)
                    st)))
     = Some (new_Cancel msg)) ∧
  (∀ msg e rest,
     new_CancelToken ch (run ch fuel) d
       (λ cancel, ACancel cancel (Lit msg) :: AThrow (Lit e) :: rest cancel) st
     = (this,
        (mkState (tokens st ++ [mkToken (Some (new_Cancel msg)) []])
                 (subscriptions st) (trace st),
         Throws e))).
Proof.
  intros this. subst this.
  assert (∀ msg, trigger ch (run ch fuel) d (length (tokens st)) msg (allocated st)
                 = (mkState (tokens st ++ [mkToken (Some (new_Cancel msg)) []])
                            (subscriptions st) (trace st), Normal)) as T.
  { intros msg. rewrite trigger_pending; [|by apply allocated_token|apply reason_allocated].
    rewrite fired_allocated. apply _dispatch_no_observer.
    unfold observers. simpl. by rewrite list_lookup_middle. }
  split_and!.
  - intros fn st' e E. unfold new_CancelToken. fold (allocated st). by rewrite E.
  - done.
  - intros msg rest. simpl. split; [done|]. fold (allocated st). rewrite T. simpl.
    match goal with |- context [exec_script ?a ?b ?c ?e ?f ?g] =>
      eapply (ext_reason _ _ _ _ (exec_script_extends a b (run_extends a fuel) c e f g)) end.
    unfold reason. simpl. by rewrite list_lookup_middle.
  - intros pre msg rest st1 E N. unfold new_CancelToken. cbn [fst snd].
    rewrite exec_script_app, E. cbn [bind exec_script exec_action eval].
    assert (is_Some (tokens st1 !! length (tokens st))) as I.
    { apply lookup_lt_is_Some.
      pose proof (exec_script_extends ch _ (run_extends ch fuel) d VUndefined
                    (pre (length (tokens st))) (allocated st)) as X.
      rewrite E in X. apply ext_tokens in X. simpl in X.
      rewrite length_app in X. simpl in X. lia. }
    pose proof (reason_trigger ch fuel d _ msg st1 I N) as R.
    destruct (trigger ch (run ch fuel) d (length (tokens st)) msg st1)
      as [st2 [|e|]]; try done.
    by apply exec_script_reason.
  - intros msg e rest. unfold new_CancelToken. fold (allocated st). simpl. by rewrite T.
Qed.

(** * Further properties of the class *)

(** ** The observer sets stay well formed *)

Lemma keeps_tokens_refl st : keeps_tokens st st.
Proof. intros h s E. by exists s. Qed.

Lemma keeps_tokens_trans st1 st2 st3 :
  keeps_tokens st1 st2 → keeps_tokens st2 st3 → keeps_tokens st1 st3.
Proof.
  intros K1 K2 h s E. destruct (K1 h s E) as (s1 & E1 & T1).
  destruct (K2 h s1 E1) as (s2 & E2 & T2). exists s2. split; [done|congruence].
Qed.

Lemma keeps_tokens_subscriptions st st' :
  subscriptions st' = subscriptions st → keeps_tokens st st'.
Proof. intros E h s. rewrite E. by exists s. Qed.

Lemma keeps_tokens_set_subscription h s st :
  (∀ s0, subscriptions st !! h = Some s0 → s_token s = s_token s0) →
  keeps_tokens st (set_subscription h s st).
Proof.
  intros T h' s' E. simpl. destruct (decide (h = h')) as [->|Hne].
  - exists s. rewrite list_lookup_insert_eq by eauto using lookup_lt_Some.
    split; [done|]. by apply T.
  - exists s'. by rewrite list_lookup_insert_ne.
Qed.

Lemma keeps_tokens_close h st : keeps_tokens st (close h st).
Proof.
  unfold close. destruct (subscriptions st !! h) as [s|] eqn:E;
    [|apply keeps_tokens_refl].
  apply keeps_tokens_set_subscription. intros s0. rewrite E. by intros [= <-].
Qed.

Lemma keeps_tokens_set_observer h o st : keeps_tokens st (set_observer h o st).
Proof.
  unfold set_observer. destruct (subscriptions st !! h) as [s|] eqn:E;
    [|apply keeps_tokens_refl].
  apply keeps_tokens_set_subscription. intros s0. rewrite E. by intros [= <-].
Qed.

Lemma keeps_tokens_cleanup h st : keeps_tokens st (cleanup h st).
Proof. apply keeps_tokens_subscriptions, subscriptions_cleanup. Qed.

Lemma keeps_tokens_closing ch f st :
  (∀ st, keeps_tokens st (f st)) → keeps_tokens st (closing ch f st).
Proof. intros Hf. destruct ch; simpl; [apply keeps_tokens_refl|apply Hf]. Qed.

Lemma keeps_tokens_unsubscribe h st : keeps_tokens st (unsubscribe h st).
Proof.
  unfold unsubscribe. destruct (subscriptions st !! h) as [s|];
    [|apply keeps_tokens_refl].
  destruct (s_closed s); [apply keeps_tokens_refl|].
  eapply keeps_tokens_trans; [apply keeps_tokens_close|apply keeps_tokens_cleanup].
Qed.

Lemma keeps_tokens_Observable_subscribe t o st :
  keeps_tokens st (snd (Observable_subscribe t o st)).
Proof.
  intros h s E. exists s. unfold Observable_subscribe. simpl.
  rewrite subscriptions_update_observers. simpl.
  by rewrite lookup_app_l by eauto using lookup_lt_Some.
Qed.

(** The sets are those of [st] and the subscriptions of [st] are kept. *)
Lemma well_formed_same st st' :
  (∀ t, observers t st' = observers t st) → keeps_tokens st st' →
  well_formed st → well_formed st'.
Proof.
  intros O K W t. destruct (W t) as [ND B]. rewrite O. split; [done|].
  intros h Hh. destruct (B h Hh) as (s & E & T).
  destruct (K h s E) as (s' & E' & T'). exists s'. split; [done|congruence].
Qed.

Lemma observers_tokens t st st' :
  tokens st' = tokens st → observers t st' = observers t st.
Proof. unfold observers. by intros ->. Qed.

Lemma well_formed_log evs st : well_formed st → well_formed (log evs st).
Proof. by apply well_formed_same; [|apply keeps_tokens_subscriptions]. Qed.

Lemma well_formed_close h st : well_formed st → well_formed (close h st).
Proof.
  apply well_formed_same; [|apply keeps_tokens_close].
  intros t. apply observers_tokens, tokens_close.
Qed.

Lemma well_formed_set_observer h o st :
  well_formed st → well_formed (set_observer h o st).
Proof.
  apply well_formed_same; [|apply keeps_tokens_set_observer].
  intros t. apply observers_tokens, tokens_set_observer.
Qed.

(** A set that loses handles stays well formed. *)
Lemma well_formed_update_observers f t st :
  (∀ l, NoDup l → NoDup (f l)) → (∀ l h, h ∈ f l → h ∈ l) →
  well_formed st → well_formed (update_observers f t st).
Proof.
  intros Hn Hs W t'. rewrite observers_update_observers, subscriptions_update_observers.
  destruct (W t') as [ND B]. destruct (decide (t = t')) as [->|Hne]; [|done].
  destruct (tokens st !! t'); [|split; [constructor|by intros h ?%elem_of_nil]].
  split; [by apply Hn|]. intros h Hh. by apply B, Hs.
Qed.

Lemma well_formed_cleanup h st : well_formed st → well_formed (cleanup h st).
Proof.
  unfold cleanup. destruct (subscriptions st !! h); [|done].
  apply well_formed_update_observers.
  - intros l. apply NoDup_filter.
  - intros l x. unfold Set_delete. rewrite list_elem_of_filter. tauto.
Qed.

Lemma well_formed_clear t st :
  well_formed st → well_formed (update_observers (λ _, []) t st).
Proof.
  apply well_formed_update_observers.
  - intros. constructor.
  - by intros l h ?%elem_of_nil.
Qed.

Lemma well_formed_closing ch f st :
  (∀ st, well_formed st → well_formed (f st)) →
  well_formed st → well_formed (closing ch f st).
Proof. intros Hf. destruct ch; simpl; auto. Qed.

Lemma well_formed_unsubscribe h st :
  well_formed st → well_formed (unsubscribe h st).
Proof.
  intros W. unfold unsubscribe. destruct (subscriptions st !! h) as [s|]; [|done].
  destruct (s_closed s); [done|]. by apply well_formed_cleanup, well_formed_close.
Qed.

(** The handles of a well-formed state are allocated. *)
Lemma well_formed_allocated_handle t h st :
  well_formed st → h ∈ observers t st → h < length (subscriptions st).
Proof.
  intros W Hh. destruct (W t) as [_ B]. destruct (B h Hh) as (s & E & _).
  eauto using lookup_lt_Some.
Qed.

Lemma well_formed_handles t st :
  well_formed st → Forall (λ h, h < length (subscriptions st)) (observers t st).
Proof.
  intros W. apply Forall_forall. intros h. by apply well_formed_allocated_handle.
Qed.

Lemma well_formed_Observable_subscribe t o st :
  well_formed st → well_formed (snd (Observable_subscribe t o st)).
Proof.
  intros W t'. rewrite observers_Observable_subscribe.
  destruct (W t') as [ND B].
  assert (∀ h, h ∈ observers t' st →
               ∃ s, subscriptions (snd (Observable_subscribe t o st)) !! h = Some s ∧
                    s_token s = t') as B'.
  { intros h Hh. destruct (B h Hh) as (s & E & T).
    destruct (keeps_tokens_Observable_subscribe t o st h s E) as (s' & E' & T').
    exists s'. split; [done|congruence]. }
  destruct (decide (t = t')) as [->|Hne]; [|done].
  destruct (tokens st !! t') as [tok|];
    [|split; [constructor|by intros h ?%elem_of_nil]].
  unfold Set_add. case_decide as Hin; [done|]. split.
  - apply NoDup_app. split_and!; [done| |apply NoDup_singleton].
    intros x Hx ->%list_elem_of_singleton. done.
  - intros h [Hh| ->%list_elem_of_singleton]%elem_of_app; [by apply B'|].
    exists (mkSubscription t' o false). split; [|done].
    unfold Observable_subscribe. simpl. rewrite subscriptions_update_observers.
    simpl. by rewrite list_lookup_middle.
Qed.

(** Storing a reason changes no set. *)
Lemma well_formed_set_reason t tok c st :
  tokens st !! t = Some tok →
  well_formed st → well_formed (set_token t (mkToken c (_observers tok)) st).
Proof.
  intros E. apply well_formed_same; [|by apply keeps_tokens_subscriptions].
  intros t'. unfold observers. simpl. destruct (decide (t = t')) as [->|Hne].
  - rewrite list_lookup_insert_eq by eauto using lookup_lt_Some. by rewrite E.
  - by rewrite list_lookup_insert_ne.
Qed.

Lemma observers_allocated t st :
  observers t (allocated st) = observers t st.
Proof.
  unfold observers, allocated. simpl.
  destruct (decide (t < length (tokens st))) as [Hlt|Hge].
  - by rewrite lookup_app_l.
  - rewrite (lookup_ge_None_2 (tokens st)) by lia.
    destruct (decide (t = length (tokens st))) as [->|Hne].
    + by rewrite list_lookup_middle.
    + rewrite lookup_ge_None_2; [done|]. rewrite length_app. simpl. lia.
Qed.

Lemma well_formed_allocated st : well_formed st → well_formed (allocated st).
Proof.
  apply well_formed_same; [|by apply keeps_tokens_subscriptions].
  intros t. apply observers_allocated.
Qed.

Lemma well_formed_bind r k :
  well_formed (fst r) → (∀ st, well_formed st → well_formed (fst (k st))) →
  well_formed (fst (bind r k)).
Proof. destruct r as [st [|e|]]; simpl; auto. Qed.

Lemma well_formed_try_catch r :
  well_formed (fst r) →
  well_formed (fst (try_catch r (λ e, HostReportErrors [e]))).
Proof. destruct r as [st [|e|]]; simpl; auto using well_formed_log. Qed.

Section WellFormed.

Variable ch : channel.
Variable run : nat → value → script → state → result.

Hypothesis run_well_formed :
  ∀ d v s st, well_formed st → well_formed (fst (run d v s st)).

Lemma call_next_well_formed d h v st :
  well_formed st → well_formed (fst (call_next ch run d h v st)).
Proof.
  intros W. unfold call_next.
  destruct (subscriptions st !! h) as [s|]; [|done].
  destruct (drops ch s); [by apply well_formed_log|].
  destruct (next (s_observer s)) as [cb|]; [|by apply well_formed_log].
  by apply run_well_formed, well_formed_set_observer, well_formed_log.
Qed.

Lemma call_complete_well_formed d h st :
  well_formed st → well_formed (fst (call_complete ch run d h st)).
Proof.
  intros W. unfold call_complete.
  destruct (subscriptions st !! h) as [s|]; [|done].
  destruct (drops ch s); [by apply well_formed_log|].
  assert (well_formed (closing ch (close h) (log [Notify d h NComplete true] st)))
    as W1.
  { apply well_formed_closing; [intros ?; apply well_formed_close|].
    by apply well_formed_log. }
  destruct (complete (s_observer s)) as [cb|].
  - match goal with |- context [run ?a ?b ?c ?x] =>
      pose proof (run_well_formed a b c x) as R; destruct (run a b c x) as [st2 c2] end.
    simpl in R.
    assert (well_formed st2) as W2 by (by apply R, well_formed_set_observer).
    destruct c2; simpl; try done;
      (apply well_formed_closing; [intros ?; apply well_formed_cleanup|done]).
  - apply well_formed_closing; [intros ?; apply well_formed_cleanup|done].
Qed.

Lemma dispatch_loop_well_formed d t snapshot st :
  well_formed st → well_formed (fst (dispatch_loop ch run d t snapshot st)).
Proof.
  revert st. induction snapshot as [|h rest IH]; intros st W; simpl; [done|].
  apply well_formed_bind.
  { by apply well_formed_try_catch, call_next_well_formed. }
  intros st1 W1. apply well_formed_bind.
  { by apply well_formed_try_catch, call_complete_well_formed. }
  intros st2 W2. by apply IH.
Qed.

Lemma _dispatch_well_formed d t st :
  well_formed st → well_formed (fst (_dispatch ch run d t st)).
Proof.
  intros W. unfold _dispatch. apply well_formed_bind.
  - by apply dispatch_loop_well_formed.
  - intros st1 W1. by apply well_formed_clear.
Qed.

Lemma trigger_well_formed d t msg st :
  well_formed st → well_formed (fst (trigger ch run d t msg st)).
Proof.
  intros W. unfold trigger. destruct (tokens st !! t) as [tok|] eqn:E; [|done].
  destruct (_reason tok); [done|].
  by apply _dispatch_well_formed, well_formed_set_reason.
Qed.

Lemma subscribe_well_formed d t o st :
  well_formed st → well_formed (fst (snd (subscribe ch run d t o st))).
Proof.
  intros W. unfold subscribe. cbn [fst snd].
  pose proof (well_formed_Observable_subscribe t o st W) as W1.
  destruct (reason t _); [by apply _dispatch_well_formed|done].
Qed.

Lemma exec_action_well_formed d v a st :
  well_formed st → well_formed (fst (exec_action ch run d v a st)).
Proof.
  intros W. destruct a; simpl.
  - by apply subscribe_well_formed.
  - by apply well_formed_unsubscribe.
  - by apply trigger_well_formed.
  - unfold throwIfRequested. by destruct (reason t st).
  - done.
Qed.

Lemma exec_script_well_formed d v s st :
  well_formed st → well_formed (fst (exec_script ch run d v s st)).
Proof.
  revert st. induction s as [|a s IH]; intros st W; simpl; [done|].
  apply well_formed_bind; [by apply exec_action_well_formed|].
  intros st1 W1. by apply IH.
Qed.

End WellFormed.

Lemma run_well_formed ch fuel d v s st :
  well_formed st → well_formed (fst (run ch fuel d v s st)).
Proof.
  revert d v s st. induction fuel as [|fuel IH]; intros d v s st W; simpl.
  - done.
  - by apply exec_script_well_formed.
Qed.

Lemma well_formed_empty_state : well_formed empty_state.
Proof. intros t. split; [constructor|by intros h ?%elem_of_nil]. Qed.

(** X1: the observer sets of every token stay well formed: a handle is in
    a set at most once, and only in the set of the token on which its
    subscription was made, so the sets of two tokens share no handle.  It
    holds when no token exists and every call keeps it, however the call
    ends. *)
Theorem observer_sets_stay_well_formed (ch : channel) (fuel d : nat) :
  well_formed empty_state ∧
  (∀ st t o, well_formed st →
     well_formed (fst (snd (subscribe ch (run ch fuel) d t o st)))) ∧
  (∀ st h, well_formed st → well_formed (unsubscribe h st)) ∧
  (∀ st t msg, well_formed st →
     well_formed (fst (trigger ch (run ch fuel) d t msg st))) ∧
  (∀ st v s, well_formed st →
     well_formed (fst (exec_script ch (run ch fuel) d v s st))) ∧
  (∀ st fn, well_formed st →
     well_formed (fst (snd (new_CancelToken ch (run ch fuel) d fn st)))) ∧
  (∀ st list, well_formed st →
     well_formed (fst (snd (race ch (run ch fuel) d list st)))) ∧
  (∀ st, well_formed st → well_formed (fst (snd (source ch (run ch fuel) d st)))) ∧
  (∀ st t t' h, well_formed st →
     h ∈ observers t st → h ∈ observers t' st → t = t').
Proof.
  pose proof (run_well_formed ch fuel) as R.
  assert (∀ st fn, well_formed st →
            well_formed (fst (snd (new_CancelToken ch (run ch fuel) d fn st)))) as N.
  { intros st fn W. unfold new_CancelToken. cbn [fst snd].
    by apply exec_script_well_formed, well_formed_allocated. }
  split_and!.
  - apply well_formed_empty_state.
  - intros st t o. by apply subscribe_well_formed.
  - intros st h. apply well_formed_unsubscribe.
  - intros st t msg. by apply trigger_well_formed.
  - intros st v s. by apply exec_script_well_formed.
  - done.
  - intros st list. apply N.
  - intros st. apply N.
  - intros st t t' h W Hh Hh'.
    destruct (W t) as [_ B]. destruct (W t') as [_ B'].
    destruct (B h Hh) as (s & E & <-). destruct (B' h Hh') as (s' & E' & <-).
    congruence.
Qed.

(** ** Subscribing and unsubscribing *)

Lemma calls_on_app h evs1 evs2 :
  calls_on h (evs1 ++ evs2) = calls_on h evs1 ++ calls_on h evs2.
Proof. apply omap_app. Qed.

Lemma silent_refl h st : absent h st → silent h st st.
Proof. intros A. split; [done|]. exists []. by rewrite app_nil_r. Qed.

Lemma silent_trans h st1 st2 st3 :
  silent h st1 st2 → silent h st2 st3 → silent h st1 st3.
Proof.
  intros [_ (n1 & E1 & C1)] [A (n2 & E2 & C2)]. split; [done|].
  exists (n1 ++ n2). split; [by rewrite E2, E1, app_assoc|].
  by rewrite calls_on_app, C1, C2.
Qed.

Lemma silent_same h st st' :
  (∀ t x, x ∈ observers t st' → x ∈ observers t st) →
  length (subscriptions st) ≤ length (subscriptions st') →
  trace st' = trace st →
  absent h st → silent h st st'.
Proof.
  intros O S T [Hlt A]. split.
  - split; [lia|]. intros t Hin. by apply (A t), O.
  - exists []. by rewrite app_nil_r.
Qed.

Lemma silent_log h evs st :
  calls_on h evs = [] → absent h st → silent h st (log evs st).
Proof. intros C A. split; [done|]. by exists evs. Qed.

Lemma silent_close h h' st : absent h st → silent h st (close h' st).
Proof.
  apply silent_same.
  - intros t x. by rewrite (observers_tokens t _ _ (tokens_close h' st)).
  - by rewrite subscriptions_length_close.
  - apply trace_close.
Qed.

Lemma silent_set_observer h h' o st :
  absent h st → silent h st (set_observer h' o st).
Proof.
  apply silent_same.
  - intros t x. by rewrite (observers_tokens t _ _ (tokens_set_observer h' o st)).
  - by rewrite subscriptions_length_set_observer.
  - apply trace_set_observer.
Qed.

Lemma silent_update_observers h f t st :
  (∀ l, h ∉ l → h ∉ f l) → absent h st → silent h st (update_observers f t st).
Proof.
  intros Hf [Hlt A]. split.
  - split; [by rewrite subscriptions_update_observers|].
    intros t'. rewrite observers_update_observers.
    destruct (decide (t = t')) as [->|Hne]; [|apply A].
    destruct (tokens st !! t'); [apply Hf, A|by intros ?%elem_of_nil].
  - exists []. by rewrite trace_update_observers, app_nil_r.
Qed.

Lemma silent_cleanup h h' st : absent h st → silent h st (cleanup h' st).
Proof.
  intros A. unfold cleanup. destruct (subscriptions st !! h'); [|by apply silent_refl].
  apply silent_update_observers; [|done].
  intros l Hn. unfold Set_delete. rewrite list_elem_of_filter. tauto.
Qed.

Lemma silent_closing h ch f st :
  (∀ st, absent h st → silent h st (f st)) →
  absent h st → silent h st (closing ch f st).
Proof. intros Hf A. destruct ch; simpl; [by apply silent_refl|by apply Hf]. Qed.

Lemma silent_unsubscribe h h' st : absent h st → silent h st (unsubscribe h' st).
Proof.
  intros A. unfold unsubscribe.
  destruct (subscriptions st !! h') as [s|]; [|by apply silent_refl].
  destruct (s_closed s); [by apply silent_refl|].
  pose proof (silent_close h h' st A) as S1.
  eapply silent_trans; [exact S1|]. apply silent_cleanup, S1.
Qed.

Lemma silent_Observable_subscribe h t o st :
  absent h st → silent h st (snd (Observable_subscribe t o st)).
Proof.
  intros [Hlt A]. unfold Observable_subscribe. cbn [snd].
  set (st1 := mkState _ _ _).
  assert (absent h st1) as A1.
  { split; [unfold st1; simpl; rewrite length_app; lia|done]. }
  assert (silent h st st1) as S0.
  { split; [done|]. exists []. by rewrite app_nil_r. }
  eapply silent_trans; [exact S0|]. apply silent_update_observers; [|done].
  intros l Hn. unfold Set_add. case_decide; [done|].
  rewrite elem_of_app, list_elem_of_singleton. intros [?| ->]; [done|lia].
Qed.

Lemma silent_set_reason h t tok c st :
  tokens st !! t = Some tok →
  absent h st → silent h st (set_token t (mkToken c (_observers tok)) st).
Proof.
  intros E. apply silent_same; try done.
  intros t' x. unfold observers. simpl. destruct (decide (t = t')) as [->|Hne].
  - rewrite list_lookup_insert_eq by eauto using lookup_lt_Some. by rewrite E.
  - by rewrite list_lookup_insert_ne.
Qed.

Lemma silent_bind h st r k :
  silent h st (fst r) → (∀ st', absent h st' → silent h st' (fst (k st'))) →
  silent h st (fst (bind r k)).
Proof.
  destruct r as [st1 [|e|]]; simpl; try done.
  intros S K. eapply silent_trans; [exact S|]. apply K, S.
Qed.

Lemma silent_try_catch h st r :
  silent h st (fst r) →
  silent h st (fst (try_catch r (λ e, HostReportErrors [e]))).
Proof.
  destruct r as [st1 [|e|]]; simpl; try done.
  intros S. eapply silent_trans; [exact S|]. apply silent_log; [done|apply S].
Qed.

Section Silent.

Variable ch : channel.
Variable run : nat → value → script → state → result.
Variable h : handle.

Hypothesis run_silent :
  ∀ d v s st, absent h st → silent h st (fst (run d v s st)).

Lemma call_next_silent d h' v st :
  h' ≠ h → absent h st → silent h st (fst (call_next ch run d h' v st)).
Proof.
  intros Hne A. unfold call_next.
  destruct (subscriptions st !! h') as [s|]; [|by apply silent_refl].
  assert (∀ b, silent h st (log [Notify d h' (NNext v) b] st)) as L.
  { intros b. apply silent_log; [|done]. unfold calls_on. simpl.
    by rewrite decide_False. }
  destruct (drops ch s); [apply L|].
  destruct (next (s_observer s)) as [cb|]; [|apply L].
  eapply silent_trans; [apply L|].
  eapply silent_trans; [apply silent_set_observer, L|].
  apply run_silent, silent_set_observer, L.
Qed.

Lemma call_complete_silent d h' st :
  h' ≠ h → absent h st → silent h st (fst (call_complete ch run d h' st)).
Proof.
  intros Hne A. unfold call_complete.
  destruct (subscriptions st !! h') as [s|]; [|by apply silent_refl].
  assert (∀ b, silent h st (log [Notify d h' NComplete b] st)) as L.
  { intros b. apply silent_log; [|done]. unfold calls_on. simpl.
    by rewrite decide_False. }
  destruct (drops ch s); [apply L|].
  assert (silent h st (closing ch (close h')
                         (log [Notify d h' NComplete true] st))) as S1.
  { eapply silent_trans; [apply L|].
    apply silent_closing; [intros ?; apply silent_close|apply L]. }
  destruct (complete (s_observer s)) as [cb|].
  - match goal with |- context [run ?a ?b ?c ?x] =>
      pose proof (run_silent a b c x) as R; destruct (run a b c x) as [st2 c2] end.
    simpl in R.
    assert (silent h st st2) as S2.
    { eapply silent_trans; [exact S1|].
      eapply silent_trans; [apply silent_set_observer, S1|].
      apply R, silent_set_observer, S1. }
    destruct c2; simpl; try done;
      (eapply silent_trans; [exact S2|];
       apply silent_closing; [intros ?; apply silent_cleanup|apply S2]).
  - simpl. eapply silent_trans; [exact S1|].
    apply silent_closing; [intros ?; apply silent_cleanup|apply S1].
Qed.

Lemma dispatch_loop_silent d t snapshot st :
  h ∉ snapshot → absent h st →
  silent h st (fst (dispatch_loop ch run d t snapshot st)).
Proof.
  revert st. induction snapshot as [|h' rest IH]; intros st Hn A; simpl.
  { by apply silent_refl. }
  apply not_elem_of_cons in Hn as [Hne Hn].
  apply silent_bind.
  { by apply silent_try_catch, call_next_silent. }
  intros st1 A1. apply silent_bind.
  { by apply silent_try_catch, call_complete_silent. }
  intros st2 A2. by apply IH.
Qed.

Lemma _dispatch_silent d t st :
  absent h st → silent h st (fst (_dispatch ch run d t st)).
Proof.
  intros A. unfold _dispatch. apply silent_bind.
  - apply dispatch_loop_silent; [apply A|done].
  - intros st1 A1. apply silent_update_observers; [|done].
    by intros l _ ?%elem_of_nil.
Qed.

Lemma trigger_silent d t msg st :
  absent h st → silent h st (fst (trigger ch run d t msg st)).
Proof.
  intros A. unfold trigger.
  destruct (tokens st !! t) as [tok|] eqn:E; [|by apply silent_refl].
  destruct (_reason tok); [by apply silent_refl|].
  pose proof (silent_set_reason h t tok (Some (new_Cancel msg)) st E A) as S1.
  eapply silent_trans; [exact S1|]. apply _dispatch_silent, S1.
Qed.

Lemma subscribe_silent d t o st :
  absent h st → silent h st (fst (snd (subscribe ch run d t o st))).
Proof.
  intros A. unfold subscribe. cbn [fst snd].
  pose proof (silent_Observable_subscribe h t o st A) as S1.
  destruct (reason t _); [|done].
  eapply silent_trans; [exact S1|]. apply _dispatch_silent, S1.
Qed.

Lemma exec_action_silent d v a st :
  absent h st → silent h st (fst (exec_action ch run d v a st)).
Proof.
  intros A. destruct a; simpl.
  - by apply subscribe_silent.
  - by apply silent_unsubscribe.
  - by apply trigger_silent.
  - unfold throwIfRequested. destruct (reason t st); by apply silent_refl.
  - by apply silent_refl.
Qed.

Lemma exec_script_silent d v s st :
  absent h st → silent h st (fst (exec_script ch run d v s st)).
Proof.
  revert st. induction s as [|a s IH]; intros st A; simpl.
  - by apply silent_refl.
  - apply silent_bind; [by apply exec_action_silent|]. intros st1 A1. by apply IH.
Qed.

End Silent.

Lemma run_silent ch fuel h d v s st :
  absent h st → silent h st (fst (run ch fuel d v s st)).
Proof.
  revert d v s st. induction fuel as [|fuel IH]; intros d v s st A; simpl.
  - by apply silent_refl.
  - by apply exec_script_silent.
Qed.

Lemma silent_since h st st' :
  silent h st st' → calls_on h (since st st') = [].
Proof. intros [_ (new & E & C)]. by rewrite (since_new _ _ _ E). Qed.

Lemma Set_delete_absent h l : h ∉ l → Set_delete h l = l.
Proof.
  unfold Set_delete. induction l as [|x l IH]; [done|].
  intros [Hne Hn]%not_elem_of_cons.
  rewrite filter_cons_True by done. by rewrite IH.
Qed.

(** What [unsubscribe] does to the sets of a well-formed state. *)
Lemma observers_unsubscribe h s t st :
  well_formed st → subscriptions st !! h = Some s → s_closed s = false →
  observers t (unsubscribe h st) = Set_delete h (observers t st).
Proof.
  intros W E O. unfold unsubscribe. rewrite E, O. unfold cleanup.
  assert (subscriptions (close h st) !! h
          = Some (mkSubscription (s_token s) (s_observer s) true)) as ->.
  { unfold close. rewrite E. simpl.
    by rewrite list_lookup_insert_eq by eauto using lookup_lt_Some. }
  cbn [s_token]. rewrite observers_update_observers.
  rewrite !(observers_tokens _ _ _ (tokens_close h st)), tokens_close.
  destruct (decide (s_token s = t)) as [<-|Hne].
  - unfold observers. by destruct (tokens st !! s_token s).
  - rewrite Set_delete_absent; [done|]. intros Hin.
    destruct (W t) as [_ B]. destruct (B h Hin) as (s' & E' & T'). congruence.
Qed.

Lemma Set_delete_add h l : h ∉ l → Set_delete h (Set_add h l) = l.
Proof.
  intros Hn. unfold Set_add. rewrite decide_False by done.
  unfold Set_delete. rewrite filter_app, filter_cons_False, filter_nil, app_nil_r
    by (by intros ?).
  by apply Set_delete_absent.
Qed.

Lemma subscribe_pending ch run d t o st :
  reason t st = None →
  subscribe ch run d t o st
  = (length (subscriptions st), (snd (Observable_subscribe t o st), Normal)).
Proof.
  intros N. unfold subscribe. by rewrite reason_Observable_subscribe, N.
Qed.

(** X2: on a pending token [subscribe] only registers, and unsubscribing
    the handle it returns undoes the registration: the tokens and the
    trace are as before the two calls, and all that remains is the closed
    subscription. *)
Theorem unsubscribe_undoes_subscribe (ch : channel) (fuel d : nat) (t : token)
    (o : Observer) (st : state) :
  well_formed st → reason t st = None →
  let r := subscribe ch (run ch fuel) d t o st in
  snd (snd r) = Normal ∧
  trace (fst (snd r)) = trace st ∧
  unsubscribe (fst r) (fst (snd r))
  = mkState (tokens st) (subscriptions st ++ [mkSubscription t o true]) (trace st).
Proof.
  intros W N. cbn zeta. rewrite subscribe_pending by done. cbn [fst snd].
  split_and!; [done| |].
  { unfold Observable_subscribe. simpl. by rewrite trace_update_observers. }
  pose proof (well_formed_handles t st W) as F.
  assert (length (subscriptions st) ∉ observers t st) as Hn.
  { intros Hin. rewrite Forall_forall in F. specialize (F _ Hin). lia. }
  unfold unsubscribe, Observable_subscribe. cbn [snd].
  rewrite subscriptions_update_observers. cbn [subscriptions].
  rewrite list_lookup_middle by done. cbn [s_closed].
  unfold cleanup, close. rewrite subscriptions_update_observers. cbn [subscriptions].
  rewrite list_lookup_middle by done. cbn [s_token s_observer].
  unfold set_subscription at 1. cbn [subscriptions].
  rewrite subscriptions_update_observers. cbn [subscriptions].
  rewrite list_lookup_insert_eq by (rewrite length_app; simpl; lia).
  cbn [s_token].
  destruct st as [ts ss tr]. unfold update_observers, observers in *.
  cbn [tokens subscriptions trace] in *.
  destruct (ts !! t) as [tok|] eqn:E;
    unfold set_token, set_subscription; cbn [tokens subscriptions trace].
  - rewrite list_lookup_insert_eq by eauto using lookup_lt_Some.
    cbn [_reason _observers]. rewrite Set_delete_add by done.
    rewrite list_insert_insert_eq, insert_app_r_alt, Nat.sub_diag by done.
    f_equal. apply list_insert_id. rewrite E. by destruct tok.
  - rewrite E. cbn [tokens subscriptions trace].
    by rewrite insert_app_r_alt, Nat.sub_diag by done.
Qed.

Lemma unsubscribe_undoes_subscribe_witness :
  unsubscribe 0 subscribed_state
  = mkState [mkToken None []] [mkSubscription 0 plain true] [].
Proof.
  destruct (unsubscribe_undoes_subscribe Closing 1 0 0 plain (allocated empty_state))
    as (_ & _ & H).
  - apply well_formed_allocated, well_formed_empty_state.
  - done.
  - exact H.
Defined.

Lemma update_observers_twice f t st :
  (∀ l, f (f l) = f l) →
  update_observers f t (update_observers f t st) = update_observers f t st.
Proof.
  intros Hf. unfold update_observers at 2 3.
  destruct (tokens st !! t) as [tok|] eqn:E.
  2:{ unfold update_observers. by rewrite E. }
  unfold update_observers, set_token. cbn [tokens subscriptions trace].
  rewrite list_lookup_insert_eq by eauto using lookup_lt_Some.
  cbn [_reason _observers]. by rewrite list_insert_insert_eq, Hf.
Qed.

(** X3: unsubscribing twice is unsubscribing once.  The cleanup function
    of the constructor is idempotent and so is [unsubscribe]; no call of
    [unsubscribe] changes the trace or a reason, and on an open
    subscription of a well-formed state the call takes the handle, and
    only the handle, out of the observer sets. *)
Theorem unsubscribe_is_idempotent (h : handle) (st : state) :
  cleanup h (cleanup h st) = cleanup h st ∧
  unsubscribe h (unsubscribe h st) = unsubscribe h st ∧
  trace (unsubscribe h st) = trace st ∧
  (∀ t, reason t (unsubscribe h st) = reason t st) ∧
  (∀ s, well_formed st → subscriptions st !! h = Some s → s_closed s = false →
        ∀ t, observers t (unsubscribe h st) = Set_delete h (observers t st)).
Proof.
  split_and!.
  - unfold cleanup at 2 3. destruct (subscriptions st !! h) as [s|] eqn:E.
    2:{ unfold cleanup. by rewrite E. }
    unfold cleanup. rewrite subscriptions_update_observers, E.
    apply update_observers_twice. intros l. apply Set_delete_absent.
    unfold Set_delete. rewrite list_elem_of_filter. tauto.
  - unfold unsubscribe at 2 3.
    destruct (subscriptions st !! h) as [s|] eqn:E.
    2:{ unfold unsubscribe. by rewrite E. }
    destruct (s_closed s) eqn:C.
    { unfold unsubscribe. by rewrite E, C. }
    unfold unsubscribe. rewrite subscriptions_cleanup.
    unfold close at 1. rewrite E. cbn [subscriptions set_subscription].
    by rewrite list_lookup_insert_eq by eauto using lookup_lt_Some.
  - unfold unsubscribe. destruct (subscriptions st !! h) as [s|]; [|done].
    destruct (s_closed s); [done|]. by rewrite trace_cleanup, trace_close.
  - intros t. apply reason_unsubscribe.
  - intros s W E C t. by apply (observers_unsubscribe h s).
Qed.

(** X4: an observer that was unsubscribed is never called again.  After
    [unsubscribe] on an open subscription of a well-formed state, no call
    made from then on, whatever it is and however it ends, calls a method
    of the handle or puts it back in a set. *)
Theorem unsubscribed_observer_is_never_called (ch : channel) (fuel d : nat)
    (h : handle) (s : Subscription) (st : state) (v : value) (scr : script) :
  well_formed st → subscriptions st !! h = Some s → s_closed s = false →
  let st0 := unsubscribe h st in
  let st' := fst (exec_script ch (run ch fuel) d v scr st0) in
  calls_on h (since st0 st') = [] ∧ ∀ t, h ∉ observers t st'.
Proof.
  intros W E C. cbn zeta.
  assert (absent h (unsubscribe h st)) as A.
  { split.
    - pose proof (keeps_tokens_unsubscribe h st h s E) as (s' & E' & _).
      eauto using lookup_lt_Some.
    - intros t. rewrite (observers_unsubscribe h s) by done.
      unfold Set_delete. rewrite list_elem_of_filter. tauto. }
  pose proof (exec_script_silent ch _ h (run_silent ch fuel h) d v scr _ A) as S.
  split; [by apply silent_since|apply S].
Qed.

Lemma unsubscribed_observer_is_never_called_witness :
  let st0 := unsubscribe 0 subscribed_state in
  let st' := fst (exec_script Closing (run Closing 2) 0 VUndefined
                    [ACancel 0 (Lit (VString "x")); ASubscribe 0 plain] st0) in
  reason 0 st' = Some (mkCancel "x") ∧
  calls_on 0 (since st0 st') = [] ∧ calls_on 1 (since st0 st') = [NNext (VCancel (mkCancel "x")); NComplete].
Proof.
  cbn zeta. split_and!; [done| |done].
  apply (unsubscribed_observer_is_never_called Closing 2 0 0
           (mkSubscription 0 plain false) subscribed_state).
  - apply subscribe_well_formed; [apply run_well_formed|].
    apply well_formed_allocated, well_formed_empty_state.
  - done.
  - done.
Defined.

(** ** Subscribing through the observable *)

(** X5: subscribing to the observable that [[Symbol.observable]()] returns
    bypasses the replay of [subscribe].  On a cancelled token whose set is
    empty, the observer is registered and left in the set without a call;
    the next [subscribe] on the token then notifies it, before the observer
    it was given. *)
Theorem observable_subscribe_does_not_replay (ch : channel) (fuel d : nat)
    (t : token) (o o' : Observer) (c : Cancel) (st : state) :
  reason t st = Some c → observers t st = [] →
  let sub := Observable_subscribe t o st in
  let r := subscribe ch (run ch (S fuel)) d t o' (snd sub) in
  trace (snd sub) = trace st ∧
  observers t (snd sub) = [fst sub] ∧
  fst r = S (fst sub) ∧
  (snd (snd r) = Normal →
   pass_calls d (since (snd sub) (fst (snd r)))
   = deliveries (VCancel c) [fst sub; fst r] ∧
   observers t (fst (snd r)) = []) ∧
  (quiet_observer o → quiet_observer o' →
   snd (snd r) = Normal ∧
   since (snd sub) (fst (snd r))
   = delivery d (VCancel c) (fst sub) o ++ delivery d (VCancel c) (fst r) o').
Proof.
  intros R O. cbn zeta.
  destruct (registered_for_replay t o c st R O) as (O0 & T0 & E0 & R0).
  set (st0 := snd (Observable_subscribe t o st)) in *.
  assert (length (subscriptions st0) = S (length (subscriptions st))) as L0.
  { unfold st0, Observable_subscribe. simpl.
    rewrite subscriptions_update_observers. simpl. rewrite length_app. simpl. lia. }
  set (st1 := snd (Observable_subscribe t o' st0)).
  assert (observers t st1 = [length (subscriptions st); S (length (subscriptions st))])
    as O1.
  { unfold st1. rewrite observers_registered.
    - by rewrite O0, L0.
    - apply cancelled_token in R0 as (tok & -> & _). by eexists.
    - rewrite O0. constructor; [lia|constructor]. }
  assert (reason t st1 = Some c) as R1.
  { unfold st1. by rewrite reason_Observable_subscribe. }
  assert (trace st1 = trace st0) as T1.
  { unfold st1, Observable_subscribe. simpl. by rewrite trace_update_observers. }
  assert (subscriptions st1 =
          subscriptions st0 ++ [mkSubscription t o' false]) as U1.
  { unfold st1, Observable_subscribe. simpl.
    by rewrite subscriptions_update_observers. }
  assert (subscribe ch (run ch (S fuel)) d t o' st0
          = (S (length (subscriptions st)), _dispatch ch (run ch (S fuel)) d t st1))
    as ->.
  { unfold subscribe. fold st1. rewrite R1. f_equal. exact L0. }
  cbn [fst snd]. split_and!; [done|done|done| |].
  - unfold _dispatch. rewrite O1.
    destruct (dispatch_loop_calls ch _ (run_extends ch (S fuel)) d t c
                [length (subscriptions st); S (length (subscriptions st))] st1)
      as [_ Q]; [|done|].
    { rewrite U1, length_app, L0. simpl.
      apply Forall_cons. split; [lia|]. apply Forall_cons. split; [lia|done]. }
    cbn zeta in Q.
    destruct (dispatch_loop ch (run ch (S fuel)) d t _ st1) as [st2 c2].
    destruct c2; simpl; try done. intros _. split.
    + unfold since. rewrite trace_update_observers. fold (since st0 st2).
      rewrite (since_same_trace st0 st1) by done. by apply Q.
    + rewrite observers_update_observers, decide_True by done.
      by destruct (tokens st2 !! t).
  - intros Qo Qo'. unfold _dispatch. rewrite O1.
    destruct (dispatch_loop_quiet ch fuel d t
                [length (subscriptions st); S (length (subscriptions st))] st1)
      as (st2 & -> & L & _).
    { apply NoDup_cons. split; [|apply NoDup_singleton].
      rewrite list_elem_of_singleton. lia. }
    { intros h [->| ->%list_elem_of_singleton]%elem_of_cons.
      - exists (mkSubscription t o false). split_and!; [|by destruct ch|done].
        rewrite U1, lookup_app_l by lia. done.
      - exists (mkSubscription t o' false). split_and!; [|by destruct ch|done].
        rewrite U1, <-L0. by apply list_lookup_middle. }
    cbn [fst snd bind]. split; [done|].
    apply since_new. rewrite trace_update_observers, L, T1. f_equal.
    cbn [mbind list_bind]. rewrite U1, lookup_app_l, E0 by lia.
    rewrite <-L0, list_lookup_middle by done.
    unfold reason_value. rewrite R1. by rewrite app_nil_r.
Qed.

Lemma observable_subscribe_does_not_replay_witness :
  let sub := Observable_subscribe 0 plain cancelled_x in
  let r := subscribe Closing (run Closing 1) 0 0 plain (snd sub) in
  trace (snd sub) = trace cancelled_x ∧
  received 0 (since (snd sub) (fst (snd r))) = [NNext (VCancel (mkCancel "x")); NComplete].
Proof.
  cbn zeta.
  destruct (observable_subscribe_does_not_replay Closing 0 0 0 plain plain
              (mkCancel "x") cancelled_x) as (H1 & _ & _ & _ & H2); [done|done|].
  split; [exact H1|]. destruct H2 as [_ ->]; done.
Defined.

(** ** race *)

Lemma handles_on_absent t n list : t ∉ list → handles_on t n list = [].
Proof.
  revert n. induction list as [|t' rest IH]; intros n; [done|].
  intros [Hne Hn]%not_elem_of_cons. simpl. rewrite decide_False by done.
  by apply IH.
Qed.

Lemma reason_allocated_eq t st : reason t (allocated st) = reason t st.
Proof.
  unfold reason, allocated. simpl.
  destruct (decide (t < length (tokens st))) as [Hlt|Hge].
  - by rewrite lookup_app_l.
  - rewrite (lookup_ge_None_2 (tokens st)) by lia.
    destruct (decide (t = length (tokens st))) as [->|Hne].
    + by rewrite list_lookup_middle.
    + rewrite lookup_ge_None_2; [done|]. rewrite length_app. simpl. lia.
Qed.

Lemma tokens_length_Observable_subscribe t o st :
  length (tokens (snd (Observable_subscribe t o st))) = length (tokens st).
Proof.
  unfold Observable_subscribe. simpl. by rewrite tokens_length_update_observers.
Qed.

Lemma subscriptions_Observable_subscribe t o st :
  subscriptions (snd (Observable_subscribe t o st))
  = subscriptions st ++ [mkSubscription t o false].
Proof.
  unfold Observable_subscribe. simpl. by rewrite subscriptions_update_observers.
Qed.

Lemma trace_Observable_subscribe t o st :
  trace (snd (Observable_subscribe t o st)) = trace st.
Proof.
  unfold Observable_subscribe. simpl. by rewrite trace_update_observers.
Qed.

(** Subscribing, in order, to tokens that are pending: every call
    registers and none notifies. *)
Lemma subscribe_all_pending ch run d v (o : token → Observer) list st :
  well_formed st →
  Forall (λ t, reason t st = None) list →
  ∃ st',
    exec_script ch run d v ((λ t, ASubscribe t (o t)) <$> list) st = (st', Normal) ∧
    well_formed st' ∧
    trace st' = trace st ∧
    subscriptions st'
    = subscriptions st ++ ((λ t, mkSubscription t (o t) false) <$> list) ∧
    length (tokens st') = length (tokens st) ∧
    (∀ t, reason t st' = reason t st) ∧
    (∀ t, is_Some (tokens st !! t) →
          observers t st'
          = observers t st ++ handles_on t (length (subscriptions st)) list).
Proof.
  revert st. induction list as [|a rest IH]; intros st W P.
  { exists st. simpl. split_and!; try done; intros; by rewrite app_nil_r. }
  apply Forall_cons in P as [Pa P].
  set (st1 := snd (Observable_subscribe a (o a) st)).
  destruct (IH st1) as (st' & E & W' & T' & U' & L' & R' & O').
  { by apply well_formed_Observable_subscribe. }
  { eapply Forall_impl; [exact P|]. simpl. intros t.
    unfold st1. by rewrite reason_Observable_subscribe. }
  subst st1. exists st'. split_and!.
  - cbn [fmap list_fmap exec_script exec_action].
    rewrite subscribe_pending by done. by cbn [fst snd bind].
  - done.
  - by rewrite T', trace_Observable_subscribe.
  - rewrite U', subscriptions_Observable_subscribe. by rewrite <-app_assoc.
  - by rewrite L', tokens_length_Observable_subscribe.
  - intros t. rewrite R'. apply reason_Observable_subscribe.
  - intros t I. rewrite O'.
    2:{ apply lookup_lt_is_Some.
        rewrite tokens_length_Observable_subscribe. by apply lookup_lt_is_Some. }
    rewrite subscriptions_Observable_subscribe, length_app.
    cbn [length handles_on]. rewrite Nat.add_1_r, app_assoc. f_equal.
    destruct (decide (a = t)) as [->|Hne].
    + by rewrite observers_registered by (by try apply well_formed_handles).
    + by rewrite observers_Observable_subscribe, decide_False, app_nil_r.
Qed.

(** X6: [race] over tokens that are all pending only registers.  It
    returns normally a new token that is pending and has no observer; each
    input gets one new observer per occurrence in the list, in the order
    of the list and after the observers it had, and that observer is the
    trigger of the new token; nothing is called or printed and no reason
    changes. *)
Theorem race_of_pending_tokens_only_registers (ch : channel) (fuel d : nat)
    (list : list token) (st : state) :
  well_formed st →
  Forall (λ t, is_Some (tokens st !! t) ∧ reason t st = None) list →
  let r := race ch (run ch fuel) d list st in
  let st' := fst (snd r) in
  fst r = length (tokens st) ∧
  snd (snd r) = Normal ∧
  reason (fst r) st' = None ∧
  observers (fst r) st' = [] ∧
  trace st' = trace st ∧
  subscriptions st'
  = subscriptions st ++ ((λ t, mkSubscription t (race_observer (fst r)) false) <$> list) ∧
  (∀ t, reason t st' = reason t st) ∧
  (∀ t, observers t st'
        = observers t st ++ handles_on t (length (subscriptions st)) list).
Proof.
  intros W P. cbn zeta.
  assert (length (tokens st) ∉ list) as Hn.
  { intros Hin. rewrite Forall_forall in P. destruct (P _ Hin) as [I _].
    apply lookup_lt_is_Some in I. lia. }
  unfold race, new_CancelToken. cbn [fst snd].
  destruct (subscribe_all_pending ch (run ch fuel) d VUndefined
              (λ _, race_observer (length (tokens st))) list (allocated st))
    as (st' & E & W' & T' & U' & L' & R' & O').
  { by apply well_formed_allocated. }
  { eapply Forall_impl; [exact P|]. simpl. intros t [_ N].
    by rewrite reason_allocated_eq. }
  unfold race_observer in E. rewrite E. cbn [fst snd].
  split_and!; try done.
  - rewrite R'. apply reason_allocated.
  - rewrite O' by apply allocated_token. rewrite observers_allocated.
    rewrite handles_on_absent by done. unfold observers.
    by rewrite lookup_ge_None_2.
  - intros t. by rewrite R', reason_allocated_eq.
  - intros t. destruct (decide (t < length (tokens st))) as [Hlt|Hge].
    + rewrite O', observers_allocated; [done|].
      apply lookup_lt_is_Some. unfold allocated. simpl. rewrite length_app. lia.
    + rewrite handles_on_absent.
      2:{ intros Hin. rewrite Forall_forall in P. destruct (P _ Hin) as [I _].
          apply lookup_lt_is_Some in I. lia. }
      rewrite app_nil_r.
      destruct (decide (t = length (tokens st))) as [->|Hne].
      * rewrite O' by apply allocated_token. rewrite observers_allocated.
        rewrite handles_on_absent; [by rewrite app_nil_r|].
        intros Hin. rewrite Forall_forall in P. destruct (P _ Hin) as [I _].
        apply lookup_lt_is_Some in I. lia.
      * unfold observers. rewrite !lookup_ge_None_2; [done|lia|].
        rewrite L'. unfold allocated. simpl. rewrite length_app. simpl. lia.
Qed.

Lemma race_of_pending_tokens_only_registers_witness :
  let r := race Closing (run Closing 1) 0 [0; 1; 0]
             (allocated (allocated empty_state)) in
  snd (snd r) = Normal ∧
  observers 0 (fst (snd r)) = [0; 2] ∧ observers 1 (fst (snd r)) = [1].
Proof.
  cbn zeta.
  destruct (race_of_pending_tokens_only_registers Closing 1 0 [0; 1; 0]
              (allocated (allocated empty_state)))
    as (_ & H1 & _ & _ & _ & _ & _ & H2).
  - do 2 apply well_formed_allocated. apply well_formed_empty_state.
  - repeat constructor; by eexists.
  - split; [exact H1|]. split; [exact (H2 0)|exact (H2 1)].
Defined.

(** ** The trigger as an observer *)

Lemma reason_kept_bind ch d t c r k :
  reason t (fst r) = Some c →
  (∀ st', extends ch d st' (fst (k st'))) →
  reason t (fst (bind r k)) = Some c.
Proof.
  destruct r as [st [|e|]]; simpl; try done.
  intros R K. by eapply ext_reason.
Qed.

Lemma reason_kept_try_catch t c r :
  reason t (fst r) = Some c →
  reason t (fst (try_catch r (λ e, HostReportErrors [e]))) = Some c.
Proof. by destruct r as [st [|e|]]. Qed.

(** The call of [next] on an open handle whose [next] is the trigger of a
    pending token cancels that token with the value it is called with. *)
Lemma call_next_trigger ch fuel d h v T s st :
  subscriptions st !! h = Some s → drops ch s = false →
  next (s_observer s) = Some [[ACancel T Received]] →
  is_Some (tokens st !! T) → reason T st = None →
  reason T (fst (call_next ch (run ch (S fuel)) d h v st)) = Some (new_Cancel v).
Proof.
  intros E D Nx I N. unfold call_next. rewrite E, D, Nx.
  cbn [call_of fst snd run exec_script exec_action eval].
  eapply (reason_kept_bind ch d); [|intros; apply extends_refl].
  apply reason_trigger.
  - by rewrite tokens_set_observer.
  - unfold reason. by rewrite tokens_set_observer.
Qed.

(** A pass whose first handle is such a trigger cancels its token. *)
Lemma dispatch_loop_trigger ch fuel d t h rest T s st :
  subscriptions st !! h = Some s → drops ch s = false →
  next (s_observer s) = Some [[ACancel T Received]] →
  is_Some (tokens st !! T) → reason T st = None →
  reason T (fst (dispatch_loop ch (run ch (S fuel)) d t (h :: rest) st))
  = Some (new_Cancel (reason_value t st)).
Proof.
  intros E D Nx I N. cbn [dispatch_loop].
  pose proof (run_extends ch (S fuel)) as RX.
  eapply (reason_kept_bind ch d).
  - by apply reason_kept_try_catch, (call_next_trigger ch fuel d h _ T s).
  - intros st1. apply bind_extends.
    + by apply try_catch_extends, call_complete_extends.
    + intros st2. by apply dispatch_loop_extends.
Qed.

Lemma dispatch_loop_app ch run d t l1 l2 st :
  dispatch_loop ch run d t (l1 ++ l2) st
  = (do st1 <- dispatch_loop ch run d t l1 st; dispatch_loop ch run d t l2 st1).
Proof.
  revert st. induction l1 as [|h l1 IH]; intros st; simpl; [done|].
  destruct (try_catch (call_next ch run d h (reason_value t st) st) _)
    as [st1 [|e|]]; simpl; try done.
  destruct (try_catch (call_complete ch run d h st1) _) as [st2 [|e|]]; simpl; auto.
Qed.

(** A pass over quiet observers leaves the other subscriptions alone. *)
Lemma dispatch_loop_quiet_frame ch fuel d t snapshot st h :
  NoDup snapshot →
  (∀ h', h' ∈ snapshot →
         ∃ s, subscriptions st !! h' = Some s ∧ drops ch s = false ∧
              quiet_observer (s_observer s)) →
  h ∉ snapshot →
  subscriptions (fst (dispatch_loop ch (run ch (S fuel)) d t snapshot st)) !! h
  = subscriptions st !! h.
Proof.
  revert st. induction snapshot as [|h0 rest IH]; intros st ND Q Hn; [done|].
  apply NoDup_cons in ND as [Hh0 ND].
  apply not_elem_of_cons in Hn as [Hne Hn].
  destruct (Q h0) as (s & E & D & Qs); [by left|].
  destruct (deliver_quiet ch fuel d h0 (reason_value t st) s st E D Qs)
    as (st2 & B & _ & S2 & _).
  assert (dispatch_loop ch (run ch (S fuel)) d t (h0 :: rest) st
          = dispatch_loop ch (run ch (S fuel)) d t rest st2) as ->.
  { cbn [dispatch_loop]. revert B.
    destruct (try_catch (call_next ch (run ch (S fuel)) d h0 (reason_value t st) st) _)
      as [st1 [|e|]]; unfold bind; cbn beta iota; try done.
    by intros ->. }
  rewrite IH; [by apply S2|done| |done].
  intros h' Hh'. assert (h' ≠ h0) as Hne' by (by intros ->).
  rewrite (S2 h' Hne'). apply Q. by right.
Qed.

(** X7: [race] over a list in which a token is already cancelled returns a
    token that is cancelled.  When the tokens before it in the list are
    pending and its own set is empty, the reason of the new token is [new
    Cancel] of the reason of that token, an object, whatever the rest of
    the list is. *)
Theorem race_with_a_cancelled_input_is_cancelled (ch : channel) (fuel d : nat)
    (pre : list token) (t : token) (post : list token) (c : Cancel) (st : state) :
  well_formed st →
  Forall (λ t', reason t' st = None) pre →
  reason t st = Some c → observers t st = [] →
  let r := race ch (run ch (S fuel)) d (pre ++ t :: post) st in
  reason (fst r) (fst (snd r)) = Some (new_Cancel (VCancel c)).
Proof.
  intros W P R O. cbn zeta. unfold race, new_CancelToken. cbn [fst snd].
  set (T := length (tokens st)).
  rewrite fmap_app, exec_script_app. rewrite fmap_cons.
  destruct (subscribe_all_pending ch (run ch (S fuel)) d VUndefined
              (λ _, race_observer T) pre (allocated st))
    as (st1 & E & W1 & T1 & U1 & L1 & R1 & O1).
  { by apply well_formed_allocated. }
  { eapply Forall_impl; [exact P|]. simpl. intros t' N.
    by rewrite reason_allocated_eq. }
  unfold race_observer in E. rewrite E. cbn [bind exec_script exec_action].
  pose proof (run_extends ch (S fuel)) as RX.
  eapply (reason_kept_bind ch d); [|intros; by apply exec_script_extends].
  assert (t < T) as Ht.
  { apply cancelled_token in R as (tok & I & _). eauto using lookup_lt_Some. }
  assert (reason t st1 = Some c) as Rt.
  { by rewrite R1, reason_allocated_eq. }
  assert (observers t st1 = []) as Ot.
  { rewrite O1, observers_allocated, O.
    - apply handles_on_absent. intros Hin. rewrite Forall_forall in P.
      specialize (P _ Hin). congruence.
    - apply lookup_lt_is_Some. unfold allocated. simpl. rewrite length_app. lia. }
  destruct (registered_for_replay t (race_observer T) c st1 Rt Ot)
    as (O2 & _ & E2 & R2).
  unfold subscribe. cbn [fst snd]. fold (race_observer T). rewrite R2.
  set (st2 := snd (Observable_subscribe t (race_observer T) st1)) in *.
  unfold _dispatch. rewrite O2.
  eapply (reason_kept_bind ch d); [|intros; apply extends_update_observers].
  rewrite (dispatch_loop_trigger ch fuel d t _ [] T _ st2 E2); try done.
  - unfold reason_value. by rewrite R2.
  - by destruct ch.
  - apply lookup_lt_is_Some. unfold st2.
    rewrite tokens_length_Observable_subscribe, L1.
    unfold allocated. simpl. rewrite length_app. simpl. lia.
  - unfold st2. rewrite reason_Observable_subscribe, R1. apply reason_allocated.
Qed.

Lemma race_with_a_cancelled_input_is_cancelled_witness :
  let r := race Closing (run Closing 1) 0 [0] cancelled_x in
  reason 0 cancelled_x = Some (mkCancel "x") ∧
  reason (fst r) (fst (snd r)) = Some (mkCancel "[object Object]").
Proof.
  cbn zeta. split; [done|].
  apply (race_with_a_cancelled_input_is_cancelled Closing 0 0 [] 0 []
           (mkCancel "x") cancelled_x); try done.
  apply trigger_well_formed; [apply run_well_formed|].
  apply well_formed_allocated, well_formed_empty_state.
Defined.

(** X8: firing an input fires the race token before the trigger call
    returns.  When the observers before the race's in the set of the input
    are quiet and open, the trigger call of the input with [msg] leaves the
    race token cancelled, and its reason is [new Cancel] of the reason of
    the input. *)
Theorem firing_an_input_fires_the_race (ch : channel) (fuel d : nat)
    (t T : token) (msg : value) (pre : list handle) (h : handle)
    (post : list handle) (s : Subscription) (st : state) :
  is_Some (tokens st !! t) → reason t st = None →
  is_Some (tokens st !! T) → reason T st = None → T ≠ t →
  observers t st = pre ++ h :: post → NoDup (observers t st) →
  subscriptions st !! h = Some s → drops ch s = false →
  s_observer s = race_observer T →
  (∀ h', h' ∈ pre →
         ∃ s', subscriptions st !! h' = Some s' ∧ drops ch s' = false ∧
               quiet_observer (s_observer s')) →
  reason T (fst (trigger ch (run ch (S fuel)) d t msg st))
  = Some (new_Cancel (VCancel (new_Cancel msg))).
Proof.
  intros I N IT NT Hne O ND E D Ob Q.
  rewrite trigger_pending by done. unfold _dispatch.
  rewrite observers_fired, O, dispatch_loop_app.
  rewrite O in ND. apply NoDup_app in ND as (NDp & Hpre & _).
  assert (h ∉ pre) as Hh.
  { intros Hin. apply (Hpre h Hin). by left. }
  assert (∀ h', h' ∈ pre →
            ∃ s', subscriptions (fired t msg st) !! h' = Some s' ∧
                  drops ch s' = false ∧ quiet_observer (s_observer s')) as Q'.
  { intros h' Hh'. rewrite subscriptions_fired. by apply Q. }
  destruct (dispatch_loop_quiet ch fuel d t pre (fired t msg st) NDp Q')
    as (st1 & E1 & _ & R1 & _).
  pose proof (dispatch_loop_quiet_frame ch fuel d t pre (fired t msg st) h NDp Q' Hh)
    as F1.
  pose proof (dispatch_loop_extends ch _ (run_extends ch (S fuel)) d t pre
                (fired t msg st)) as X1.
  rewrite E1 in F1, X1 |- *. cbn [fst snd bind] in *.
  rewrite subscriptions_fired in F1.
  pose proof (run_extends ch (S fuel)) as RX.
  eapply (reason_kept_bind ch d); [|intros; apply extends_update_observers].
  rewrite (dispatch_loop_trigger ch fuel d t h post T s st1); try done.
  - unfold reason_value. by rewrite R1, reason_fired.
  - by rewrite F1.
  - by rewrite Ob.
  - apply lookup_lt_is_Some. apply ext_tokens in X1.
    apply lookup_lt_is_Some in IT.
    destruct I as [tok I]. unfold fired in X1. rewrite I in X1. simpl in X1.
    rewrite length_insert in X1. lia.
  - rewrite R1. unfold fired, reason. destruct I as [tok I]. rewrite I. simpl.
    rewrite list_lookup_insert_ne by done. exact NT.
Qed.

Lemma firing_an_input_fires_the_race_witness :
  reason 1 raced_state = None ∧
  reason 1 (fst (trigger Closing (run Closing 1) 0 0 (VString "stop") raced_state))
  = Some (mkCancel "[object Object]").
Proof.
  split; [done|].
  apply (firing_an_input_fires_the_race Closing 0 0 0 1 (VString "stop") [0] 1 []
           (mkSubscription 0 (race_observer 1) false) raced_state); try done.
  - change (NoDup [0; 1]). apply NoDup_cons. split; [|apply NoDup_singleton].
    rewrite list_elem_of_singleton. lia.
  - intros h' ->%list_elem_of_singleton. by eexists.
Defined.

(** X9: [race] never throws.  Its setup function only subscribes, and
    [subscribe] catches what the observers of a cancelled input throw: the
    call returns, or the bound on the nesting was reached first. *)
Theorem race_never_throws (ch : channel) (fuel d : nat) (list : list token)
    (st : state) :
  snd (snd (race ch (run ch fuel) d list st)) = Normal ∨
  snd (snd (race ch (run ch fuel) d list st)) = OutOfFuel.
Proof.
  assert (∀ e, snd (snd (race ch (run ch fuel) d list st)) ≠ Throws e) as H.
  { intros e. unfold race, new_CancelToken. cbn [fst snd].
    generalize (allocated st). induction list as [|t rest IH]; intros st0; [done|].
    cbn [fmap list_fmap exec_script exec_action]. apply bind_not_Throws.
    - apply subscribe_not_Throws.
    - apply IH. }
  destruct (snd (snd (race ch (run ch fuel) d list st))) as [|e|]; auto.
  by destruct (H e).
Qed.

(** ** Observers that do not subscribe *)

Lemma keeps_tokens_length st st' :
  keeps_tokens st st' → length (subscriptions st) ≤ length (subscriptions st').
Proof.
  intros K. destruct (subscriptions st) as [|s0 l] eqn:E using rev_ind.
  { simpl. lia. }
  clear IHl. destruct (K (length l) s0) as (s' & E' & _).
  { rewrite E. by apply list_lookup_middle. }
  apply lookup_lt_Some in E'. rewrite length_app. simpl. lia.
Qed.

Lemma since_app st1 st2 st3 :
  trace st2 = trace st1 ++ since st1 st2 →
  trace st3 = trace st2 ++ since st2 st3 →
  since st1 st3 = since st1 st2 ++ since st2 st3.
Proof. intros E1 E2. apply since_new. by rewrite E2, E1 at 1; rewrite app_assoc. Qed.

Lemma calls_on_Notify h d h' n b :
  calls_on h [Notify d h' n b] = if decide (h' = h) then [n] else [].
Proof. unfold calls_on. simpl. by case_decide. Qed.

Lemma follows_refl S st :
  well_formed st → subscribe_free_state st → follows S st st.
Proof.
  intros W F. split; [apply keeps_tokens_refl|done|done| | |done|done].
  - by rewrite since_refl, app_nil_r.
  - intros h _. left. by rewrite since_refl.
Qed.

Lemma follows_weaken S st st' : follows [] st st' → follows S st st'.
Proof.
  intros [K R O T C W F]. split; [done|done|done|done| |done|done].
  intros h _. apply C. by intros ?%elem_of_nil.
Qed.

Lemma follows_trans S st1 st2 st3 :
  follows S st1 st2 → follows S st2 st3 → follows S st1 st3.
Proof.
  intros [K1 R1 O1 T1 C1 W1 F1] [K2 R2 O2 T2 C2 W2 F2].
  pose proof (keeps_tokens_length _ _ K1) as L1.
  pose proof (since_app _ _ _ T1 T2) as A.
  split; [| | | | |done|done].
  - by eapply keeps_tokens_trans.
  - eauto.
  - intros t h Hin Hlt. apply O1; [|done]. apply O2; [done|lia].
  - by rewrite A, app_assoc, <-T1.
  - intros h Hn. unfold called_once. rewrite A, calls_on_app.
    destruct (C1 h Hn) as [E1|(P1 & s2 & L2 & I2 & D2)];
      destruct (C2 h Hn) as [E2|(P2 & s3 & L3 & I3 & D3)].
    + left. by rewrite E1, E2.
    + right. rewrite E1. simpl. split; [done|].
      exists s3. split_and!; [done|done|].
      destruct D3 as [D3|[D3 N3]]; [left; lia|].
      destruct (decide (h < length (subscriptions st1))) as [Hlt|Hge]; [|left; lia].
      right. split; [by apply O1|].
      destruct (reason (s_token s3) st1) as [c|] eqn:Rc; [|done].
      by rewrite (R1 _ _ Rc) in N3.
    + right. rewrite E2, app_nil_r. split; [done|].
      destruct (K2 h s2 L2) as (s3 & L3 & T3). exists s3. rewrite T3.
      split_and!; [done| |done].
      destruct I2 as [c Rc]. exists c. by apply R2.
    + exfalso. destruct D3 as [D3|[D3 N3]].
      * apply lookup_lt_Some in L2. lia.
      * destruct (W1 (s_token s3)) as [_ B]. destruct (B h D3) as (s & Ls & Ts).
        rewrite L2 in Ls. injection Ls as <-. rewrite Ts, N3 in I2.
        by destruct I2.
Qed.

(** A step that calls nothing: the sets gain no allocated handle. *)
Lemma follows_quietly S st st' :
  keeps_tokens st st' →
  (∀ t c, reason t st = Some c → reason t st' = Some c) →
  (∀ t h, h ∈ observers t st' → h < length (subscriptions st) → h ∈ observers t st) →
  trace st' = trace st →
  well_formed st' → subscribe_free_state st' →
  follows S st st'.
Proof.
  intros K R O T W F.
  assert (since st st' = []) as E.
  { apply since_new. by rewrite app_nil_r. }
  split; [done|done|done| | |done|done].
  - by rewrite E, app_nil_r.
  - intros h _. left. by rewrite E.
Qed.

Lemma follows_log_Notify d h n b st :
  well_formed st → subscribe_free_state st →
  follows [h] st (log [Notify d h n b] st).
Proof.
  intros W F. split; [by apply keeps_tokens_subscriptions|done|done| | | |done].
  - by rewrite since_log.
  - intros h' Hn. left. rewrite since_log, calls_on_Notify, decide_False; [done|].
    intros ->. apply Hn. by left.
  - by apply well_formed_log.
Qed.

Lemma follows_HostReportErrors S e st :
  well_formed st → subscribe_free_state st →
  follows S st (HostReportErrors [e] st).
Proof.
  intros W F. split; [by apply keeps_tokens_subscriptions|done|done| | | |done].
  - unfold HostReportErrors. by rewrite since_log.
  - intros h' Hn. left. unfold HostReportErrors. by rewrite since_log.
  - by apply well_formed_log.
Qed.

Lemma subscribe_free_state_set_subscription h s st :
  subscribe_free_observer (s_observer s) →
  subscribe_free_state st → subscribe_free_state (set_subscription h s st).
Proof. intros Q F. unfold subscribe_free_state. simpl. by apply Forall_insert. Qed.

Lemma subscribe_free_lookup h s st :
  subscribe_free_state st → subscriptions st !! h = Some s →
  subscribe_free_observer (s_observer s).
Proof. intros F E. by apply (Forall_lookup_1 _ _ _ _ F E). Qed.

Lemma follows_close S h st :
  well_formed st → subscribe_free_state st → follows S st (close h st).
Proof.
  intros W F. apply follows_quietly.
  - apply keeps_tokens_close.
  - intros t c. unfold reason. by rewrite tokens_close.
  - intros t x. by rewrite (observers_tokens t _ _ (tokens_close h st)).
  - apply trace_close.
  - by apply well_formed_close.
  - unfold close. destruct (subscriptions st !! h) as [s|] eqn:E; [|done].
    apply subscribe_free_state_set_subscription; [|done].
    apply (subscribe_free_lookup h s st F E).
Qed.

Lemma follows_set_observer S h o st :
  subscribe_free_observer o →
  well_formed st → subscribe_free_state st → follows S st (set_observer h o st).
Proof.
  intros Q W F. apply follows_quietly.
  - apply keeps_tokens_set_observer.
  - intros t c. unfold reason. by rewrite tokens_set_observer.
  - intros t x. by rewrite (observers_tokens t _ _ (tokens_set_observer h o st)).
  - apply trace_set_observer.
  - by apply well_formed_set_observer.
  - unfold set_observer. destruct (subscriptions st !! h) as [s|] eqn:E; [|done].
    by apply subscribe_free_state_set_subscription.
Qed.

Lemma follows_update_observers S f t st :
  (∀ l, NoDup l → NoDup (f l)) → (∀ l h, h ∈ f l → h ∈ l) →
  well_formed st → subscribe_free_state st →
  follows S st (update_observers f t st).
Proof.
  intros Hn Hs W F. apply follows_quietly.
  - apply keeps_tokens_subscriptions, subscriptions_update_observers.
  - intros t' c. by rewrite reason_update_observers.
  - intros t' x. rewrite observers_update_observers.
    destruct (decide (t = t')) as [->|Hne]; [|done].
    unfold observers. destruct (tokens st !! t'); [|by intros ?%elem_of_nil].
    intros Hin _. by apply Hs.
  - apply trace_update_observers.
  - by apply well_formed_update_observers.
  - unfold subscribe_free_state. by rewrite subscriptions_update_observers.
Qed.

Lemma follows_cleanup S h st :
  well_formed st → subscribe_free_state st → follows S st (cleanup h st).
Proof.
  intros W F. unfold cleanup.
  destruct (subscriptions st !! h); [|by apply follows_refl].
  apply follows_update_observers; try done.
  - intros l. apply NoDup_filter.
  - intros l x. unfold Set_delete. rewrite list_elem_of_filter. tauto.
Qed.

Lemma follows_clear S t st :
  well_formed st → subscribe_free_state st →
  follows S st (update_observers (λ _, []) t st).
Proof.
  intros W F. apply follows_update_observers; try done.
  - intros. constructor.
  - by intros l h ?%elem_of_nil.
Qed.

Lemma follows_closing S ch f st :
  (∀ st, well_formed st → subscribe_free_state st → follows S st (f st)) →
  well_formed st → subscribe_free_state st → follows S st (closing ch f st).
Proof. intros Hf W F. destruct ch; simpl; [by apply follows_refl|by apply Hf]. Qed.

Lemma follows_unsubscribe S h st :
  well_formed st → subscribe_free_state st → follows S st (unsubscribe h st).
Proof.
  intros W F. unfold unsubscribe.
  destruct (subscriptions st !! h) as [s|]; [|by apply follows_refl].
  destruct (s_closed s); [by apply follows_refl|].
  pose proof (follows_close S h st W F) as S1.
  eapply follows_trans; [exact S1|]. apply follows_cleanup; apply S1.
Qed.

Lemma follows_Observable_subscribe S t o st :
  subscribe_free_observer o →
  well_formed st → subscribe_free_state st →
  follows S st (snd (Observable_subscribe t o st)).
Proof.
  intros Q W F. apply follows_quietly.
  - apply keeps_tokens_Observable_subscribe.
  - intros t' c. by rewrite reason_Observable_subscribe.
  - intros t' x. rewrite observers_Observable_subscribe.
    destruct (decide (t = t')) as [->|Hne]; [|done].
    unfold observers. destruct (tokens st !! t'); [|by intros ?%elem_of_nil].
    unfold Set_add. case_decide; [done|].
    rewrite elem_of_app, list_elem_of_singleton. intros [?| ->]; [done|lia].
  - apply trace_Observable_subscribe.
  - by apply well_formed_Observable_subscribe.
  - unfold subscribe_free_state. rewrite subscriptions_Observable_subscribe.
    apply Forall_app. split; [done|]. by constructor.
Qed.

Lemma follows_set_reason S t tok c st :
  tokens st !! t = Some tok → _reason tok = None →
  well_formed st → subscribe_free_state st →
  follows S st (set_token t (mkToken (Some c) (_observers tok)) st).
Proof.
  intros E N W F. apply follows_quietly; try done.
  - by apply keeps_tokens_subscriptions.
  - intros t' c'. unfold reason. simpl. destruct (decide (t = t')) as [->|Hne].
    + rewrite E. simpl. by rewrite N.
    + by rewrite list_lookup_insert_ne.
  - intros t' x. unfold observers. simpl. destruct (decide (t = t')) as [->|Hne].
    + rewrite list_lookup_insert_eq by eauto using lookup_lt_Some. by rewrite E.
    + by rewrite list_lookup_insert_ne.
  - by apply well_formed_set_reason.
Qed.

Lemma follows_bind S st r k :
  follows S st (fst r) →
  (∀ st', well_formed st' → subscribe_free_state st' → follows S st' (fst (k st'))) →
  follows S st (fst (bind r k)).
Proof.
  destruct r as [st1 [|e|]]; simpl; try done.
  intros S1 K. eapply follows_trans; [exact S1|]. apply K; apply S1.
Qed.

Lemma follows_try_catch S st r :
  follows S st (fst r) →
  follows S st (fst (try_catch r (λ e, HostReportErrors [e]))).
Proof.
  destruct r as [st1 [|e|]]; simpl; try done.
  intros S1. eapply follows_trans; [exact S1|].
  apply follows_HostReportErrors; apply S1.
Qed.

Lemma call_of_subscribe_free cb :
  forallb subscribe_free cb →
  subscribe_free (fst (call_of cb)) ∧ forallb subscribe_free (snd (call_of cb)).
Proof.
  destruct cb as [|s [|s' cb]]; simpl; [done| |].
  - intros [? _]%andb_prop_elim. split; [done|]. by apply andb_prop_intro.
  - intros [? ?]%andb_prop_elim. done.
Qed.

(** A handle whose token is cancelled is not called. *)
Lemma cancelled_handle_not_called S st st' h :
  follows S st st' → h ∉ S → cancelled_handle h st →
  calls_on h (since st st') = [].
Proof.
  intros [K R O T C W F] Hn (s & E & [c Rc]).
  destruct (C h Hn) as [?|(_ & s' & E' & _ & [D|[_ N]])]; [done| |].
  - apply lookup_lt_Some in E. lia.
  - destruct (K h s E) as (s'' & E'' & T''). rewrite E' in E''.
    injection E'' as <-. rewrite T'', Rc in N. done.
Qed.

Lemma cancelled_handle_follows S st st' h :
  follows S st st' → cancelled_handle h st → cancelled_handle h st'.
Proof.
  intros [K R O T C W F] (s & E & [c Rc]).
  destruct (K h s E) as (s' & E' & T'). exists s'. split; [done|].
  rewrite T'. exists c. by apply R.
Qed.

Lemma follows_subset S S' st st' :
  (∀ h, h ∈ S → h ∈ S') → follows S st st' → follows S' st st'.
Proof.
  intros Sub [K R O T C W F]. split; [done|done|done|done| |done|done].
  intros h Hn. apply C. intros Hin. by apply Hn, Sub.
Qed.

Lemma follows_since S S' st1 st2 st3 :
  follows S st1 st2 → follows S' st2 st3 →
  since st1 st3 = since st1 st2 ++ since st2 st3.
Proof. intros [_ _ _ T1 _ _ _] [_ _ _ T2 _ _ _]. by apply since_app. Qed.

Lemma since_trace st st1 st2 :
  trace st1 = trace st2 → since st st1 = since st st2.
Proof. unfold since. by intros ->. Qed.

(** The handles a call was notifying itself, once it is known what they
    were called with. *)
Lemma follows_all S st st' :
  follows S st st' → (∀ h, h ∈ S → called_once st st' h) → follows [] st st'.
Proof.
  intros [K R O T C W F] H. split; [done|done|done|done| |done|done].
  intros h _. destruct (decide (h ∈ S)); [by apply H|by apply C].
Qed.

Lemma try_catch_calls_on S h st r :
  follows S st (fst r) →
  calls_on h (since st (fst (try_catch r (λ e, HostReportErrors [e]))))
  = calls_on h (since st (fst r)).
Proof.
  destruct r as [st1 [|e|]]; simpl; try done. intros [_ _ _ T _ _ _].
  rewrite (since_new st _ (since st st1 ++ [ConsoleError e])).
  - by rewrite calls_on_app, app_nil_r.
  - simpl. rewrite T at 1. by rewrite <-app_assoc.
Qed.

Section Once.

Variable ch : channel.
Variable run : nat → value → script → state → result.

Hypothesis run_follows :
  ∀ d v s st,
    well_formed st → subscribe_free_state st → subscribe_free s →
    follows [] st (fst (run d v s st)).

(** The state in which the [next] callback of a handle runs. *)
Lemma next_follows d h v s cb st :
  well_formed st → subscribe_free_state st →
  subscriptions st !! h = Some s → next (s_observer s) = Some cb →
  let st1 := set_observer h
               (mkObserver (Some (snd (call_of cb))) (complete (s_observer s)))
               (log [Notify d h (NNext v) true] st) in
  follows [h] st st1 ∧ since st st1 = [Notify d h (NNext v) true] ∧
  subscribe_free (fst (call_of cb)).
Proof.
  intros W F E Nx st1.
  pose proof (subscribe_free_lookup h s st F E) as [Qn Qc]%andb_prop_elim.
  rewrite Nx in Qn. simpl in Qn. apply call_of_subscribe_free in Qn as [Q1 Q2].
  pose proof (follows_log_Notify d h (NNext v) true st W F) as S1.
  split_and!; [|by apply since_new; unfold st1; rewrite trace_set_observer|done].
  eapply follows_trans; [exact S1|].
  apply follows_set_observer; [|apply S1|apply S1].
  apply andb_prop_intro. by split.
Qed.

Lemma call_next_follows d h v st :
  well_formed st → subscribe_free_state st →
  follows [h] st (fst (call_next ch run d h v st)).
Proof.
  intros W F. unfold call_next.
  destruct (subscriptions st !! h) as [s|] eqn:E; [|by apply follows_refl].
  destruct (drops ch s); [by apply follows_log_Notify|].
  destruct (next (s_observer s)) as [cb|] eqn:Nx; [|by apply follows_log_Notify].
  destruct (next_follows d h v s cb st W F E Nx) as (S1 & _ & Q).
  eapply follows_trans; [exact S1|].
  apply (follows_subset []); [by intros ? ?%elem_of_nil|].
  apply run_follows; [apply S1|apply S1|done].
Qed.

(** What the call of [next] on a handle calls on a handle whose token is
    cancelled. *)
Lemma call_next_calls_on d h0 v st h :
  well_formed st → subscribe_free_state st → cancelled_handle h st →
  calls_on h (since st (fst (call_next ch run d h0 v st)))
  = if decide (h0 = h) then [NNext v] else [].
Proof.
  intros W F Hc. unfold call_next.
  destruct (subscriptions st !! h0) as [s|] eqn:E.
  2:{ simpl. rewrite since_refl. case_decide as Heq; [|done].
      subst h0. destruct Hc as (s & E' & _). congruence. }
  destruct (drops ch s).
  { simpl. by rewrite since_log, calls_on_Notify. }
  destruct (next (s_observer s)) as [cb|] eqn:Nx.
  2:{ simpl. by rewrite since_log, calls_on_Notify. }
  destruct (next_follows d h0 v s cb st W F E Nx) as (S1 & E1 & Q).
  set (st1 := set_observer _ _ _) in *.
  assert (follows [] st1 (fst (run (S d) v (fst (call_of cb)) st1))) as S2.
  { apply run_follows; [apply S1|apply S1|done]. }
  rewrite (follows_since _ _ _ _ _ S1 S2), calls_on_app, E1, calls_on_Notify.
  rewrite (cancelled_handle_not_called [] st1 _ h S2), app_nil_r; [done| |].
  - by intros ?%elem_of_nil.
  - by apply (cancelled_handle_follows [h0] st).
Qed.

(** The state in which the [complete] callback of a handle runs. *)
Lemma complete_follows d h s cb st :
  well_formed st → subscribe_free_state st →
  subscriptions st !! h = Some s → complete (s_observer s) = Some cb →
  let st1 := set_observer h
               (mkObserver (next (s_observer s)) (Some (snd (call_of cb))))
               (closing ch (close h) (log [Notify d h NComplete true] st)) in
  follows [h] st st1 ∧ since st st1 = [Notify d h NComplete true] ∧
  subscribe_free (fst (call_of cb)).
Proof.
  intros W F E Cx st1.
  pose proof (subscribe_free_lookup h s st F E) as [Qn Qc]%andb_prop_elim.
  rewrite Cx in Qc. simpl in Qc. apply call_of_subscribe_free in Qc as [Q1 Q2].
  pose proof (follows_log_Notify d h NComplete true st W F) as S1.
  assert (follows [h] st (closing ch (close h) (log [Notify d h NComplete true] st)))
    as S2.
  { eapply follows_trans; [exact S1|].
    apply follows_closing; [intros; by apply follows_close|apply S1|apply S1]. }
  split_and!; [| |done].
  - eapply follows_trans; [exact S2|].
    apply follows_set_observer; [|apply S2|apply S2].
    apply andb_prop_intro. by split.
  - apply since_new. unfold st1. rewrite trace_set_observer.
    destruct ch; simpl; [done|by rewrite trace_close].
Qed.

Lemma closing_cleanup_follows S h st :
  well_formed st → subscribe_free_state st →
  follows S st (closing ch (cleanup h) st).
Proof. intros W F. apply follows_closing; [intros; by apply follows_cleanup|done..]. Qed.

Lemma call_complete_follows d h st :
  well_formed st → subscribe_free_state st →
  follows [h] st (fst (call_complete ch run d h st)).
Proof.
  intros W F. unfold call_complete.
  destruct (subscriptions st !! h) as [s|] eqn:E; [|by apply follows_refl].
  destruct (drops ch s); [by apply follows_log_Notify|].
  destruct (complete (s_observer s)) as [cb|] eqn:Cx.
  - destruct (complete_follows d h s cb st W F E Cx) as (S1 & _ & Q).
    set (st1 := set_observer _ _ _) in *.
    assert (follows [h] st (fst (run (S d) VUndefined (fst (call_of cb)) st1))) as S2.
    { eapply follows_trans; [exact S1|].
      apply (follows_subset []); [by intros ? ?%elem_of_nil|].
      apply run_follows; [apply S1|apply S1|done]. }
    destruct (run (S d) VUndefined (fst (call_of cb)) st1) as [st2 c2].
    cbn [fst] in S2.
    destruct c2; cbn [fst]; try done;
      (eapply follows_trans; [exact S2|];
       apply closing_cleanup_follows; apply S2).
  - cbn [fst].
    pose proof (follows_log_Notify d h NComplete true st W F) as S1.
    assert (follows [h] st (closing ch (close h) (log [Notify d h NComplete true] st)))
      as S2.
    { eapply follows_trans; [exact S1|].
      apply follows_closing; [intros; by apply follows_close|apply S1|apply S1]. }
    eapply follows_trans; [exact S2|]. apply closing_cleanup_follows; apply S2.
Qed.

Lemma trace_closing_cleanup h st : trace (closing ch (cleanup h) st) = trace st.
Proof. destruct ch; simpl; [done|apply trace_cleanup]. Qed.

Lemma call_complete_calls_on d h0 st h :
  well_formed st → subscribe_free_state st → cancelled_handle h st →
  calls_on h (since st (fst (call_complete ch run d h0 st)))
  = if decide (h0 = h) then [NComplete] else [].
Proof.
  intros W F Hc. unfold call_complete.
  destruct (subscriptions st !! h0) as [s|] eqn:E.
  2:{ simpl. rewrite since_refl. case_decide as Heq; [|done].
      subst h0. destruct Hc as (s & E' & _). congruence. }
  destruct (drops ch s).
  { simpl. by rewrite since_log, calls_on_Notify. }
  destruct (complete (s_observer s)) as [cb|] eqn:Cx.
  2:{ cbn [fst]. rewrite (since_trace st _ _ (trace_closing_cleanup h0 _)).
      rewrite (since_new st _ [Notify d h0 NComplete true]).
      - by rewrite calls_on_Notify.
      - destruct ch; simpl; [done|by rewrite trace_close]. }
  destruct (complete_follows d h0 s cb st W F E Cx) as (S1 & E1 & Q).
  set (st1 := set_observer _ _ _) in *.
  assert (follows [] st1 (fst (run (S d) VUndefined (fst (call_of cb)) st1))) as S2.
  { apply run_follows; [apply S1|apply S1|done]. }
  assert (calls_on h (since st (fst (run (S d) VUndefined (fst (call_of cb)) st1)))
          = if decide (h0 = h) then [NComplete] else []) as G.
  { rewrite (follows_since _ _ _ _ _ S1 S2), calls_on_app, E1, calls_on_Notify.
    rewrite (cancelled_handle_not_called [] st1 _ h S2), app_nil_r; [done| |].
    - by intros ?%elem_of_nil.
    - by apply (cancelled_handle_follows [h0] st). }
  destruct (run (S d) VUndefined (fst (call_of cb)) st1) as [st2 c2].
  cbn [fst] in G.
  destruct c2; cbn [fst]; try done;
    by rewrite (since_trace st _ _ (trace_closing_cleanup h0 _)).
Qed.

Lemma dispatch_loop_follows d t snapshot st :
  well_formed st → subscribe_free_state st →
  follows snapshot st (fst (dispatch_loop ch run d t snapshot st)).
Proof.
  revert st. induction snapshot as [|h rest IH]; intros st W F.
  { by apply follows_refl. }
  cbn [dispatch_loop]. apply follows_bind.
  { apply follows_try_catch, (follows_subset [h]); [|by apply call_next_follows].
    intros x ->%list_elem_of_singleton. by left. }
  intros st1 W1 F1. apply follows_bind.
  { apply follows_try_catch, (follows_subset [h]); [|by apply call_complete_follows].
    intros x ->%list_elem_of_singleton. by left. }
  intros st2 W2 F2. apply (follows_subset rest); [|by apply IH].
  intros x Hx. by right.
Qed.

(** A pass calls a handle whose token is cancelled if it is in its
    snapshot, with [next] and then [complete], and what the callbacks do
    meanwhile calls it no more. *)
Lemma dispatch_loop_calls_on d t c snapshot st h :
  well_formed st → subscribe_free_state st →
  reason t st = Some c → NoDup snapshot → cancelled_handle h st →
  calls_on h (since st (fst (dispatch_loop ch run d t snapshot st)))
  `prefix_of` (if decide (h ∈ snapshot) then [NNext (VCancel c); NComplete] else []).
Proof.
  revert st. induction snapshot as [|h0 rest IH]; intros st W F R ND Hc.
  { simpl. by rewrite since_refl. }
  apply NoDup_cons in ND as [Hh0 ND].
  cbn [dispatch_loop]. unfold reason_value. rewrite R.
  pose proof (call_next_follows d h0 (VCancel c) st W F) as X1.
  pose proof (follows_try_catch _ _ _ X1) as Y1.
  pose proof (try_catch_calls_on _ h _ _ X1) as C1.
  rewrite (call_next_calls_on d h0 (VCancel c) st h W F Hc) in C1.
  destruct (try_catch (call_next ch run d h0 (VCancel c) st) _) as [st1 c1].
  cbn [fst] in Y1, C1.
  assert (∀ l : list notification,
            l `prefix_of` (if decide (h0 = h) then [NNext (VCancel c); NComplete] else []) →
            l `prefix_of` (if decide (h ∈ h0 :: rest)
                           then [NNext (VCancel c); NComplete] else [])) as Fin.
  { intros l. destruct (decide (h0 = h)) as [->|Hne].
    - by rewrite decide_True by (by left).
    - intros ->%prefix_nil_inv. apply prefix_nil. }
  destruct c1; cbn [bind fst]; rewrite ?C1;
    try (apply Fin; case_decide; [by apply prefix_cons, prefix_nil|done]).
  pose proof (cancelled_handle_follows _ _ _ h Y1 Hc) as Hc1.
  pose proof (call_complete_follows d h0 st1 (fol_well_formed _ _ _ Y1)
                (fol_subscribe_free _ _ _ Y1)) as X2.
  pose proof (follows_try_catch _ _ _ X2) as Y2.
  pose proof (try_catch_calls_on _ h _ _ X2) as C2.
  rewrite (call_complete_calls_on d h0 st1 h (fol_well_formed _ _ _ Y1)
             (fol_subscribe_free _ _ _ Y1) Hc1) in C2.
  destruct (try_catch (call_complete ch run d h0 st1) _) as [st2 c2].
  cbn [fst] in Y2, C2.
  pose proof (follows_since _ _ _ _ _ Y1 Y2) as A12.
  destruct c2; cbn [bind fst]; rewrite ?A12, ?calls_on_app, ?C1, ?C2;
    try (apply Fin; by case_decide).
  pose proof (cancelled_handle_follows _ _ _ h Y2 Hc1) as Hc2.
  pose proof (dispatch_loop_follows d t rest st2 (fol_well_formed _ _ _ Y2)
                (fol_subscribe_free _ _ _ Y2)) as X3.
  specialize (IH st2 (fol_well_formed _ _ _ Y2) (fol_subscribe_free _ _ _ Y2)
                (fol_reason _ _ _ Y2 _ _ (fol_reason _ _ _ Y1 _ _ R)) ND Hc2).
  assert (∀ x, x ∈ [h0] → x ∈ h0 :: rest) as Sub.
  { intros x ->%list_elem_of_singleton. by left. }
  pose proof (follows_trans _ _ _ _ (follows_subset _ _ _ _ Sub Y1)
                (follows_subset _ _ _ _ Sub Y2)) as Y12.
  rewrite (follows_since _ _ _ _ _ Y12 X3), A12, !calls_on_app, C1, C2.
  destruct (decide (h0 = h)) as [->|Hne].
  - rewrite decide_False in IH by done. apply prefix_nil_inv in IH.
    rewrite IH, decide_True by (by left). done.
  - simpl. destruct (decide (h ∈ rest)) as [Hin|Hn].
    + by rewrite decide_True by (by right).
    + apply prefix_nil_inv in IH. rewrite IH. apply prefix_nil.
Qed.

(** A dispatch on a cancelled token: the handles of its set are called
    once each. *)
Lemma _dispatch_follows d t c st :
  well_formed st → subscribe_free_state st → reason t st = Some c →
  let st' := fst (_dispatch ch run d t st) in
  follows (observers t st) st st' ∧
  ∀ h, h ∈ observers t st →
       calls_on h (since st st') `prefix_of` [NNext (VCancel c); NComplete] ∧
       ∃ s, subscriptions st' !! h = Some s ∧ s_token s = t ∧
            is_Some (reason t st').
Proof.
  intros W F R. cbn zeta. unfold _dispatch.
  pose proof (dispatch_loop_follows d t (observers t st) st W F) as L.
  assert (∀ h, h ∈ observers t st →
               calls_on h (since st (fst (dispatch_loop ch run d t (observers t st) st)))
               `prefix_of` [NNext (VCancel c); NComplete]) as P.
  { intros h Hin.
    pose proof (dispatch_loop_calls_on d t c (observers t st) st h W F R) as Q.
    rewrite decide_True in Q by done. apply Q; [apply W|].
    destruct (W t) as [_ B]. destruct (B h Hin) as (s & E & <-).
    exists s. split; [done|by eexists]. }
  destruct (dispatch_loop ch run d t (observers t st) st) as [st1 c1].
  cbn [fst] in L, P.
  assert (follows (observers t st) st
            (fst (bind (st1, c1) (λ st2, (update_observers (λ _, []) t st2, Normal)))))
    as L'.
  { apply follows_bind; [done|]. intros st2 W2 F2. by apply follows_clear. }
  split; [done|]. intros h Hin. split.
  - destruct c1; cbn [bind fst]; try by apply P.
    unfold since. rewrite trace_update_observers. by apply P.
  - destruct (W t) as [_ B]. destruct (B h Hin) as (s & E & T).
    destruct (fol_keeps _ _ _ L' h s E) as (s' & E' & T').
    exists s'. split_and!; [done|congruence|].
    exists c. by apply (fol_reason _ _ _ L').
Qed.

Lemma trigger_follows d t msg st :
  well_formed st → subscribe_free_state st →
  follows [] st (fst (trigger ch run d t msg st)).
Proof.
  intros W F. unfold trigger.
  destruct (tokens st !! t) as [tok|] eqn:E; [|by apply follows_refl].
  destruct (_reason tok) eqn:N; [by apply follows_refl|].
  set (st0 := set_token t _ st).
  pose proof (follows_set_reason (observers t st0) t tok (new_Cancel msg) st E N W F)
    as S0.
  fold st0 in S0.
  assert (reason t st0 = Some (new_Cancel msg)) as R0.
  { unfold st0, reason. simpl.
    by rewrite list_lookup_insert_eq by eauto using lookup_lt_Some. }
  assert (observers t st0 = observers t st) as O0.
  { unfold st0, observers. simpl.
    rewrite list_lookup_insert_eq by eauto using lookup_lt_Some. by rewrite E. }
  destruct (_dispatch_follows d t (new_Cancel msg) st0 (fol_well_formed _ _ _ S0)
              (fol_subscribe_free _ _ _ S0) R0) as [L P].
  apply (follows_all (observers t st0)); [by eapply follows_trans|].
  intros h Hin. right. destruct (P h Hin) as (Q & s & Es & Ts & Is).
  rewrite (since_same_trace st st0) by done. split; [by eexists|].
  exists s. rewrite Ts. split_and!; [done|done|]. right. split.
  - by rewrite <-O0.
  - unfold reason. rewrite E. simpl. by rewrite N.
Qed.

(** [subscribe] with an observer that does not subscribe, on a token that
    is pending or has an empty set. *)
Lemma subscribe_follows d t o st :
  subscribe_free_observer o →
  well_formed st → subscribe_free_state st →
  (is_Some (reason t st) → observers t st = []) →
  follows [] st (fst (snd (subscribe ch run d t o st))).
Proof.
  intros Q W F D. unfold subscribe. cbn [fst snd].
  pose proof (follows_Observable_subscribe [length (subscriptions st)] t o st Q W F)
    as S0.
  set (st0 := snd (Observable_subscribe t o st)) in *.
  assert (reason t st0 = reason t st) as R0.
  { unfold st0. apply reason_Observable_subscribe. }
  rewrite R0. destruct (reason t st) as [c|] eqn:R.
  2:{ apply (follows_all [length (subscriptions st)]); [done|].
      intros h _. left. cbn [fst]. rewrite (since_new st st0 []); [done|].
      unfold st0. by rewrite trace_Observable_subscribe, app_nil_r. }
  destruct (registered_for_replay t o c st R (D (mk_is_Some _ _ eq_refl)))
    as (O0 & T0 & E0 & _).
  fold st0 in O0, T0, E0.
  destruct (_dispatch_follows d t c st0 (fol_well_formed _ _ _ S0)
              (fol_subscribe_free _ _ _ S0) R0) as [L P].
  rewrite O0 in L, P.
  apply (follows_all [length (subscriptions st)]); [by eapply follows_trans|].
  intros h ->%list_elem_of_singleton. right.
  destruct (P (length (subscriptions st))) as (Q' & s & Es & Ts & Is); [by left|].
  rewrite (since_same_trace st st0) by done. split; [by eexists|].
  exists s. rewrite Ts. split_and!; [done|done|]. by left.
Qed.

Lemma exec_action_follows d v a st :
  negb (subscribes a) →
  well_formed st → subscribe_free_state st →
  follows [] st (fst (exec_action ch run d v a st)).
Proof.
  intros Q W F. destruct a; simpl.
  - done.
  - by apply follows_unsubscribe.
  - by apply trigger_follows.
  - unfold throwIfRequested. destruct (reason t st); by apply follows_refl.
  - by apply follows_refl.
Qed.

Lemma exec_script_follows d v s st :
  subscribe_free s →
  well_formed st → subscribe_free_state st →
  follows [] st (fst (exec_script ch run d v s st)).
Proof.
  revert st. induction s as [|a s IH]; intros st Q W F; simpl.
  { by apply follows_refl. }
  simpl in Q. apply andb_prop_elim in Q as [Qa Q].
  apply follows_bind; [by apply exec_action_follows|].
  intros st1 W1 F1. by apply IH.
Qed.

Lemma exec_action_outer d v a st :
  outer_action a →
  well_formed st → subscribe_free_state st → drained (λ _, True) st →
  follows [] st (fst (exec_action ch run d v a st)).
Proof.
  intros Q W F D. destruct a; try by apply exec_action_follows.
  simpl. apply subscribe_follows; try done. intros I. by apply D.
Qed.

End Once.

Lemma run_follows ch fuel d v s st :
  well_formed st → subscribe_free_state st → subscribe_free s →
  follows [] st (fst (run ch fuel d v s st)).
Proof.
  revert d v s st. induction fuel as [|fuel IH]; intros d v s st W F Q; simpl.
  - by apply follows_refl.
  - by apply exec_script_follows.
Qed.

Lemma exec_script_outer ch fuel d v s st :
  outer s →
  well_formed st → subscribe_free_state st → drained (λ _, True) st →
  follows [] st (fst (exec_script ch (run ch fuel) d v s st)).
Proof.
  revert st. induction s as [|a s IH]; intros st Q W F D; simpl.
  { by apply follows_refl. }
  simpl in Q. apply andb_prop_elim in Q as [Qa Q].
  pose proof (exec_action_outer ch _ (run_follows ch fuel) d v a st Qa W F D) as S1.
  pose proof (exec_action_drained ch _ (run_drained ch fuel) (λ _, True) d v a st D)
    as D1.
  destruct (exec_action ch (run ch fuel) d v a st) as [st1 [|e|]]; simpl in *;
    try done.
  eapply follows_trans; [exact S1|]. apply IH; [done|apply S1|apply S1|by apply D1].
Qed.

(** X10: when no observer calls [subscribe], no observer is notified
    twice.  In a state whose cancelled tokens have an empty set, whatever
    sequence of calls a program makes, with observers that subscribe
    nothing, every handle is called at most once with [next] and then at
    most once with [complete], whatever else the observers do and however
    the calls end; and the observers of a token that was cancelled before
    are not called at all. *)
Theorem observers_that_do_not_subscribe_are_called_once (ch : channel)
    (fuel d : nat) (v : value) (s : script) (st : state) :
  well_formed st → drained (λ _, True) st → subscribe_free_state st → outer s →
  let st' := fst (exec_script ch (run ch fuel) d v s st) in
  ∀ h, (∃ v', calls_on h (since st st') `prefix_of` [NNext v'; NComplete]) ∧
       (cancelled_handle h st → calls_on h (since st st') = []).
Proof.
  intros W D F Q st' h. subst st'.
  pose proof (exec_script_outer ch fuel d v s st Q W F D) as S.
  split.
  - destruct (fol_calls _ _ _ S h) as [E|[P _]]; [by intros ?%elem_of_nil| |done].
    exists VUndefined. rewrite E. apply prefix_nil.
  - apply (cancelled_handle_not_called [] _ _ _ S). by intros ?%elem_of_nil.
Qed.

Lemma throwing_state_well_formed : well_formed throwing_state.
Proof.
  intros [|t]; (split; [|intros h]).
  - change (NoDup [0; 1]). apply NoDup_cons. split; [|apply NoDup_singleton].
    rewrite list_elem_of_singleton. lia.
  - change (h ∈ [0; 1] → ∃ s, subscriptions throwing_state !! h = Some s ∧
                               s_token s = 0).
    intros [->| ->%list_elem_of_singleton]%elem_of_cons; by eexists.
  - constructor.
  - by intros ?%elem_of_nil.
Qed.

Lemma observers_that_do_not_subscribe_are_called_once_witness :
  let st' := fst (exec_script Closing (run Closing 2) 0 VUndefined
                    [ACancel 0 (Lit (VString "x")); ASubscribe 0 plain;
                     AUnsubscribe 1]
                    throwing_state) in
  (∃ v', calls_on 0 (since throwing_state st') `prefix_of` [NNext v'; NComplete]) ∧
  (∃ v', calls_on 2 (since throwing_state st') `prefix_of` [NNext v'; NComplete]).
Proof.
  cbn zeta.
  assert (drained (λ _, True) throwing_state) as D.
  { intros [|t] _ [c R]; by vm_compute in R. }
  assert (subscribe_free_state throwing_state) as F by repeat constructor.
  split;
    apply (observers_that_do_not_subscribe_are_called_once Closing 2 0 VUndefined
             [ACancel 0 (Lit (VString "x")); ASubscribe 0 plain; AUnsubscribe 1]
             throwing_state throwing_state_well_formed D F I).
Defined.

(** ** Calls return when no observer subscribes *)

Lemma pending_tokens_tokens st st' :
  tokens st' = tokens st → pending_tokens st' = pending_tokens st.
Proof. unfold pending_tokens. by intros ->. Qed.

Lemma pending_tokens_set_token t tok tok' st :
  tokens st !! t = Some tok →
  pending_tokens (set_token t tok' st)
  + match _reason tok with None => 1 | Some _ => 0 end
  = pending_tokens st
    + match _reason tok' with None => 1 | Some _ => 0 end.
Proof.
  intros E. unfold pending_tokens, set_token. simpl.
  pose proof (lookup_lt_Some _ _ _ E) as Hlt.
  rewrite insert_take_drop by done.
  rewrite <-(take_drop_middle (tokens st) t tok E) at 3.
  rewrite !sum_list_with_app. simpl. lia.
Qed.

Lemma pending_tokens_update_observers f t st :
  pending_tokens (update_observers f t st) = pending_tokens st.
Proof.
  unfold update_observers. destruct (tokens st !! t) as [tok|] eqn:E; [|done].
  pose proof (pending_tokens_set_token t tok (mkToken (_reason tok) (f (_observers tok)))
                st E) as H.
  simpl in H. lia.
Qed.

Lemma pending_tokens_close h st : pending_tokens (close h st) = pending_tokens st.
Proof. apply pending_tokens_tokens, tokens_close. Qed.

Lemma pending_tokens_set_observer h o st :
  pending_tokens (set_observer h o st) = pending_tokens st.
Proof. apply pending_tokens_tokens, tokens_set_observer. Qed.

Lemma pending_tokens_cleanup h st : pending_tokens (cleanup h st) = pending_tokens st.
Proof.
  unfold cleanup. destruct (subscriptions st !! h); [|done].
  apply pending_tokens_update_observers.
Qed.

Lemma pending_tokens_closing ch f st :
  (∀ st, pending_tokens (f st) = pending_tokens st) →
  pending_tokens (closing ch f st) = pending_tokens st.
Proof. intros Hf. destruct ch; simpl; [done|apply Hf]. Qed.

Lemma pending_tokens_unsubscribe h st :
  pending_tokens (unsubscribe h st) = pending_tokens st.
Proof.
  unfold unsubscribe. destruct (subscriptions st !! h) as [s|]; [|done].
  destruct (s_closed s); [done|].
  by rewrite pending_tokens_cleanup, pending_tokens_close.
Qed.

Lemma pending_tokens_Observable_subscribe t o st :
  pending_tokens (snd (Observable_subscribe t o st)) = pending_tokens st.
Proof. unfold Observable_subscribe. simpl. by rewrite pending_tokens_update_observers. Qed.

Lemma pending_tokens_bind r k n :
  pending_tokens (fst r) ≤ n →
  (∀ st, pending_tokens st ≤ n → pending_tokens (fst (k st)) ≤ n) →
  pending_tokens (fst (bind r k)) ≤ n.
Proof. destruct r as [st [|e|]]; simpl; auto. Qed.

Lemma pending_tokens_try_catch r n :
  pending_tokens (fst r) ≤ n →
  pending_tokens (fst (try_catch r (λ e, HostReportErrors [e]))) ≤ n.
Proof. by destruct r as [st [|e|]]. Qed.

Section Calmer.

Variable ch : channel.
Variable run : nat → value → script → state → result.

Hypothesis run_calmer :
  ∀ d v s st, pending_tokens (fst (run d v s st)) ≤ pending_tokens st.

Lemma call_next_calmer d h v st :
  pending_tokens (fst (call_next ch run d h v st)) ≤ pending_tokens st.
Proof.
  unfold call_next. destruct (subscriptions st !! h) as [s|]; [|done].
  destruct (drops ch s); [done|].
  destruct (next (s_observer s)) as [cb|]; [|done].
  etrans; [apply run_calmer|]. by rewrite pending_tokens_set_observer.
Qed.

Lemma call_complete_calmer d h st :
  pending_tokens (fst (call_complete ch run d h st)) ≤ pending_tokens st.
Proof.
  unfold call_complete. destruct (subscriptions st !! h) as [s|]; [|done].
  destruct (drops ch s); [done|].
  assert (pending_tokens (closing ch (close h) (log [Notify d h NComplete true] st))
          = pending_tokens st) as E0.
  { by rewrite pending_tokens_closing by apply pending_tokens_close. }
  destruct (complete (s_observer s)) as [cb|].
  - match goal with |- context [run ?a ?b ?c ?x] =>
      pose proof (run_calmer a b c x) as R; destruct (run a b c x) as [st2 c2] end.
    rewrite pending_tokens_set_observer, E0 in R. simpl in R.
    destruct c2; simpl; try done;
      by rewrite pending_tokens_closing by apply pending_tokens_cleanup.
  - simpl. rewrite pending_tokens_closing by apply pending_tokens_cleanup. lia.
Qed.

Lemma dispatch_loop_calmer d t snapshot st :
  pending_tokens (fst (dispatch_loop ch run d t snapshot st)) ≤ pending_tokens st.
Proof.
  revert st. induction snapshot as [|h rest IH]; intros st; simpl; [done|].
  apply pending_tokens_bind.
  { apply pending_tokens_try_catch, call_next_calmer. }
  intros st1 L1. apply pending_tokens_bind.
  { apply pending_tokens_try_catch. etrans; [apply call_complete_calmer|done]. }
  intros st2 L2. etrans; [apply IH|done].
Qed.

Lemma _dispatch_calmer d t st :
  pending_tokens (fst (_dispatch ch run d t st)) ≤ pending_tokens st.
Proof.
  unfold _dispatch. apply pending_tokens_bind; [apply dispatch_loop_calmer|].
  intros st1 L1. simpl. by rewrite pending_tokens_update_observers.
Qed.

Lemma trigger_calmer d t msg st :
  pending_tokens (fst (trigger ch run d t msg st)) ≤ pending_tokens st.
Proof.
  unfold trigger. destruct (tokens st !! t) as [tok|] eqn:E; [|done].
  destruct (_reason tok) eqn:N; [done|].
  etrans; [apply _dispatch_calmer|].
  pose proof (pending_tokens_set_token t tok
                (mkToken (Some (new_Cancel msg)) (_observers tok)) st E) as H.
  rewrite N in H. simpl in H. lia.
Qed.

Lemma subscribe_calmer d t o st :
  pending_tokens (fst (snd (subscribe ch run d t o st))) ≤ pending_tokens st.
Proof.
  unfold subscribe. cbn [fst snd].
  destruct (reason t _).
  - etrans; [apply _dispatch_calmer|]. by rewrite pending_tokens_Observable_subscribe.
  - cbn [fst snd]. by rewrite pending_tokens_Observable_subscribe.
Qed.

Lemma exec_action_calmer d v a st :
  pending_tokens (fst (exec_action ch run d v a st)) ≤ pending_tokens st.
Proof.
  destruct a; simpl.
  - apply subscribe_calmer.
  - by rewrite pending_tokens_unsubscribe.
  - apply trigger_calmer.
  - unfold throwIfRequested. by destruct (reason t st).
  - done.
Qed.

Lemma exec_script_calmer d v s st :
  pending_tokens (fst (exec_script ch run d v s st)) ≤ pending_tokens st.
Proof.
  revert st. induction s as [|a s IH]; intros st; simpl; [done|].
  apply pending_tokens_bind; [apply exec_action_calmer|].
  intros st1 L1. etrans; [apply IH|done].
Qed.

End Calmer.

Lemma run_calmer ch fuel d v s st :
  pending_tokens (fst (run ch fuel d v s st)) ≤ pending_tokens st.
Proof.
  revert d v s st. induction fuel as [|fuel IH]; intros d v s st; simpl.
  - done.
  - by apply exec_script_calmer.
Qed.

Lemma bind_returns r k :
  snd r ≠ OutOfFuel → (snd r = Normal → snd (k (fst r)) ≠ OutOfFuel) →
  snd (bind r k) ≠ OutOfFuel.
Proof. destruct r as [st [|e|]]; simpl; auto. Qed.

Lemma try_catch_returns r :
  snd r ≠ OutOfFuel → snd (try_catch r (λ e, HostReportErrors [e])) ≠ OutOfFuel.
Proof. by destruct r as [st [|e|]]. Qed.

Section Returns.

Variable ch : channel.
Variable run : nat → value → script → state → result.
Variable n : nat.

Hypothesis run_follows :
  ∀ d v s st,
    well_formed st → subscribe_free_state st → subscribe_free s →
    follows [] st (fst (run d v s st)).

Hypothesis run_calmer :
  ∀ d v s st, pending_tokens (fst (run d v s st)) ≤ pending_tokens st.

Hypothesis run_returns :
  ∀ d v s st,
    well_formed st → subscribe_free_state st → subscribe_free s →
    pending_tokens st < n → snd (run d v s st) ≠ OutOfFuel.

Lemma call_next_returns d h v st :
  well_formed st → subscribe_free_state st → pending_tokens st < n →
  snd (call_next ch run d h v st) ≠ OutOfFuel.
Proof.
  intros W F P. unfold call_next.
  destruct (subscriptions st !! h) as [s|] eqn:E; [|done].
  destruct (drops ch s); [done|].
  destruct (next (s_observer s)) as [cb|] eqn:Nx; [|done].
  destruct (next_follows d h v s cb st W F E Nx) as (S1 & _ & Q).
  apply run_returns; [apply S1|apply S1|done|].
  by rewrite pending_tokens_set_observer.
Qed.

Lemma call_complete_returns d h st :
  well_formed st → subscribe_free_state st → pending_tokens st < n →
  snd (call_complete ch run d h st) ≠ OutOfFuel.
Proof.
  intros W F P. unfold call_complete.
  destruct (subscriptions st !! h) as [s|] eqn:E; [|done].
  destruct (drops ch s); [done|].
  destruct (complete (s_observer s)) as [cb|] eqn:Cx; [|done].
  destruct (complete_follows ch d h s cb st W F E Cx) as (S1 & _ & Q).
  match goal with |- context [run ?a ?b ?c ?x] =>
    pose proof (run_returns a b c x) as R; destruct (run a b c x) as [st2 c2] end.
  simpl in R. destruct c2; simpl; try done.
  apply R; [apply S1|apply S1|done|].
  rewrite pending_tokens_set_observer.
  by rewrite pending_tokens_closing by apply pending_tokens_close.
Qed.

Lemma dispatch_loop_returns d t snapshot st :
  well_formed st → subscribe_free_state st → pending_tokens st < n →
  snd (dispatch_loop ch run d t snapshot st) ≠ OutOfFuel.
Proof.
  revert st. induction snapshot as [|h rest IH]; intros st W F P; simpl; [done|].
  pose proof (call_next_follows ch run run_follows d h (reason_value t st) st W F) as X1.
  pose proof (follows_try_catch _ _ _ X1) as Y1.
  pose proof (call_next_calmer ch run run_calmer d h (reason_value t st) st) as L1.
  pose proof (pending_tokens_try_catch _ _ L1) as M1.
  pose proof (try_catch_returns _ (call_next_returns d h (reason_value t st) st W F P))
    as N1.
  destruct (try_catch (call_next ch run d h (reason_value t st) st) _) as [st1 c1].
  cbn [fst snd] in *. destruct c1; cbn [bind snd]; try done.
  assert (pending_tokens st1 < n) as P1 by lia.
  pose proof (call_complete_follows ch run run_follows d h st1
                (fol_well_formed _ _ _ Y1) (fol_subscribe_free _ _ _ Y1)) as X2.
  pose proof (follows_try_catch _ _ _ X2) as Y2.
  pose proof (call_complete_calmer ch run run_calmer d h st1) as L2.
  pose proof (pending_tokens_try_catch _ _ L2) as M2.
  pose proof (try_catch_returns _ (call_complete_returns d h st1
                (fol_well_formed _ _ _ Y1) (fol_subscribe_free _ _ _ Y1) P1)) as N2.
  destruct (try_catch (call_complete ch run d h st1) _) as [st2 c2].
  cbn [fst snd] in *. destruct c2; cbn [bind snd]; try done.
  apply IH; [apply Y2|apply Y2|lia].
Qed.

Lemma _dispatch_returns d t st :
  well_formed st → subscribe_free_state st → pending_tokens st < n →
  snd (_dispatch ch run d t st) ≠ OutOfFuel.
Proof.
  intros W F P. unfold _dispatch. apply bind_returns; [|done].
  by apply dispatch_loop_returns.
Qed.

(** The trigger of a pending token takes it out of the pending ones
    before it dispatches. *)
Lemma trigger_returns d t msg st :
  well_formed st → subscribe_free_state st → pending_tokens st ≤ n →
  snd (trigger ch run d t msg st) ≠ OutOfFuel.
Proof.
  intros W F P. unfold trigger.
  destruct (tokens st !! t) as [tok|] eqn:E; [|done].
  destruct (_reason tok) eqn:N; [done|].
  pose proof (follows_set_reason [] t tok (new_Cancel msg) st E N W F) as S0.
  apply _dispatch_returns; [apply S0|apply S0|].
  pose proof (pending_tokens_set_token t tok
                (mkToken (Some (new_Cancel msg)) (_observers tok)) st E) as H.
  rewrite N in H. simpl in H. lia.
Qed.

Lemma exec_action_returns d v a st :
  negb (subscribes a) →
  well_formed st → subscribe_free_state st → pending_tokens st ≤ n →
  snd (exec_action ch run d v a st) ≠ OutOfFuel.
Proof.
  intros Q W F P. destruct a; simpl; try done.
  - by apply trigger_returns.
  - unfold throwIfRequested. by destruct (reason t st).
Qed.

Lemma exec_script_returns d v s st :
  subscribe_free s →
  well_formed st → subscribe_free_state st → pending_tokens st ≤ n →
  snd (exec_script ch run d v s st) ≠ OutOfFuel.
Proof.
  revert st. induction s as [|a s IH]; intros st Q W F P; simpl; [done|].
  simpl in Q. apply andb_prop_elim in Q as [Qa Q].
  pose proof (exec_action_follows ch run run_follows d v a st Qa W F) as S1.
  pose proof (exec_action_calmer ch run run_calmer d v a st) as L1.
  apply bind_returns; [by apply exec_action_returns|]. intros _.
  apply IH; [done|apply S1|apply S1|lia].
Qed.

(** [subscribe] replays in the state it is called in. *)
Lemma subscribe_returns d t o st :
  subscribe_free_observer o →
  well_formed st → subscribe_free_state st → pending_tokens st < n →
  snd (snd (subscribe ch run d t o st)) ≠ OutOfFuel.
Proof.
  intros Q W F P. unfold subscribe. cbn [fst snd].
  pose proof (follows_Observable_subscribe [] t o st Q W F) as S0.
  destruct (reason t _); [|done].
  apply _dispatch_returns; [apply S0|apply S0|].
  by rewrite pending_tokens_Observable_subscribe.
Qed.

(** Whatever the sets of the cancelled tokens hold, [subscribe] keeps the
    state well formed and its observers subscribe-free. *)
Lemma subscribe_keeps d t o st :
  subscribe_free_observer o →
  well_formed st → subscribe_free_state st →
  let st' := fst (snd (subscribe ch run d t o st)) in
  well_formed st' ∧ subscribe_free_state st'.
Proof.
  intros Q W F. cbn zeta. unfold subscribe. cbn [fst snd].
  pose proof (follows_Observable_subscribe [] t o st Q W F) as S0.
  set (st0 := snd (Observable_subscribe t o st)) in *.
  destruct (reason t st0) as [c|] eqn:R; [|split; apply S0].
  destruct (_dispatch_follows ch run run_follows d t c st0 (fol_well_formed _ _ _ S0)
              (fol_subscribe_free _ _ _ S0) R) as [L _].
  split; apply L.
Qed.

End Returns.

Lemma run_returns ch fuel d v s st :
  well_formed st → subscribe_free_state st → subscribe_free s →
  pending_tokens st < fuel → snd (run ch fuel d v s st) ≠ OutOfFuel.
Proof.
  revert d v s st. induction fuel as [|fuel IH]; intros d v s st W F Q P; [lia|].
  simpl. apply (exec_script_returns ch _ fuel); try done.
  - apply run_follows.
  - apply run_calmer.
  - lia.
Qed.

(** X11: when no observer calls [subscribe], every call returns: the
    calls an observer makes nest no deeper than there are pending tokens.
    With observers that subscribe nothing, whatever else they do, a
    sequence of calls does not run out of a bound on the nesting that
    exceeds the number of pending tokens. *)
Theorem calls_return_when_no_observer_subscribes (ch : channel) (fuel d : nat)
    (v : value) (s : script) (st : state) :
  well_formed st → subscribe_free_state st → outer s →
  pending_tokens st < fuel →
  snd (exec_script ch (run ch fuel) d v s st) ≠ OutOfFuel.
Proof.
  revert st. induction s as [|a s IH]; intros st W F Q P; simpl; [done|].
  simpl in Q. apply andb_prop_elim in Q as [Qa Q].
  pose proof (exec_action_calmer ch _ (run_calmer ch fuel) d v a st) as L1.
  assert (well_formed (fst (exec_action ch (run ch fuel) d v a st)) ∧
          subscribe_free_state (fst (exec_action ch (run ch fuel) d v a st)) ∧
          snd (exec_action ch (run ch fuel) d v a st) ≠ OutOfFuel) as (W1 & F1 & N1).
  { destruct a as [t o|h|t e|t|e].
    - simpl in Qa. simpl.
      destruct (subscribe_keeps ch _ (run_follows ch fuel) d t o st Qa W F).
      split_and!; [done|done|].
      apply (subscribe_returns ch _ fuel); try done.
      + apply run_follows.
      + apply run_calmer.
      + apply run_returns.
    - pose proof (exec_action_follows ch _ (run_follows ch fuel) d v (AUnsubscribe h)
                    st I W F) as S1.
      split_and!; [apply S1|apply S1|done].
    - pose proof (exec_action_follows ch _ (run_follows ch fuel) d v (ACancel t e)
                    st I W F) as S1.
      split_and!; [apply S1|apply S1|].
      apply (trigger_returns ch _ fuel); try done.
      + apply run_follows.
      + apply run_calmer.
      + apply run_returns.
      + lia.
    - pose proof (exec_action_follows ch _ (run_follows ch fuel) d v
                    (AThrowIfRequested t) st I W F) as S1.
      split_and!; [apply S1|apply S1|].
      simpl. unfold throwIfRequested. by destruct (reason t st).
    - by split_and!. }
  apply bind_returns; [done|]. intros _. apply IH; [done|done|done|lia].
Qed.

Lemma calls_return_when_no_observer_subscribes_witness :
  snd (exec_script Closing (run Closing 2) 0 VUndefined
         [ACancel 0 (Lit (VString "x")); ASubscribe 0 throwing] throwing_state)
  ≠ OutOfFuel.
Proof.
  apply (calls_return_when_no_observer_subscribes Closing 2 0 VUndefined
           [ACancel 0 (Lit (VString "x")); ASubscribe 0 throwing] throwing_state).
  - apply throwing_state_well_formed.
  - repeat constructor.
  - done.
  - vm_compute. lia.
Defined.

(** ** Every observer is notified once *)

Section Exactly.

Variable ch : channel.
Variable run : nat → value → script → state → result.

Hypothesis run_follows :
  ∀ d v s st,
    well_formed st → subscribe_free_state st → subscribe_free s →
    follows [] st (fst (run d v s st)).

(** A pass that returns has called the handles of its snapshot, and of
    the handles whose token is cancelled only those. *)
Lemma dispatch_loop_calls_all d t c snapshot st h :
  well_formed st → subscribe_free_state st →
  reason t st = Some c → NoDup snapshot → cancelled_handle h st →
  snd (dispatch_loop ch run d t snapshot st) = Normal →
  calls_on h (since st (fst (dispatch_loop ch run d t snapshot st)))
  = if decide (h ∈ snapshot) then [NNext (VCancel c); NComplete] else [].
Proof.
  revert st. induction snapshot as [|h0 rest IH]; intros st W F R ND Hc.
  { simpl. by rewrite since_refl. }
  apply NoDup_cons in ND as [Hh0 ND].
  cbn [dispatch_loop]. unfold reason_value. rewrite R.
  pose proof (call_next_follows ch run run_follows d h0 (VCancel c) st W F) as X1.
  pose proof (follows_try_catch _ _ _ X1) as Y1.
  pose proof (try_catch_calls_on _ h _ _ X1) as C1.
  rewrite (call_next_calls_on ch run run_follows d h0 (VCancel c) st h W F Hc) in C1.
  destruct (try_catch (call_next ch run d h0 (VCancel c) st) _) as [st1 c1].
  cbn [fst] in Y1, C1. destruct c1; cbn [bind fst snd]; try done.
  pose proof (cancelled_handle_follows _ _ _ h Y1 Hc) as Hc1.
  pose proof (call_complete_follows ch run run_follows d h0 st1
                (fol_well_formed _ _ _ Y1) (fol_subscribe_free _ _ _ Y1)) as X2.
  pose proof (follows_try_catch _ _ _ X2) as Y2.
  pose proof (try_catch_calls_on _ h _ _ X2) as C2.
  rewrite (call_complete_calls_on ch run run_follows d h0 st1 h
             (fol_well_formed _ _ _ Y1) (fol_subscribe_free _ _ _ Y1) Hc1) in C2.
  destruct (try_catch (call_complete ch run d h0 st1) _) as [st2 c2].
  cbn [fst] in Y2, C2. destruct c2; cbn [bind fst snd]; try done.
  intros N.
  pose proof (cancelled_handle_follows _ _ _ h Y2 Hc1) as Hc2.
  pose proof (dispatch_loop_follows ch run run_follows d t rest st2
                (fol_well_formed _ _ _ Y2) (fol_subscribe_free _ _ _ Y2)) as X3.
  specialize (IH st2 (fol_well_formed _ _ _ Y2) (fol_subscribe_free _ _ _ Y2)
                (fol_reason _ _ _ Y2 _ _ (fol_reason _ _ _ Y1 _ _ R)) ND Hc2 N).
  assert (∀ x, x ∈ [h0] → x ∈ h0 :: rest) as Sub.
  { intros x ->%list_elem_of_singleton. by left. }
  pose proof (follows_trans _ _ _ _ (follows_subset _ _ _ _ Sub Y1)
                (follows_subset _ _ _ _ Sub Y2)) as Y12.
  rewrite (follows_since _ _ _ _ _ Y12 X3), (follows_since _ _ _ _ _ Y1 Y2).
  rewrite !calls_on_app, C1, C2, IH.
  destruct (decide (h0 = h)) as [->|Hne].
  - by rewrite decide_False, decide_True by (done || by left).
  - simpl. destruct (decide (h ∈ rest)) as [Hin|Hn].
    + by rewrite decide_True by (by right).
    + rewrite decide_False; [done|]. by intros [->|?]%elem_of_cons.
Qed.

End Exactly.

(** A dispatch on a cancelled token, when the bound on the nesting
    exceeds the number of pending tokens: it returns, the handles of the
    set were called with [next] and [complete], and the set is empty. *)
Lemma _dispatch_calls_all ch fuel d t c st :
  well_formed st → subscribe_free_state st → reason t st = Some c →
  pending_tokens st < fuel →
  let r := _dispatch ch (run ch fuel) d t st in
  snd r = Normal ∧
  (∀ h, h ∈ observers t st →
        calls_on h (since st (fst r)) = [NNext (VCancel c); NComplete]) ∧
  observers t (fst r) = [].
Proof.
  intros W F R P. cbn zeta. unfold _dispatch.
  pose proof (dispatch_loop_returns ch _ fuel (run_follows ch fuel) (run_calmer ch fuel)
                (run_returns ch fuel) d t (observers t st) st W F P) as N.
  pose proof (dispatch_loop_not_Throws ch (run ch fuel) d t (observers t st) st) as T.
  assert (∀ h, h ∈ observers t st →
            snd (dispatch_loop ch (run ch fuel) d t (observers t st) st) = Normal →
            calls_on h (since st (fst (dispatch_loop ch (run ch fuel) d t
                                         (observers t st) st)))
            = [NNext (VCancel c); NComplete]) as Q.
  { intros h Hin Hn.
    rewrite (dispatch_loop_calls_all ch _ (run_follows ch fuel) d t c _ st h);
      try done.
    - by rewrite decide_True.
    - apply W.
    - destruct (W t) as [_ B]. destruct (B h Hin) as (s & E & <-).
      exists s. split; [done|by eexists]. }
  destruct (dispatch_loop ch (run ch fuel) d t (observers t st) st) as [st1 [|e|]];
    cbn [fst snd bind] in *; [|by destruct (T e)|done].
  split_and!; [done| |].
  - intros h Hin. unfold since. rewrite trace_update_observers. by apply Q.
  - rewrite observers_update_observers, decide_True by done.
    by destruct (tokens st1 !! t).
Qed.

(** On a channel that forwards every call, the calls on a handle all
    reach its observer. *)
Lemma received_calls_on ch d evs h :
  Forall (event_ok ch d) evs → ch = Forwarding → received h evs = calls_on h evs.
Proof.
  intros F ->. induction F as [|ev evs Hev _ IH]; [done|].
  change (ev :: evs) with ([ev] ++ evs). rewrite received_app, calls_on_app, IH.
  f_equal. destruct ev as [d' h' n b|e]; [|done].
  destruct Hev as [_ Hb]. by rewrite Hb.
Qed.

(** X12: when no observer calls [subscribe], every observer is notified
    exactly once.  With observers that subscribe nothing and a bound on the
    nesting that exceeds the number of pending tokens, the trigger call of
    a pending token returns after it has called every observer of the set
    with [next] and the reason and then with [complete], once each,
    whatever the observers do meanwhile; on a channel that forwards every
    call this is what each observer receives.  A [subscribe] on a
    cancelled token whose set is empty returns after it has called the new
    observer so. *)
Theorem every_observer_is_notified_once (ch : channel) (fuel d : nat) (st : state) :
  well_formed st → subscribe_free_state st → pending_tokens st < fuel →
  (∀ t msg,
     is_Some (tokens st !! t) → reason t st = None →
     let r := trigger ch (run ch fuel) d t msg st in
     snd r = Normal ∧
     (∀ h, h ∈ observers t st →
           calls_on h (since st (fst r))
           = [NNext (VCancel (new_Cancel msg)); NComplete] ∧
           (ch = Forwarding →
            received h (since st (fst r))
            = [NNext (VCancel (new_Cancel msg)); NComplete])) ∧
     observers t (fst r) = []) ∧
  (∀ t o c,
     reason t st = Some c → observers t st = [] → subscribe_free_observer o →
     let r := subscribe ch (run ch fuel) d t o st in
     snd (snd r) = Normal ∧
     calls_on (fst r) (since st (fst (snd r))) = [NNext (VCancel c); NComplete] ∧
     observers t (fst (snd r)) = []).
Proof.
  intros W F P. split.
  - intros t msg I N. cbn zeta. rewrite trigger_pending by done.
    destruct I as [tok E].
    assert (_reason tok = None) as Nt.
    { unfold reason in N. rewrite E in N. done. }
    pose proof (follows_set_reason [] t tok (new_Cancel msg) st E Nt W F) as S0.
    assert (fired t msg st
            = set_token t (mkToken (Some (new_Cancel msg)) (_observers tok)) st) as Ef.
    { unfold fired. by rewrite E. }
    rewrite <-Ef in S0.
    destruct (_dispatch_calls_all ch fuel d t (new_Cancel msg) (fired t msg st))
      as (Hn & Hc & Ho).
    + apply S0.
    + apply S0.
    + apply reason_fired. by eexists.
    + pose proof (pending_tokens_set_token t tok
                    (mkToken (Some (new_Cancel msg)) (_observers tok)) st E) as H.
      rewrite Nt in H. simpl in H. rewrite Ef. lia.
    + split_and!; [done| |done].
      intros h Hin.
      assert (calls_on h (since st (fst (_dispatch ch (run ch fuel) d t
                                           (fired t msg st))))
              = [NNext (VCancel (new_Cancel msg)); NComplete]) as G.
      { rewrite (since_same_trace st (fired t msg st)) by (by rewrite trace_fired).
        apply Hc. by rewrite observers_fired. }
      split; [done|]. intros Hch. rewrite <-G.
      pose proof (trigger_extends ch _ (run_extends ch fuel) d t msg st) as X.
      rewrite trigger_pending in X by (done || by eexists).
      apply extends_since in X as [_ X]. by apply (received_calls_on ch d).
  - intros t o c R O Q. cbn zeta.
    destruct (registered_for_replay t o c st R O) as (O0 & T0 & E0 & R0).
    pose proof (follows_Observable_subscribe [] t o st Q W F) as S0.
    unfold subscribe. cbn [fst snd].
    set (st0 := snd (Observable_subscribe t o st)) in *.
    rewrite R0.
    destruct (_dispatch_calls_all ch fuel d t c st0) as (Hn & Hc & Ho).
    + apply S0.
    + apply S0.
    + done.
    + unfold st0. by rewrite pending_tokens_Observable_subscribe.
    + split_and!; [done| |done].
      rewrite (since_same_trace st st0) by done.
      apply Hc. rewrite O0. by left.
Qed.

Lemma every_observer_is_notified_once_witness :
  let r := trigger Closing (run Closing 2) 0 0 (VString "x") throwing_state in
  snd r = Normal ∧
  calls_on 0 (since throwing_state (fst r))
  = [NNext (VCancel (mkCancel "x")); NComplete] ∧
  calls_on 1 (since throwing_state (fst r))
  = [NNext (VCancel (mkCancel "x")); NComplete].
Proof.
  cbn zeta.
  destruct (every_observer_is_notified_once Closing 2 0 throwing_state)
    as [H _].
  - apply throwing_state_well_formed.
  - repeat constructor.
  - vm_compute. lia.
  - destruct (H 0 (VString "x")) as (H1 & H2 & _); [by eexists|done|].
    destruct (H2 0) as [G0 _]; [change (0 ∈ [0; 1]); by left|].
    destruct (H2 1) as [G1 _]; [change (1 ∈ [0; 1]); right; by left|].
    by split_and!.
Defined.
